(** * Kira: a shallow embedding of the interpreter pipeline

    The development follows the Python sources file by file:
    [tokens.py] (token kinds, keyword table), [ast_nodes.py] (the two node
    families), [lexer.py], [parser.py] (Pratt parser), [environment.py]
    (chained scopes), [evaluator.py] (tree walk) and the driver function
    [run_source] of [kira.py].

    Conventions.
    - Source text and Kira strings are sequences of code points below 256
      (Rocq's [ascii] read as Latin-1); [str.isdigit], [str.isalpha] and
      [str.isalnum] are the Unicode predicates restricted to that range.
    - Python integers are [Z]; Python floats are IEEE binary64 data
      ([PrimFloat.float]).  What the Python runtime computes on floats
      (and complex numbers, which [**] can produce) is not fixed by the
      interpreter's sources: it is taken from the class [PyHost].
    - [str(n)] and the f-string of an integer [n] are [str_of_Z n].  The
      host prints an integer of at most 4300 digits
      ([sys.get_int_max_str_digits()]) and raises [ValueError] on a longer
      one; the model follows it up to that limit only, and the properties
      about a printed integer assume it within the limit.
    - Python objects with identity (lists, dicts, [Environment] instances)
      live in stores indexed by allocation order; values hold indices.
    - Python exceptions are the type [exn]; a computation yields
      [Normal v], [Raise e], or [OutOfFuel] when the recursion budget given
      to the model is used up (a non-terminating run, or one deeper than
      the budget; the host's own recursion limit is not modelled). *)

From Stdlib Require Import ZArith String Ascii List Floats DecimalString
  DecimalPos.
From stdpp Require Import base option gmap strings list.

Local Open Scope string_scope.
Local Open Scope list_scope.
Local Open Scope Z_scope.

(** String concatenation, written apart from list append. *)
Infix "+++" := String.append (right associativity, at level 60).

(* ================================================================== *)
(** ** Characters and strings of the host *)
(* ================================================================== *)

Definition ord (c : ascii) : Z := Z.of_nat (nat_of_ascii c).

Definition chr_newline : ascii := "010"%char.
Definition chr_tab : ascii := "009"%char.
Definition chr_cr : ascii := "013"%char.
Definition chr_space : ascii := " "%char.
Definition chr_dquote : ascii := "034"%char.
Definition chr_squote : ascii := "'"%char.
Definition chr_backslash : ascii := "\"%char.

Definition in_range (lo hi x : Z) : bool := (lo <=? x) && (x <=? hi).

(** [str.isdigit()] on one character: the ASCII digits and the three
    superscript digits of Latin-1 (U+00B2, U+00B3, U+00B9). *)
Definition isdigit (c : ascii) : bool :=
  let n := ord c in
  in_range 48 57 n || (n =? 178) || (n =? 179) || (n =? 185).

(** [str.isdecimal()]: the characters [int()] and [float()] accept as
    digits. *)
Definition isdecimal (c : ascii) : bool := in_range 48 57 (ord c).

(** [str.isalpha()]: the ASCII letters and the Latin-1 letters. *)
Definition isalpha (c : ascii) : bool :=
  let n := ord c in
  in_range 65 90 n || in_range 97 122 n
  || (n =? 170) || (n =? 181) || (n =? 186)
  || in_range 192 214 n || in_range 216 246 n || in_range 248 255 n.

(** [str.isalnum()]: alphabetic, decimal, digit or numeric (the vulgar
    fractions U+00BC..U+00BE are numeric). *)
Definition isalnum (c : ascii) : bool :=
  isalpha c || isdigit c || in_range 188 190 (ord c).

Definition ascii_eqb (a b : ascii) : bool := Ascii.eqb a b.

Definition str_of_chars (cs : list ascii) : string := string_of_list_ascii cs.
Definition chars_of_str (s : string) : list ascii := list_ascii_of_string s.
Definition str1 (c : ascii) : string := String c EmptyString.

(** [str(n)] for a Python int of at most 4300 digits (the host raises
    [ValueError] on a longer one). *)
Definition str_of_Z (n : Z) : string := NilZero.string_of_int (Z.to_int n).
Definition str_of_nat (n : nat) : string := str_of_Z (Z.of_nat n).

Fixpoint digits_value (acc : Z) (cs : list ascii) : Z :=
  match cs with
  | [] => acc
  | c :: cs' => digits_value (10 * acc + (ord c - 48)) cs'
  end.

Fixpoint str_join (sep : string) (l : list string) : string :=
  match l with
  | [] => ""
  | [x] => x
  | x :: l' => x +++ sep +++ str_join sep l'
  end.

Fixpoint str_repeat (n : nat) (s : string) : string :=
  match n with
  | O => ""
  | S n' => s +++ str_repeat n' s
  end.

(* ================================================================== *)
(** ** tokens.py *)
(* ================================================================== *)

Inductive TokenType :=
| INTEGER | FLOAT | STRING | TRUE | FALSE | NULL
| IDENTIFIER | LET | CONST | FN | RETURN | IF | ELSE | WHILE | FOR | IN
| BREAK | CONTINUE
| PLUS | MINUS | ASTERISK | SLASH | PERCENT | POWER
| EQ | NOT_EQ | LT | GT | LT_EQ | GT_EQ
| AND | OR | NOT
| ASSIGN | PLUS_ASSIGN | MINUS_ASSIGN
| LPAREN | RPAREN | LBRACE | RBRACE | LBRACKET | RBRACKET
| COMMA | COLON | SEMICOLON | DOT | ARROW
| NEWLINE | EOF | ILLEGAL.

Global Instance TokenType_eq_dec : EqDecision TokenType.
Proof. solve_decision. Defined.

Definition TokenType_eqb (a b : TokenType) : bool := bool_decide (a = b).

(** [TokenType.name], used in parser messages. *)
Definition TokenType_name (t : TokenType) : string :=
  match t with
  | INTEGER => "INTEGER" | FLOAT => "FLOAT" | STRING => "STRING"
  | TRUE => "TRUE" | FALSE => "FALSE" | NULL => "NULL"
  | IDENTIFIER => "IDENTIFIER" | LET => "LET" | CONST => "CONST"
  | FN => "FN" | RETURN => "RETURN" | IF => "IF" | ELSE => "ELSE"
  | WHILE => "WHILE" | FOR => "FOR" | IN => "IN"
  | BREAK => "BREAK" | CONTINUE => "CONTINUE"
  | PLUS => "PLUS" | MINUS => "MINUS" | ASTERISK => "ASTERISK"
  | SLASH => "SLASH" | PERCENT => "PERCENT" | POWER => "POWER"
  | EQ => "EQ" | NOT_EQ => "NOT_EQ" | LT => "LT" | GT => "GT"
  | LT_EQ => "LT_EQ" | GT_EQ => "GT_EQ"
  | AND => "AND" | OR => "OR" | NOT => "NOT"
  | ASSIGN => "ASSIGN" | PLUS_ASSIGN => "PLUS_ASSIGN"
  | MINUS_ASSIGN => "MINUS_ASSIGN"
  | LPAREN => "LPAREN" | RPAREN => "RPAREN" | LBRACE => "LBRACE"
  | RBRACE => "RBRACE" | LBRACKET => "LBRACKET" | RBRACKET => "RBRACKET"
  | COMMA => "COMMA" | COLON => "COLON" | SEMICOLON => "SEMICOLON"
  | DOT => "DOT" | ARROW => "ARROW"
  | NEWLINE => "NEWLINE" | EOF => "EOF" | ILLEGAL => "ILLEGAL"
  end.

(** The [value] field of a token ([Any] in the source): absent, an int, a
    float, a bool or the decoded text of a string literal. *)
Inductive token_value :=
| TokNone
| TokInt (n : Z)
| TokFloat (f : float)
| TokBool (b : bool)
| TokStr (s : string).

Record Token := mkToken {
  type : TokenType;
  literal : string;
  value : token_value;
  line : Z;
  column : Z
}.

Definition KEYWORDS : list (string * TokenType) :=
  [ ("let", LET); ("const", CONST); ("fn", FN); ("return", RETURN);
    ("if", IF); ("else", ELSE); ("while", WHILE); ("for", FOR); ("in", IN);
    ("break", BREAK); ("continue", CONTINUE); ("true", TRUE);
    ("false", FALSE); ("null", NULL); ("and", AND); ("or", OR);
    ("not", NOT) ].

Fixpoint assoc_get {A : Type} (k : string) (l : list (string * A)) : option A :=
  match l with
  | [] => None
  | (k', v) :: l' => if String.eqb k k' then Some v else assoc_get k l'
  end.

Definition lookup_identifier (ident : string) : TokenType :=
  match assoc_get ident KEYWORDS with
  | Some t => t
  | None => IDENTIFIER
  end.

(* ================================================================== *)
(** ** ast_nodes.py *)
(* ================================================================== *)

Local Unset Elimination Schemes.

Inductive Expression :=
| IntegerLiteral (value : Z)
| FloatLiteral (value : float)
| StringLiteral (value : string)
| BooleanLiteral (value : bool)
| NullLiteral
| ArrayLiteral (elements : list Expression)
| DictLiteral (pairs : list (Expression * Expression))
| Identifier (name : string)
| IndexExpression (object index : Expression)
| BinaryOp (operator : string) (left right : Expression)
| UnaryOp (operator : string) (operand : Expression)
| FunctionLiteral (parameters : list string) (body : Block)
                  (name : option string)
| CallExpression (function : Expression) (arguments : list Expression)
| IfExpression (condition : Expression) (consequence : Block)
               (alternative : option Block)
with Statement :=
| LetStatement (name : string) (value : Expression)
| ConstStatement (name : string) (value : Expression)
| AssignStatement (name : string) (operator : string) (value : Expression)
| IndexAssignStatement (object index value : Expression)
| ExpressionStatement (expression : Expression)
| ReturnStatement (value : option Expression)
| WhileStatement (condition : Expression) (body : Block)
| ForStatement (variable : string) (iterable : Expression) (body : Block)
| BreakStatement
| ContinueStatement
| FunctionStatement (name : string) (parameters : list string) (body : Block)
with Block :=
| BlockStatement (statements : list Statement).

Local Set Elimination Schemes.

Inductive Program :=
| mkProgram (statements : list Statement).

(** Any node the evaluator may be handed ([ast.Node]). *)
Inductive Node :=
| NProgram (p : Program)
| NBlock (b : Block)
| NStatement (s : Statement)
| NExpression (e : Expression).

Definition Block_statements (b : Block) : list Statement :=
  match b with BlockStatement l => l end.

(* ================================================================== *)
(** ** Runtime values, exceptions and the interpreter state *)
(* ================================================================== *)

(** Runtime values are the host's own objects.  [VList] and [VDict] hold
    the index of a mutable object in the heap; [VFunction] is the
    [Function] dataclass of evaluator.py, whose [env] field is the index
    of the captured [Environment]; [VBuiltin] is a [BuiltinFunction] of
    the registry, identified by its name.  [VComplex] is there because
    Python's [**] on a negative base and a fractional exponent yields a
    complex number. *)
Inductive Value :=
| VNone
| VBool (b : bool)
| VInt (n : Z)
| VFloat (f : float)
| VComplex (re im : float)
| VStr (s : string)
| VList (l : nat)
| VDict (l : nat)
| VBuiltin (name : string)
| VFunction (parameters : list string) (body : Block) (env : nat)
            (name : option string).

Inductive Object :=
| ListObj (items : list Value)
| DictObj (entries : list (Value * Value)).

(** Classes of the host exceptions that can reach the driver. *)
Inductive host_class :=
| TypeError | ValueError | RuntimeError | ZeroDivisionError | OverflowError
| IndexError | AttributeError | EOFError | KeyError | NotImplementedError.

(** Python exceptions.  [KiraRuntimeError] is the class of builtins.py;
    [ReturnValue], [BreakSignal] and [ContinueSignal] are the three
    control-flow exceptions of evaluator.py; [PyExc] is an exception of
    one of the host's own classes (note that environment.py raises the
    host's [RuntimeError], not [KiraRuntimeError]). *)
Inductive exn :=
| LexerError (message : string) (line column : Z)
| ParserError (message : string) (token : Token)
| KiraRuntimeError (message : string)
| ReturnValue (v : Value)
| BreakSignal
| ContinueSignal
| PyExc (cls : host_class) (message : string).

Inductive Outcome (A : Type) :=
| Normal (a : A)
| Raise (e : exn)
| OutOfFuel.
Arguments Normal {A} a.
Arguments Raise {A} e.
Arguments OutOfFuel {A}.

(** environment.py: one [Environment] instance. *)
Record Environment := mkEnvironment {
  store : gmap string Value;
  constants : gset string;
  parent : option nat
}.

(** Standard streams, as far as the built-ins use them. *)
Record World := mkWorld {
  stdout : list string;
  stdin : list string
}.

Record State := mkState {
  envs : list Environment;
  heap : list Object;
  world : World
}.

Definition set_envs (σ : State) (es : list Environment) : State :=
  mkState es (heap σ) (world σ).
Definition set_heap (σ : State) (h : list Object) : State :=
  mkState (envs σ) h (world σ).

(* ------------------------------------------------------------------ *)
(** *** The host interface *)

(** Python numbers as operands of the arithmetic operators ([bool] is a
    subclass of [int] and enters as [NInt]). *)
Inductive Num :=
| NInt (n : Z)
| NFloat (f : float)
| NComplex (re im : float).

Definition host_result (A : Type) : Type := (host_class * string) + A.

(** What the Python runtime decides.  The interpreter's sources call
    these operations but do not define them.
    - [float_of_literal s] is [float(s)] for a literal [s] of decimal
      digits with one dot.
    - [num_binop op a b] is [a op b] for numbers, asked only when the
      result is not given by exact integer arithmetic (an operand is a
      float or a complex, or the operator is [/], or [**] with a negative
      exponent); it may raise ([OverflowError], [ZeroDivisionError],
      [TypeError] for [%] on complex).
    - [num_eqb], [num_ltb], [num_leb]: [==], [<], [<=] on real numbers
      at least one of which is a float ([num_eqb] also on complex).
    - [num_neg], [num_str]: unary minus and [str()] on floats and
      complex numbers.
    - [str_percent s v h] is [s % v], printf-style formatting.
    - [py_str h v] is the host's [str(v)] (not Kira's [kira_str]), which
      the driver applies to the payload of an escaped exception.
    - [call_builtin name args h w] runs the body of the built-in [name]
      of builtins.py; bodies only reach the objects of the heap and the
      standard streams, never an [Environment]. *)
Class PyHost := {
  float_of_literal : string → float;
  num_binop : string → Num → Num → host_result Num;
  num_eqb : Num → Num → bool;
  num_ltb : Num → Num → bool;
  num_leb : Num → Num → bool;
  num_neg : Num → Num;
  num_str : Num → string;
  str_percent : string → Value → list Object → host_result string;
  py_str : list Object → Value → string;
  call_builtin : string → list Value → list Object → World →
                 Outcome Value * list Object * World
}.

(* ------------------------------------------------------------------ *)
(** *** The state-and-exception monad of the evaluator *)

Definition M (A : Type) : Type := State → Outcome A * State.

Definition M_ret {A} (a : A) : M A := λ σ, (Normal a, σ).
Definition M_bind {A B} (m : M A) (k : A → M B) : M B :=
  λ σ, match m σ with
       | (Normal a, σ') => k a σ'
       | (Raise e, σ') => (Raise e, σ')
       | (OutOfFuel, σ') => (OutOfFuel, σ')
       end.
Definition raise {A} (e : exn) : M A := λ σ, (Raise e, σ).
Definition out_of_fuel {A} : M A := λ σ, (OutOfFuel, σ).
Definition get_state : M State := λ σ, (Normal σ, σ).
Definition put_state (σ' : State) : M unit := λ _, (Normal tt, σ').

(** [try: m except ...: h e]: the handler sees every raised exception and
    re-raises the ones its clauses do not name. *)
Definition try_except {A} (m : M A) (h : exn → M A) : M A :=
  λ σ, match m σ with
       | (Raise e, σ') => h e σ'
       | r => r
       end.

Global Instance M_mret : MRet M := @M_ret.
Global Instance M_mbind : MBind M := λ A B k m, M_bind m k.

(** [do x ← m; k] binds with the computation first, so that the type of
    [x] is known when [k] is read; [m;; k] and [mret] are stdpp's. *)
Class Bind (T : Type → Type) := bind : ∀ {A B}, T A → (A → T B) → T B.
Global Instance M_Bind : Bind M := @M_bind.
Notation "'do' x ← m ; k" := (bind m (λ x, k))
  (at level 10, x name, m at level 100, k at level 200,
   format "'[v' 'do'  x  ←  m ; '/' k ']'").
Notation "'do' ' pat ← m ; k" := (bind m (λ x, match x with pat => k end))
  (at level 10, pat pattern, m at level 100, k at level 200,
   format "'[v' 'do'  ' pat  ←  m ; '/' k ']'").

Definition lift_host {A} (r : host_result A) : M A :=
  match r with
  | inl (c, msg) => raise (PyExc c msg)
  | inr a => M_ret a
  end.

Definition lift_outcome {A} (r : Outcome A) : M A := λ σ, (r, σ).

(* ================================================================== *)
(** ** lexer.py *)
(* ================================================================== *)

(** The scanning state: [remaining] is [source[pos:]] (the cursor [pos]
    itself is never observed otherwise), with the 1-based position. *)
Record Lexer := mkLexer {
  remaining : list ascii;
  cur_line : Z;
  cur_column : Z
}.

Definition new_Lexer (source : string) : Lexer :=
  mkLexer (chars_of_str source) 1 1.

Definition current_char (lx : Lexer) : option ascii :=
  match remaining lx with
  | [] => None
  | c :: _ => Some c
  end.

Definition peek (lx : Lexer) : option ascii :=
  match remaining lx with
  | _ :: c :: _ => Some c
  | _ => None
  end.

(** [advance]: the cursor moves even at the end of the input, where only
    the column changes. *)
Definition advance (lx : Lexer) : Lexer :=
  match remaining lx with
  | [] => mkLexer [] (cur_line lx) (cur_column lx + 1)
  | c :: r =>
      if ascii_eqb c chr_newline
      then mkLexer r (cur_line lx + 1) 1
      else mkLexer r (cur_line lx) (cur_column lx + 1)
  end.

Definition char_is (c : ascii) (o : option ascii) : bool :=
  match o with
  | Some c' => ascii_eqb c c'
  | None => false
  end.

Definition char_sat (p : ascii → bool) (o : option ascii) : bool :=
  match o with
  | Some c => p c
  | None => false
  end.

Definition is_blank (c : ascii) : bool :=
  ascii_eqb c chr_space || ascii_eqb c chr_tab || ascii_eqb c chr_cr.

(** The [while] loops of the scanner run on a counter that starts at the
    number of characters left: every iteration consumes one, so the
    counter reaches zero no sooner than the loop's own test fails. *)
Fixpoint skip_whitespace_loop (n : nat) (lx : Lexer) : Lexer :=
  match n with
  | O => lx
  | S n' =>
      if char_sat is_blank (current_char lx)
      then skip_whitespace_loop n' (advance lx)
      else lx
  end.

Definition skip_whitespace (lx : Lexer) : Lexer :=
  skip_whitespace_loop (length (remaining lx)) lx.

Fixpoint skip_comment_loop (n : nat) (lx : Lexer) : Lexer :=
  match n with
  | O => lx
  | S n' =>
      match current_char lx with
      | Some c =>
          if ascii_eqb c chr_newline then lx
          else skip_comment_loop n' (advance lx)
      | None => lx
      end
  end.

Definition skip_comment (lx : Lexer) : Lexer :=
  skip_comment_loop (length (remaining lx)) lx.

Definition strlen (s : string) : Z := Z.of_nat (String.length s).

Definition make_token (lx : Lexer) (ty : TokenType) (lit : string) : Token :=
  mkToken ty lit TokNone (cur_line lx) (cur_column lx - strlen lit).

Definition unterminated (start_line start_col : Z) : exn :=
  LexerError "Unterminated string literal" start_line start_col.

Fixpoint read_string_loop (n : nat) (quote_char : ascii)
    (result : list ascii) (start_line start_col : Z) (lx : Lexer)
    : exn + (list ascii * Lexer) :=
  match n with
  | O => inr (result, lx)
  | S n' =>
      match current_char lx with
      | None => inr (result, lx)
      | Some c =>
          if ascii_eqb c quote_char then inr (result, lx)
          else if ascii_eqb c chr_backslash then
            let lx1 := advance lx in
            let escape_char := current_char lx1 in
            let result' :=
              if char_is "n"%char escape_char then result ++ [chr_newline]
              else if char_is "t"%char escape_char then result ++ [chr_tab]
              else if char_is "r"%char escape_char then result ++ [chr_cr]
              else if char_is chr_backslash escape_char
                   then result ++ [chr_backslash]
              else if char_is quote_char escape_char
                   then result ++ [quote_char]
              else result ++ [chr_backslash]
                     ++ match escape_char with
                        | Some e => [e]
                        | None => []
                        end in
            read_string_loop n' quote_char result' start_line start_col
                             (advance lx1)
          else if ascii_eqb c chr_newline then
            inl (unterminated start_line start_col)
          else
            read_string_loop n' quote_char (result ++ [c])
                             start_line start_col (advance lx)
      end
  end.

Definition read_string (quote_char : ascii) (lx : Lexer)
    : exn + (Token * Lexer) :=
  let start_line := cur_line lx in
  let start_col := cur_column lx in
  let lx1 := advance lx in
  match read_string_loop (length (remaining lx1)) quote_char []
                         start_line start_col lx1 with
  | inl e => inl e
  | inr (result, lx2) =>
      if char_is quote_char (current_char lx2) then
        let v := str_of_chars result in
        inr (mkToken STRING v (TokStr v) start_line start_col, advance lx2)
      else inl (unterminated start_line start_col)
  end.

Fixpoint read_number_loop (n : nat) (result : list ascii) (has_dot : bool)
    (lx : Lexer) : list ascii * bool * Lexer :=
  match n with
  | O => (result, has_dot, lx)
  | S n' =>
      match current_char lx with
      | None => (result, has_dot, lx)
      | Some c =>
          if isdigit c then
            read_number_loop n' (result ++ [c]) has_dot (advance lx)
          else if ascii_eqb c "."%char then
            if has_dot then (result, has_dot, lx)
            else if negb (char_sat isdigit (peek lx))
                 then (result, has_dot, lx)
            else read_number_loop n' (result ++ [c]) true (advance lx)
          else (result, has_dot, lx)
      end
  end.

Definition quoted (s : string) : string := "'" +++ s +++ "'".

Definition hex_digit (n : Z) : ascii :=
  if n <? 10 then ascii_of_nat (Z.to_nat (48 + n))
  else ascii_of_nat (Z.to_nat (87 + n)).

(** [repr(c)] of a one-character string: printable characters stand for
    themselves, the backslash is doubled and the others are escaped. *)
Definition repr_char (c : ascii) : string :=
  let n := ord c in
  if ascii_eqb c chr_backslash then quoted "\\"
  else if ascii_eqb c chr_tab then quoted "\t"
  else if ascii_eqb c chr_newline then quoted "\n"
  else if ascii_eqb c chr_cr then quoted "\r"
  else if (n <? 32) || in_range 127 160 n || (n =? 173) then
    quoted ("\x" +++ str1 (hex_digit (n / 16))
            +++ str1 (hex_digit (n mod 16)))
  else quoted (str1 c).

(** [sys.get_int_max_str_digits()], at CPython's default. *)
Definition int_max_str_digits : nat := 4300.

Section Lexing.
Context `{PyHost}.

(** [int(literal)] on the text of a numeric literal: every character must
    be a decimal digit, and there may be no more of them than the host's
    limit on the conversion. *)
Definition py_int_of_literal (lit : string) : exn + Z :=
  let cs := chars_of_str lit in
  if negb (forallb isdecimal cs) || (length cs =? 0)%nat then
    inl (PyExc ValueError
           ("invalid literal for int() with base 10: " +++ quoted lit))
  else if (int_max_str_digits <? length cs)%nat then
    inl (PyExc ValueError
           ("Exceeds the limit (" +++ str_of_nat int_max_str_digits
            +++ " digits) for integer string conversion: value has "
            +++ str_of_nat (length cs)
            +++ " digits; use sys.set_int_max_str_digits() "
            +++ "to increase the limit"))
  else inr (digits_value 0 cs).

(** [float(literal)] on the text of a numeric literal with a dot. *)
Definition py_float_of_literal (lit : string) : exn + float :=
  if forallb (λ c, isdecimal c || ascii_eqb c "."%char) (chars_of_str lit)
  then inr (float_of_literal lit)
  else inl (PyExc ValueError
              ("could not convert string to float: " +++ quoted lit)).

Definition read_number (lx : Lexer) : exn + (Token * Lexer) :=
  let start_col := cur_column lx in
  let '(result, has_dot, lx1) :=
    read_number_loop (length (remaining lx)) [] false lx in
  let lit := str_of_chars result in
  if has_dot then
    match py_float_of_literal lit with
    | inl e => inl e
    | inr f => inr (mkToken FLOAT lit (TokFloat f) (cur_line lx1) start_col,
                    lx1)
    end
  else
    match py_int_of_literal lit with
    | inl e => inl e
    | inr n => inr (mkToken INTEGER lit (TokInt n) (cur_line lx1) start_col,
                    lx1)
    end.

Fixpoint read_identifier_loop (n : nat) (result : list ascii) (lx : Lexer)
    : list ascii * Lexer :=
  match n with
  | O => (result, lx)
  | S n' =>
      match current_char lx with
      | Some c =>
          if isalnum c || ascii_eqb c "_"%char
          then read_identifier_loop n' (result ++ [c]) (advance lx)
          else (result, lx)
      | None => (result, lx)
      end
  end.

Definition read_identifier (lx : Lexer) : Token * Lexer :=
  let start_col := cur_column lx in
  let '(result, lx1) :=
    read_identifier_loop (length (remaining lx)) [] lx in
  let lit := str_of_chars result in
  let token_type := lookup_identifier lit in
  let v := match token_type with
           | TRUE => TokBool true
           | FALSE => TokBool false
           | _ => TokNone
           end in
  (mkToken token_type lit v (cur_line lx1) start_col, lx1).

Definition single_char_tokens (c : ascii) : option TokenType :=
  if ascii_eqb c "+" then Some PLUS
  else if ascii_eqb c "-" then Some MINUS
  else if ascii_eqb c "*" then Some ASTERISK
  else if ascii_eqb c "/" then Some SLASH
  else if ascii_eqb c "%" then Some PERCENT
  else if ascii_eqb c "=" then Some ASSIGN
  else if ascii_eqb c "<" then Some LT
  else if ascii_eqb c ">" then Some GT
  else if ascii_eqb c "(" then Some LPAREN
  else if ascii_eqb c ")" then Some RPAREN
  else if ascii_eqb c "{" then Some LBRACE
  else if ascii_eqb c "}" then Some RBRACE
  else if ascii_eqb c "[" then Some LBRACKET
  else if ascii_eqb c "]" then Some RBRACKET
  else if ascii_eqb c "," then Some COMMA
  else if ascii_eqb c ":" then Some COLON
  else if ascii_eqb c ";" then Some SEMICOLON
  else if ascii_eqb c "." then Some DOT
  else None.

Definition two_char (lx : Lexer) (ty : TokenType) (lit : string)
    : Outcome (Token * Lexer) :=
  let lx2 := advance (advance lx) in
  Normal (make_token lx2 ty lit, lx2).

Definition of_sum {A} (r : exn + A) : Outcome A :=
  match r with
  | inl e => Raise e
  | inr a => Normal a
  end.

Definition unexpected_character (c : ascii) : string :=
  "Unexpected character: " +++ repr_char c.

(** [next_token] calls itself after a comment; the counter bounds that
    recursion (after [skip_comment] the next character is a newline or
    the end of input, so one nested call is all there is). *)
Fixpoint next_token_fuel (n : nat) (lx0 : Lexer) : Outcome (Token * Lexer) :=
  match n with
  | O => OutOfFuel
  | S n' =>
      let lx := skip_whitespace lx0 in
      match current_char lx with
      | None => Normal (make_token lx EOF "", lx)
      | Some char =>
          if ascii_eqb char "#" then next_token_fuel n' (skip_comment lx)
          else if ascii_eqb char chr_newline then
            let lx1 := advance lx in
            Normal (make_token lx1 NEWLINE "\n", lx1)
          else if ascii_eqb char chr_dquote || ascii_eqb char chr_squote
          then of_sum (read_string char lx)
          else if isdigit char then of_sum (read_number lx)
          else if isalpha char || ascii_eqb char "_"
          then Normal (read_identifier lx)
          else if ascii_eqb char "=" && char_is "=" (peek lx)
          then two_char lx EQ "=="
          else if ascii_eqb char "!" && char_is "=" (peek lx)
          then two_char lx NOT_EQ "!="
          else if ascii_eqb char "<" && char_is "=" (peek lx)
          then two_char lx LT_EQ "<="
          else if ascii_eqb char ">" && char_is "=" (peek lx)
          then two_char lx GT_EQ ">="
          else if ascii_eqb char "*" && char_is "*" (peek lx)
          then two_char lx POWER "**"
          else if ascii_eqb char "+" && char_is "=" (peek lx)
          then two_char lx PLUS_ASSIGN "+="
          else if ascii_eqb char "-" && char_is "=" (peek lx)
          then two_char lx MINUS_ASSIGN "-="
          else if ascii_eqb char "-" && char_is ">" (peek lx)
          then two_char lx ARROW "->"
          else
            match single_char_tokens char with
            | Some ty =>
                let lx1 := advance lx in
                Normal (make_token lx1 ty (str1 char), lx1)
            | None =>
                let lx1 := advance lx in
                Raise (LexerError (unexpected_character char)
                                  (cur_line lx1) (cur_column lx1 - 1))
            end
      end
  end.

Definition next_token (lx : Lexer) : Outcome (Token * Lexer) :=
  next_token_fuel 2 lx.

(** The [while True] loop of [tokenize]; every token but EOF consumes at
    least one character, so [S (length source)] rounds are enough. *)
Fixpoint tokenize_loop (n : nat) (tokens : list Token) (lx : Lexer)
    : Outcome (list Token) :=
  match n with
  | O => OutOfFuel
  | S n' =>
      match next_token lx with
      | Normal (token, lx') =>
          let tokens' :=
            if negb (TokenType_eqb (type token) NEWLINE)
            then tokens ++ [token] else tokens in
          if TokenType_eqb (type token) EOF then Normal tokens'
          else tokenize_loop n' tokens' lx'
      | Raise e => Raise e
      | OutOfFuel => OutOfFuel
      end
  end.

Definition tokenize (source : string) : Outcome (list Token) :=
  tokenize_loop (S (String.length source)) [] (new_Lexer source).

End Lexing.

(* ================================================================== *)
(** ** parser.py *)
(* ================================================================== *)

Module Precedence.
Definition LOWEST : Z := 0.
Definition OR : Z := 1.
Definition AND : Z := 2.
Definition NOT : Z := 3.
Definition EQUALS : Z := 4.
Definition COMPARE : Z := 5.
Definition SUM : Z := 6.
Definition PRODUCT : Z := 7.
Definition POWER : Z := 8.
Definition PREFIX : Z := 9.
Definition CALL : Z := 10.
Definition INDEX : Z := 11.
End Precedence.

Definition PRECEDENCES (t : TokenType) : option Z :=
  match t with
  | OR => Some Precedence.OR
  | AND => Some Precedence.AND
  | EQ | NOT_EQ => Some Precedence.EQUALS
  | LT | GT | LT_EQ | GT_EQ => Some Precedence.COMPARE
  | PLUS | MINUS => Some Precedence.SUM
  | ASTERISK | SLASH | PERCENT => Some Precedence.PRODUCT
  | POWER => Some Precedence.POWER
  | LPAREN => Some Precedence.CALL
  | LBRACKET => Some Precedence.INDEX
  | _ => None
  end.

Definition precedence_of (t : TokenType) : Z :=
  match PRECEDENCES t with
  | Some p => p
  | None => Precedence.LOWEST
  end.

(** The parser's state is the cursor [pos] into the fixed token list; a
    parsing function maps the cursor to an outcome and the new cursor. *)
Definition P (A : Type) : Type := nat → Outcome (A * nat).

Definition P_bind {A B} (m : P A) (k : A → P B) : P B := λ pos,
  match m pos with
  | Normal (a, pos') => k a pos'
  | Raise e => Raise e
  | OutOfFuel => OutOfFuel
  end.

Global Instance P_mret : MRet P := λ A a pos, Normal (a, pos).
Global Instance P_mbind : MBind P := λ A B k m, P_bind m k.
Global Instance P_Bind : Bind P := @P_bind.

Definition type_in (t : TokenType) (ts : list TokenType) : bool :=
  existsb (TokenType_eqb t) ts.

Definition P_raise {A} (e : exn) : P A := λ _, Raise e.
Definition P_out_of_fuel {A} : P A := λ _, OutOfFuel.

(** Which prefix and infix parsing functions the constructor registers. *)
Inductive prefix_fn :=
| parse_identifier_fn | parse_integer_fn | parse_float_fn | parse_string_fn
| parse_boolean_fn | parse_null_fn | parse_prefix_expression_fn
| parse_grouped_expression_fn | parse_array_literal_fn
| parse_dict_or_block_fn | parse_if_expression_fn
| parse_function_literal_fn.

Inductive infix_fn :=
| parse_infix_expression_fn | parse_call_expression_fn
| parse_index_expression_fn.

Definition prefix_parse_fns (t : TokenType) : option prefix_fn :=
  match t with
  | IDENTIFIER => Some parse_identifier_fn
  | INTEGER => Some parse_integer_fn
  | FLOAT => Some parse_float_fn
  | STRING => Some parse_string_fn
  | TRUE | FALSE => Some parse_boolean_fn
  | NULL => Some parse_null_fn
  | MINUS | NOT => Some parse_prefix_expression_fn
  | LPAREN => Some parse_grouped_expression_fn
  | LBRACKET => Some parse_array_literal_fn
  | LBRACE => Some parse_dict_or_block_fn
  | IF => Some parse_if_expression_fn
  | FN => Some parse_function_literal_fn
  | _ => None
  end.

Definition infix_parse_fns (t : TokenType) : option infix_fn :=
  match t with
  | PLUS | MINUS | ASTERISK | SLASH | PERCENT | POWER
  | EQ | NOT_EQ | LT | GT | LT_EQ | GT_EQ | AND | OR =>
      Some parse_infix_expression_fn
  | LPAREN => Some parse_call_expression_fn
  | LBRACKET => Some parse_index_expression_fn
  | _ => None
  end.

Section Parsing.
Variable tokens : list Token.

(** [self.tokens[-1]]: an [IndexError] on an empty list. *)
Definition last_token : P Token := λ pos,
  match last tokens with
  | Some t => Normal (t, pos)
  | None => Raise (PyExc IndexError "list index out of range")
  end.

Definition current_token : P Token := λ pos,
  match tokens !! pos with
  | Some t => Normal (t, pos)
  | None => last_token pos
  end.

Definition peek_token : P Token := λ pos,
  match tokens !! (pos + 1)%nat with
  | Some t => Normal (t, pos)
  | None => last_token pos
  end.

Definition move_cursor : P unit := λ pos, Normal (tt, S pos).

Definition Parser_advance : P Token :=
  do token ← current_token;
  move_cursor;;
  mret token.

Definition expect (token_type : TokenType) : P Token :=
  do cur ← current_token;
  if negb (TokenType_eqb (type cur) token_type) then
    P_raise (ParserError ("Expected " +++ TokenType_name token_type
                          +++ ", got " +++ TokenType_name (type cur)) cur)
  else Parser_advance.

Definition current_type : P TokenType :=
  do cur ← current_token; mret (type cur).

Definition current_precedence : P Z :=
  do t ← current_type; mret (precedence_of t).

Definition current_is (t : TokenType) : P bool :=
  do ty ← current_type; mret (TokenType_eqb ty t).

(** The value carried by a literal token.  The lexer builds INTEGER,
    FLOAT and STRING tokens with a value of the matching kind only. *)
Definition token_int (t : Token) : Z :=
  match value t with TokInt n => n | _ => 0 end.
Definition token_float (t : Token) : float :=
  match value t with TokFloat f => f | _ => 0%float end.
Definition token_str (t : Token) : string :=
  match value t with TokStr s => s | _ => "" end.

Definition parse_identifier : P Expression :=
  do token ← Parser_advance; mret (Identifier (literal token)).
Definition parse_integer : P Expression :=
  do token ← Parser_advance; mret (IntegerLiteral (token_int token)).
Definition parse_float : P Expression :=
  do token ← Parser_advance; mret (FloatLiteral (token_float token)).
Definition parse_string : P Expression :=
  do token ← Parser_advance; mret (StringLiteral (token_str token)).
Definition parse_boolean : P Expression :=
  do token ← Parser_advance;
  mret (BooleanLiteral (TokenType_eqb (type token) TRUE)).
Definition parse_null : P Expression :=
  Parser_advance;; mret NullLiteral.

Fixpoint parse_parameters_loop (n : nat) (params : list string)
    : P (list string) :=
  match n with
  | O => P_out_of_fuel
  | S n' =>
      do is_comma ← current_is COMMA;
      if is_comma then
        Parser_advance;;
        do t ← expect IDENTIFIER;
        parse_parameters_loop n' (params ++ [literal t])
      else mret params
  end.

Definition parse_function_parameters (n : nat) : P (list string) :=
  expect LPAREN;;
  do is_rparen ← current_is RPAREN;
  do params ← (if negb is_rparen then
              do t ← expect IDENTIFIER;
              parse_parameters_loop n [literal t]
            else mret []);
  expect RPAREN;;
  mret params.

Fixpoint skip_semicolons (n : nat) : P unit :=
  match n with
  | O => P_out_of_fuel
  | S n' =>
      do is_semi ← current_is SEMICOLON;
      if is_semi then Parser_advance;; skip_semicolons n' else mret tt
  end.

(** The recursive descent.  All functions share one budget [n], spent on
    every call and on every round of a loop. *)
Fixpoint parse_expression (n : nat) (precedence : Z) : P Expression :=
  match n with
  | O => P_out_of_fuel
  | S n' =>
      do cur ← current_token;
      match prefix_parse_fns (type cur) with
      | None =>
          P_raise (ParserError ("No prefix parser for "
                                +++ TokenType_name (type cur)) cur)
      | Some f =>
          do left ← parse_prefix n' f;
          parse_infix_loop n' precedence left
      end
  end

with parse_infix_loop (n : nat) (precedence : Z) (left : Expression)
    : P Expression :=
  match n with
  | O => P_out_of_fuel
  | S n' =>
      do cp ← current_precedence;
      if precedence <? cp then
        do ty ← current_type;
        match infix_parse_fns ty with
        | None => mret left
        | Some f =>
            do left' ← parse_infix n' f left;
            parse_infix_loop n' precedence left'
        end
      else mret left
  end

with parse_prefix (n : nat) (f : prefix_fn) : P Expression :=
  match n with
  | O => P_out_of_fuel
  | S n' =>
      match f with
      | parse_identifier_fn => parse_identifier
      | parse_integer_fn => parse_integer
      | parse_float_fn => parse_float
      | parse_string_fn => parse_string
      | parse_boolean_fn => parse_boolean
      | parse_null_fn => parse_null
      | parse_prefix_expression_fn =>
          do token ← Parser_advance;
          do operand ← parse_expression n' Precedence.PREFIX;
          mret (UnaryOp (literal token) operand)
      | parse_grouped_expression_fn =>
          Parser_advance;;
          do expr ← parse_expression n' Precedence.LOWEST;
          expect RPAREN;;
          mret expr
      | parse_array_literal_fn =>
          Parser_advance;;
          do elements ← parse_expression_list n' RBRACKET;
          mret (ArrayLiteral elements)
      | parse_dict_or_block_fn =>
          Parser_advance;;
          do is_rbrace ← current_is RBRACE;
          if is_rbrace then Parser_advance;; mret (DictLiteral [])
          else
            do first_expr ← parse_expression n' Precedence.LOWEST;
            do is_colon ← current_is COLON;
            if is_colon then
              Parser_advance;;
              do first_value ← parse_expression n' Precedence.LOWEST;
              do pairs ← parse_dict_pairs_loop n' [(first_expr, first_value)];
              expect RBRACE;;
              mret (DictLiteral pairs)
            else
              do cur ← current_token;
              P_raise (ParserError "Expected ':' in dictionary literal" cur)
      | parse_if_expression_fn =>
          Parser_advance;;
          do condition ← parse_expression n' Precedence.LOWEST;
          do consequence ← parse_block_statement n';
          do is_else ← current_is ELSE;
          do alternative ← (if is_else then
                           Parser_advance;;
                           do b ← parse_block_statement n'; mret (Some b)
                         else mret None);
          mret (IfExpression condition consequence alternative)
      | parse_function_literal_fn =>
          Parser_advance;;
          do params ← parse_function_parameters n';
          do body ← parse_block_statement n';
          mret (FunctionLiteral params body None)
      end
  end

with parse_infix (n : nat) (f : infix_fn) (left : Expression)
    : P Expression :=
  match n with
  | O => P_out_of_fuel
  | S n' =>
      match f with
      | parse_infix_expression_fn =>
          do token ← Parser_advance;
          let precedence := precedence_of (type token) in
          let precedence :=
            if TokenType_eqb (type token) POWER
            then precedence - 1 else precedence in
          do right ← parse_expression n' precedence;
          mret (BinaryOp (literal token) left right)
      | parse_call_expression_fn =>
          Parser_advance;;
          do args ← parse_expression_list n' RPAREN;
          mret (CallExpression left args)
      | parse_index_expression_fn =>
          Parser_advance;;
          do index ← parse_expression n' Precedence.LOWEST;
          expect RBRACKET;;
          mret (IndexExpression left index)
      end
  end

with parse_expression_list (n : nat) (end_ : TokenType)
    : P (list Expression) :=
  match n with
  | O => P_out_of_fuel
  | S n' =>
      do at_end ← current_is end_;
      do elements ← (if negb at_end then
                    do e ← parse_expression n' Precedence.LOWEST;
                    parse_expression_list_loop n' end_ [e]
                  else mret []);
      expect end_;;
      mret elements
  end

with parse_expression_list_loop (n : nat) (end_ : TokenType)
    (elements : list Expression) : P (list Expression) :=
  match n with
  | O => P_out_of_fuel
  | S n' =>
      do is_comma ← current_is COMMA;
      if is_comma then
        Parser_advance;;
        do at_end ← current_is end_;
        if at_end then mret elements
        else
          do e ← parse_expression n' Precedence.LOWEST;
          parse_expression_list_loop n' end_ (elements ++ [e])
      else mret elements
  end

with parse_dict_pairs_loop (n : nat)
    (pairs : list (Expression * Expression))
    : P (list (Expression * Expression)) :=
  match n with
  | O => P_out_of_fuel
  | S n' =>
      do is_comma ← current_is COMMA;
      if is_comma then
        Parser_advance;;
        do is_rbrace ← current_is RBRACE;
        if is_rbrace then mret pairs
        else
          do key ← parse_expression n' Precedence.LOWEST;
          expect COLON;;
          do v ← parse_expression n' Precedence.LOWEST;
          parse_dict_pairs_loop n' (pairs ++ [(key, v)])
      else mret pairs
  end

with parse_statement (n : nat) : P (option Statement) :=
  match n with
  | O => P_out_of_fuel
  | S n' =>
      skip_semicolons n';;
      do tt_ ← current_type;
      if TokenType_eqb tt_ EOF then mret None
      else if TokenType_eqb tt_ LET then
        Parser_advance;;
        do name_token ← expect IDENTIFIER;
        expect ASSIGN;;
        do v ← parse_expression n' Precedence.LOWEST;
        mret (Some (LetStatement (literal name_token) v))
      else if TokenType_eqb tt_ CONST then
        Parser_advance;;
        do name_token ← expect IDENTIFIER;
        expect ASSIGN;;
        do v ← parse_expression n' Precedence.LOWEST;
        mret (Some (ConstStatement (literal name_token) v))
      else if TokenType_eqb tt_ RETURN then
        Parser_advance;;
        do ty ← current_type;
        if type_in ty [RBRACE; EOF; SEMICOLON]
        then mret (Some (ReturnStatement None))
        else
          do v ← parse_expression n' Precedence.LOWEST;
          mret (Some (ReturnStatement (Some v)))
      else if TokenType_eqb tt_ WHILE then
        Parser_advance;;
        do condition ← parse_expression n' Precedence.LOWEST;
        do body ← parse_block_statement n';
        mret (Some (WhileStatement condition body))
      else if TokenType_eqb tt_ FOR then
        Parser_advance;;
        do var_token ← expect IDENTIFIER;
        expect IN;;
        do iterable ← parse_expression n' Precedence.LOWEST;
        do body ← parse_block_statement n';
        mret (Some (ForStatement (literal var_token) iterable body))
      else if TokenType_eqb tt_ BREAK then
        Parser_advance;; mret (Some BreakStatement)
      else if TokenType_eqb tt_ CONTINUE then
        Parser_advance;; mret (Some ContinueStatement)
      else
        do pk ← peek_token;
        if TokenType_eqb tt_ FN && TokenType_eqb (type pk) IDENTIFIER
        then
          Parser_advance;;
          do name_token ← expect IDENTIFIER;
          do params ← parse_function_parameters n';
          do body ← parse_block_statement n';
          mret (Some (FunctionStatement (literal name_token) params body))
        else
          do expr ← parse_expression n' Precedence.LOWEST;
          do ty ← current_type;
          if type_in ty [ASSIGN; PLUS_ASSIGN; MINUS_ASSIGN] then
            do cur ← current_token;
            let op := literal cur in
            Parser_advance;;
            do v ← parse_expression n' Precedence.LOWEST;
            match expr with
            | Identifier name => mret (Some (AssignStatement name op v))
            | IndexExpression o i =>
                mret (Some (IndexAssignStatement o i v))
            | _ =>
                do cur' ← current_token;
                P_raise (ParserError "Invalid assignment target" cur')
            end
          else mret (Some (ExpressionStatement expr))
  end

with parse_block_statement (n : nat) : P Block :=
  match n with
  | O => P_out_of_fuel
  | S n' =>
      expect LBRACE;;
      do statements ← parse_block_loop n' [];
      expect RBRACE;;
      mret (BlockStatement statements)
  end

with parse_block_loop (n : nat) (statements : list Statement)
    : P (list Statement) :=
  match n with
  | O => P_out_of_fuel
  | S n' =>
      do ty ← current_type;
      if type_in ty [RBRACE; EOF] then mret statements
      else
        do stmt ← parse_statement n';
        match stmt with
        | Some s => parse_block_loop n' (statements ++ [s])
        | None => parse_block_loop n' statements
        end
  end.

Fixpoint parse_program_loop (n : nat) (statements : list Statement)
    : P (list Statement) :=
  match n with
  | O => P_out_of_fuel
  | S n' =>
      do is_eof ← current_is EOF;
      if is_eof then mret statements
      else
        do stmt ← parse_statement n';
        match stmt with
        | Some s => parse_program_loop n' (statements ++ [s])
        | None => parse_program_loop n' statements
        end
  end.

Definition parse_program (n : nat) : Outcome Program :=
  match parse_program_loop n [] 0%nat with
  | Normal (statements, _) => Normal (mkProgram statements)
  | Raise e => Raise e
  | OutOfFuel => OutOfFuel
  end.

End Parsing.

(* ================================================================== *)
(** ** The host's operations on runtime values *)
(* ================================================================== *)

Definition list_eqb {A} (f : A → A → bool) : list A → list A → bool :=
  fix go xs ys :=
    match xs, ys with
    | [], [] => true
    | x :: xs', y :: ys' => f x y && go xs' ys'
    | _, _ => false
    end.

Definition option_eqb {A} (f : A → A → bool) (a b : option A) : bool :=
  match a, b with
  | None, None => true
  | Some x, Some y => f x y
  | _, _ => false
  end.

(** [type(v).__name__]. *)
Definition type_name (v : Value) : string :=
  match v with
  | VNone => "NoneType"
  | VBool _ => "bool"
  | VInt _ => "int"
  | VFloat _ => "float"
  | VComplex _ _ => "complex"
  | VStr _ => "str"
  | VList _ => "list"
  | VDict _ => "dict"
  | VBuiltin _ => "BuiltinFunction"
  | VFunction _ _ _ _ => "Function"
  end.

(** [isinstance(v, int)]: a bool is an int. *)
Definition as_int (v : Value) : option Z :=
  match v with
  | VBool b => Some (if b then 1 else 0)
  | VInt n => Some n
  | _ => None
  end.

Definition as_num (v : Value) : option Num :=
  match v with
  | VBool b => Some (NInt (if b then 1 else 0))
  | VInt n => Some (NInt n)
  | VFloat f => Some (NFloat f)
  | VComplex re im => Some (NComplex re im)
  | _ => None
  end.

Definition value_of_num (x : Num) : Value :=
  match x with
  | NInt n => VInt n
  | NFloat f => VFloat f
  | NComplex re im => VComplex re im
  end.

Definition list_items (h : list Object) (l : nat) : list Value :=
  match h !! l with
  | Some (ListObj items) => items
  | _ => []
  end.

Definition dict_entries (h : list Object) (l : nat) : list (Value * Value) :=
  match h !! l with
  | Some (DictObj entries) => entries
  | _ => []
  end.

Definition py_bool_str (b : bool) : string := if b then "True" else "False".

Section Values.
Context `{PyHost}.

Definition num_eq (x y : Num) : bool :=
  match x, y with
  | NInt a, NInt b => a =? b
  | _, _ => num_eqb x y
  end.

(** Equality of two nodes, as the generated [__eq__] of the dataclasses
    decides it: same class and equal fields. *)
Fixpoint Expression_eqb (a b : Expression) {struct a} : bool :=
  match a, b with
  | IntegerLiteral x, IntegerLiteral y => x =? y
  | FloatLiteral x, FloatLiteral y => num_eqb (NFloat x) (NFloat y)
  | StringLiteral x, StringLiteral y => String.eqb x y
  | BooleanLiteral x, BooleanLiteral y => Bool.eqb x y
  | NullLiteral, NullLiteral => true
  | ArrayLiteral xs, ArrayLiteral ys => list_eqb Expression_eqb xs ys
  | DictLiteral xs, DictLiteral ys =>
      list_eqb (λ p q, match p, q with
                       | (k1, v1), (k2, v2) =>
                           Expression_eqb k1 k2 && Expression_eqb v1 v2
                       end) xs ys
  | Identifier x, Identifier y => String.eqb x y
  | IndexExpression o1 i1, IndexExpression o2 i2 =>
      Expression_eqb o1 o2 && Expression_eqb i1 i2
  | BinaryOp op1 l1 r1, BinaryOp op2 l2 r2 =>
      String.eqb op1 op2 && Expression_eqb l1 l2 && Expression_eqb r1 r2
  | UnaryOp op1 e1, UnaryOp op2 e2 =>
      String.eqb op1 op2 && Expression_eqb e1 e2
  | FunctionLiteral p1 b1 n1, FunctionLiteral p2 b2 n2 =>
      list_eqb String.eqb p1 p2 && Block_eqb b1 b2
      && option_eqb String.eqb n1 n2
  | CallExpression f1 a1, CallExpression f2 a2 =>
      Expression_eqb f1 f2 && list_eqb Expression_eqb a1 a2
  | IfExpression c1 t1 e1, IfExpression c2 t2 e2 =>
      Expression_eqb c1 c2 && Block_eqb t1 t2
      && match e1, e2 with
         | None, None => true
         | Some x, Some y => Block_eqb x y
         | _, _ => false
         end
  | _, _ => false
  end

with Statement_eqb (a b : Statement) {struct a} : bool :=
  match a, b with
  | LetStatement n1 v1, LetStatement n2 v2 =>
      String.eqb n1 n2 && Expression_eqb v1 v2
  | ConstStatement n1 v1, ConstStatement n2 v2 =>
      String.eqb n1 n2 && Expression_eqb v1 v2
  | AssignStatement n1 o1 v1, AssignStatement n2 o2 v2 =>
      String.eqb n1 n2 && String.eqb o1 o2 && Expression_eqb v1 v2
  | IndexAssignStatement o1 i1 v1, IndexAssignStatement o2 i2 v2 =>
      Expression_eqb o1 o2 && Expression_eqb i1 i2 && Expression_eqb v1 v2
  | ExpressionStatement e1, ExpressionStatement e2 => Expression_eqb e1 e2
  | ReturnStatement v1, ReturnStatement v2 =>
      match v1, v2 with
      | None, None => true
      | Some x, Some y => Expression_eqb x y
      | _, _ => false
      end
  | WhileStatement c1 b1, WhileStatement c2 b2 =>
      Expression_eqb c1 c2 && Block_eqb b1 b2
  | ForStatement x1 i1 b1, ForStatement x2 i2 b2 =>
      String.eqb x1 x2 && Expression_eqb i1 i2 && Block_eqb b1 b2
  | BreakStatement, BreakStatement => true
  | ContinueStatement, ContinueStatement => true
  | FunctionStatement n1 p1 b1, FunctionStatement n2 p2 b2 =>
      String.eqb n1 n2 && list_eqb String.eqb p1 p2 && Block_eqb b1 b2
  | _, _ => false
  end

with Block_eqb (a b : Block) {struct a} : bool :=
  match a, b with
  | BlockStatement xs, BlockStatement ys => list_eqb Statement_eqb xs ys
  end.

(** Whether the host can hash the value (use it as a dict key): the two
    function dataclasses define [__eq__] and so lose [__hash__]. *)
Definition hashable (v : Value) : bool :=
  match v with
  | VList _ | VDict _ | VBuiltin _ | VFunction _ _ _ _ => false
  | _ => true
  end.

(** [==] between two hashable values (dict keys). *)
Definition key_eqb (a b : Value) : bool :=
  match a, b with
  | VNone, VNone => true
  | VStr x, VStr y => String.eqb x y
  | _, _ =>
      match as_num a, as_num b with
      | Some x, Some y => num_eq x y
      | _, _ => false
      end
  end.

Fixpoint dict_lookup (entries : list (Value * Value)) (key : Value)
    : option Value :=
  match entries with
  | [] => None
  | (k, v) :: rest => if key_eqb k key then Some v else dict_lookup rest key
  end.

(** [d[key] = v]: an existing entry keeps its key and its position. *)
Fixpoint dict_set (entries : list (Value * Value)) (key v : Value)
    : list (Value * Value) :=
  match entries with
  | [] => [(key, v)]
  | (k, v0) :: rest =>
      if key_eqb k key then (k, v) :: rest
      else (k, v0) :: dict_set rest key v
  end.

(** [a == b] of the host.  The budget bounds the descent into nested
    containers; [None] means it ran out (the host raises a
    [RecursionError] on cyclic containers).  Elements that are the same
    object compare equal without descent; that shortcut is modelled for
    lists and dicts, whose identity the heap tracks. *)
Fixpoint py_eq (n : nat) (h : list Object) (a b : Value) : option bool :=
  match n with
  | O => None
  | S n' =>
      match a, b with
      | VNone, VNone => Some true
      | VStr x, VStr y => Some (String.eqb x y)
      | VList x, VList y =>
          if (x =? y)%nat then Some true
          else
            let xs := list_items h x in
            let ys := list_items h y in
            if negb (length xs =? length ys)%nat then Some false
            else
              (fix go xs ys :=
                 match xs, ys with
                 | x :: xs', y :: ys' =>
                     match py_eq n' h x y with
                     | Some true => go xs' ys'
                     | r => r
                     end
                 | _, _ => Some true
                 end) xs ys
      | VDict x, VDict y =>
          if (x =? y)%nat then Some true
          else
            let xs := dict_entries h x in
            let ys := dict_entries h y in
            if negb (length xs =? length ys)%nat then Some false
            else
              (fix go xs :=
                 match xs with
                 | (k, v) :: xs' =>
                     match dict_lookup ys k with
                     | None => Some false
                     | Some w =>
                         match py_eq n' h v w with
                         | Some true => go xs'
                         | r => r
                         end
                     end
                 | [] => Some true
                 end) xs
      | VBuiltin x, VBuiltin y => Some (String.eqb x y)
      | VFunction p1 b1 e1 n1, VFunction p2 b2 e2 n2 =>
          Some (list_eqb String.eqb p1 p2 && Block_eqb b1 b2
                && (e1 =? e2)%nat && option_eqb String.eqb n1 n2)
      | _, _ =>
          match as_num a, as_num b with
          | Some x, Some y => Some (num_eq x y)
          | _, _ => Some false
          end
      end
  end.

(** [right == 0], the guard of [/] and [%]. *)
Definition equals_zero (v : Value) : bool :=
  match as_num v with
  | Some x => num_eq x (NInt 0)
  | None => false
  end.

Definition not_supported (op : string) (a b : Value) : exn :=
  PyExc TypeError
    ("'" +++ op +++ "' not supported between instances of '"
     +++ type_name a +++ "' and '" +++ type_name b +++ "'").

Definition compare_Z (op : string) (x y : Z) : bool :=
  if String.eqb op "<" then x <? y
  else if String.eqb op ">" then y <? x
  else if String.eqb op "<=" then x <=? y
  else y <=? x.

Definition compare_nat (op : string) (x y : nat) : bool :=
  compare_Z op (Z.of_nat x) (Z.of_nat y).

Definition compare_num (op : string) (x y : Num) : bool :=
  match x, y with
  | NInt a, NInt b => compare_Z op a b
  | _, _ =>
      if String.eqb op "<" then num_ltb x y
      else if String.eqb op ">" then num_ltb y x
      else if String.eqb op "<=" then num_leb x y
      else num_leb y x
  end.

Definition compare_str (op : string) (x y : string) : bool :=
  match String.compare x y with
  | Lt => String.eqb op "<" || String.eqb op "<="
  | Eq => String.eqb op "<=" || String.eqb op ">="
  | Gt => String.eqb op ">" || String.eqb op ">="
  end.

Definition is_complex (v : Value) : bool :=
  match v with VComplex _ _ => true | _ => false end.

(** [a op b] of the host for [op] among [<], [>], [<=], [>=]: real
    numbers, two strings, or two lists (by the first pair of elements
    that differ, else by length); anything else is a [TypeError]. *)
Fixpoint py_compare (n : nat) (h : list Object) (op : string)
    (a b : Value) : Outcome bool :=
  match n with
  | O => OutOfFuel
  | S n' =>
      match a, b with
      | VStr x, VStr y => Normal (compare_str op x y)
      | VList x, VList y =>
          let xs := list_items h x in
          let ys := list_items h y in
          (fix go xs' ys' :=
             match xs', ys' with
             | x :: xs'', y :: ys'' =>
                 match py_eq n' h x y with
                 | None => OutOfFuel
                 | Some true => go xs'' ys''
                 | Some false => py_compare n' h op x y
                 end
             | _, _ => Normal (compare_nat op (length xs) (length ys))
             end) xs ys
      | _, _ =>
          if is_complex a || is_complex b then Raise (not_supported op a b)
          else
            match as_num a, as_num b with
            | Some x, Some y => Normal (compare_num op x y)
            | _, _ => Raise (not_supported op a b)
            end
      end
  end.

(** builtins.py: [kira_str] and [kira_repr].  [None] when the budget runs
    out on nested containers. *)
Definition option_name (name : option string) : string :=
  match name with
  | Some s => s
  | None => "None"
  end.

Fixpoint all_some {A} (l : list (option A)) : option (list A) :=
  match l with
  | [] => Some []
  | Some a :: l' =>
      match all_some l' with
      | Some r => Some (a :: r)
      | None => None
      end
  | None :: _ => None
  end.

Fixpoint kira_str (n : nat) (h : list Object) (obj : Value)
    : option string :=
  match n with
  | O => None
  | S n' =>
      let kira_repr (o : Value) : option string :=
        match o with
        | VStr s => Some (str1 chr_dquote +++ s +++ str1 chr_dquote)
        | _ => kira_str n' h o
        end in
      match obj with
      | VNone => Some "null"
      | VBool b => Some (if b then "true" else "false")
      | VStr s => Some s
      | VList l =>
          match all_some (map kira_repr (list_items h l)) with
          | Some elements => Some ("[" +++ str_join ", " elements +++ "]")
          | None => None
          end
      | VDict l =>
          match all_some
                  (map (λ kv : Value * Value,
                          match kira_repr kv.1, kira_repr kv.2 with
                          | Some k, Some v => Some (k +++ ": " +++ v)
                          | _, _ => None
                          end) (dict_entries h l)) with
          | Some pairs => Some ("{" +++ str_join ", " pairs +++ "}")
          | None => None
          end
      | VBuiltin name => Some ("<builtin function " +++ name +++ ">")
      | VFunction _ _ _ name =>
          Some ("<function " +++ option_name name +++ ">")
      | VInt i => Some (str_of_Z i)
      | VFloat f => Some (num_str (NFloat f))
      | VComplex re im => Some (num_str (NComplex re im))
      end
  end.

Definition kira_repr (n : nat) (h : list Object) (obj : Value)
    : option string :=
  match obj with
  | VStr s => Some (str1 chr_dquote +++ s +++ str1 chr_dquote)
  | _ => kira_str n h obj
  end.

(** [str(v)] for the values that can index a dict. *)
Definition py_str_key (h : list Object) (v : Value) : string :=
  match v with
  | VNone => "None"
  | VBool b => py_bool_str b
  | VInt n => str_of_Z n
  | VStr s => s
  | _ => py_str h v
  end.

End Values.

(* ================================================================== *)
(** ** environment.py *)
(* ================================================================== *)

Definition new_Environment (parent : option nat) : Environment :=
  mkEnvironment ∅ ∅ parent.

(** [Environment(parent=...)]: the new instance gets the next index. *)
Definition alloc_env (parent : option nat) : M nat := λ σ,
  (Normal (length (envs σ)), set_envs σ (envs σ ++ [new_Environment parent])).

(** [get]: the recursion follows [parent]; an instance is created after
    its parent, so the chain from instance [env] has at most [S env]
    links, which is the counter given by [Environment_get]. *)
Fixpoint Environment_get_from (n : nat) (es : list Environment) (env : nat)
    (name : string) : option Value :=
  match n with
  | O => None
  | S n' =>
      match es !! env with
      | None => None
      | Some e =>
          match store e !! name with
          | Some v => Some v
          | None =>
              match parent e with
              | Some p => Environment_get_from n' es p name
              | None => None
              end
          end
      end
  end.

Definition Environment_get (es : list Environment) (env : nat)
    (name : string) : option Value :=
  Environment_get_from (S env) es env name.

Definition cannot_reassign (name : string) : exn :=
  PyExc RuntimeError ("Cannot reassign constant '" +++ name +++ "'").

Definition undefined_variable (name : string) : exn :=
  PyExc RuntimeError ("Undefined variable: " +++ name).

Definition update_env (es : list Environment) (env : nat)
    (f : Environment → Environment) : list Environment :=
  match es !! env with
  | Some e => <[env := f e]> es
  | None => es
  end.

(** [set]: binds in this scope, unless the name is one of its constants. *)
Definition Environment_set (env : nat) (name : string) (v : Value)
    (is_const : bool) : M Value := λ σ,
  match envs σ !! env with
  | None => (Normal v, σ)
  | Some e =>
      if bool_decide (name ∈ constants e) then (Raise (cannot_reassign name), σ)
      else
        let e' := mkEnvironment (<[name := v]> (store e))
                    (if is_const then constants e ∪ {[name]} else constants e)
                    (parent e) in
        (Normal v, set_envs σ (<[env := e']> (envs σ)))
  end.

(** [assign]: updates the nearest scope that binds the name. *)
Fixpoint Environment_assign_from (n : nat) (env : nat) (name : string)
    (v : Value) : M Value := λ σ,
  match n with
  | O => (Raise (undefined_variable name), σ)
  | S n' =>
      match envs σ !! env with
      | None => (Raise (undefined_variable name), σ)
      | Some e =>
          match store e !! name with
          | Some _ =>
              if bool_decide (name ∈ constants e)
              then (Raise (cannot_reassign name), σ)
              else
                let e' := mkEnvironment (<[name := v]> (store e))
                            (constants e) (parent e) in
                (Normal v, set_envs σ (<[env := e']> (envs σ)))
          | None =>
              match parent e with
              | Some p => Environment_assign_from n' p name v σ
              | None => (Raise (undefined_variable name), σ)
              end
          end
      end
  end.

Definition Environment_assign (env : nat) (name : string) (v : Value)
    : M Value :=
  Environment_assign_from (S env) env name v.

(** [exists]: the same walk as [get], yielding whether the name is bound. *)
Fixpoint Environment_exists_from (n : nat) (es : list Environment) (env : nat)
    (name : string) : bool :=
  match n with
  | O => false
  | S n' =>
      match es !! env with
      | None => false
      | Some e =>
          match store e !! name with
          | Some _ => true
          | None =>
              match parent e with
              | Some p => Environment_exists_from n' es p name
              | None => false
              end
          end
      end
  end.

Definition Environment_exists (es : list Environment) (env : nat)
    (name : string) : bool :=
  Environment_exists_from (S env) es env name.

(* ================================================================== *)
(** ** Operators of the host, as the evaluator applies them *)
(* ================================================================== *)

Section Operators.
Context `{PyHost}.

Definition alloc_obj (o : Object) : M nat := λ σ,
  (Normal (length (heap σ)), set_heap σ (heap σ ++ [o])).

Definition get_heap : M (list Object) := λ σ, (Normal (heap σ), σ).

Definition store_obj (l : nat) (o : Object) : M unit := λ σ,
  (Normal tt, set_heap σ (<[l := o]> (heap σ))).

Definition type_error {A} (msg : string) : M A := raise (PyExc TypeError msg).

Definition unsupported (op : string) (a b : Value) : string :=
  "unsupported operand type(s) for " +++ op +++ ": '" +++ type_name a
  +++ "' and '" +++ type_name b +++ "'".

Definition cannot_concatenate (seq : string) (other : Value) : string :=
  "can only concatenate " +++ seq +++ " (not " +++ str1 chr_dquote
  +++ type_name other +++ str1 chr_dquote +++ ") to " +++ seq.

Definition cannot_multiply (other : Value) : string :=
  "can't multiply sequence by non-int of type '" +++ type_name other +++ "'".

Definition host_num (r : host_result Num) : M Value :=
  do x ← lift_host r; mret (value_of_num x).

(** Arithmetic on two numbers: exact on integers, the host's otherwise. *)
Definition num_add (x y : Num) : M Value :=
  match x, y with
  | NInt a, NInt b => mret (VInt (a + b))
  | _, _ => host_num (num_binop "+" x y)
  end.

Definition num_sub (x y : Num) : M Value :=
  match x, y with
  | NInt a, NInt b => mret (VInt (a - b))
  | _, _ => host_num (num_binop "-" x y)
  end.

Definition num_mul (x y : Num) : M Value :=
  match x, y with
  | NInt a, NInt b => mret (VInt (a * b))
  | _, _ => host_num (num_binop "*" x y)
  end.

Definition num_mod (x y : Num) : M Value :=
  match x, y with
  | NInt a, NInt b =>
      if b =? 0 then raise (PyExc ZeroDivisionError "integer modulo by zero")
      else mret (VInt (a mod b))
  | _, _ => host_num (num_binop "%" x y)
  end.

Definition num_pow (x y : Num) : M Value :=
  match x, y with
  | NInt a, NInt b =>
      if 0 <=? b then mret (VInt (a ^ b))
      else host_num (num_binop "**" x y)
  | _, _ => host_num (num_binop "**" x y)
  end.

(** [sequence * n]: nothing is left for [n <= 0]. *)
Definition repeat_str (s : string) (n : Z) : string :=
  str_repeat (Z.to_nat n) s.

Definition repeat_list {A} (l : list A) (n : Z) : list A :=
  concat (replicate (Z.to_nat n) l).

Definition py_add (a b : Value) : M Value :=
  match as_num a, as_num b with
  | Some x, Some y => num_add x y
  | _, _ =>
      match a, b with
      | VStr x, VStr y => mret (VStr (x +++ y))
      | VStr _, _ => type_error (cannot_concatenate "str" b)
      | VList x, VList y =>
          do h ← get_heap;
          do l ← alloc_obj (ListObj (list_items h x ++ list_items h y));
          mret (VList l)
      | VList _, _ => type_error (cannot_concatenate "list" b)
      | _, _ => type_error (unsupported "+" a b)
      end
  end.

Definition py_sub (a b : Value) : M Value :=
  match as_num a, as_num b with
  | Some x, Some y => num_sub x y
  | _, _ => type_error (unsupported "-" a b)
  end.

Definition py_repeat (seq : Value) (n : Z) : M Value :=
  match seq with
  | VStr s => mret (VStr (repeat_str s n))
  | VList l =>
      do h ← get_heap;
      do l' ← alloc_obj (ListObj (repeat_list (list_items h l) n));
      mret (VList l')
  | _ => mret seq
  end.

Definition is_sequence (v : Value) : bool :=
  match v with
  | VStr _ | VList _ => true
  | _ => false
  end.

Definition py_mul (a b : Value) : M Value :=
  match as_num a, as_num b with
  | Some x, Some y => num_mul x y
  | _, _ =>
      if is_sequence a then
        match as_int b with
        | Some n => py_repeat a n
        | None => type_error (cannot_multiply b)
        end
      else if is_sequence b then
        match as_int a with
        | Some n => py_repeat b n
        | None => type_error (cannot_multiply a)
        end
      else type_error (unsupported "*" a b)
  end.

Definition py_truediv (a b : Value) : M Value :=
  match as_num a, as_num b with
  | Some x, Some y => host_num (num_binop "/" x y)
  | _, _ => type_error (unsupported "/" a b)
  end.

Definition py_mod (a b : Value) : M Value :=
  match a with
  | VStr s =>
      do h ← get_heap;
      do r ← lift_host (str_percent s b h);
      mret (VStr r)
  | _ =>
      match as_num a, as_num b with
      | Some x, Some y => num_mod x y
      | _, _ => type_error (unsupported "%" a b)
      end
  end.

Definition py_pow (a b : Value) : M Value :=
  match as_num a, as_num b with
  | Some x, Some y => num_pow x y
  | _, _ => type_error (unsupported "** or pow()" a b)
  end.

Definition py_neg (a : Value) : M Value :=
  match as_num a with
  | Some (NInt n) => mret (VInt (- n))
  | Some x => mret (value_of_num (num_neg x))
  | None =>
      type_error ("bad operand type for unary -: '" +++ type_name a +++ "'")
  end.

(** The budgeted operations, lifted: running out of budget is
    [OutOfFuel]. *)
Definition py_eq_M (n : nat) (a b : Value) : M bool :=
  do h ← get_heap;
  match py_eq n h a b with
  | Some r => mret r
  | None => out_of_fuel
  end.

Definition py_compare_M (n : nat) (op : string) (a b : Value) : M bool :=
  do h ← get_heap;
  lift_outcome (py_compare n h op a b).

Definition kira_str_M (n : nat) (v : Value) : M string :=
  do h ← get_heap;
  match kira_str n h v with
  | Some s => mret s
  | None => out_of_fuel
  end.

Definition unhashable {A} (v : Value) : M A :=
  type_error ("unhashable type: '" +++ type_name v +++ "'").

End Operators.

(* ================================================================== *)
(** ** evaluator.py *)
(* ================================================================== *)

(** The names of the registry [BUILTINS] of builtins.py. *)
Definition BUILTINS : list string :=
  [ "print"; "println"; "input"; "len"; "type"; "str"; "int"; "float";
    "range"; "push"; "pop"; "first"; "last"; "rest"; "sorted"; "reversed";
    "join"; "keys"; "values"; "abs"; "min"; "max"; "sum"; "split"; "upper";
    "lower"; "strip"; "replace"; "contains" ].

Definition in_BUILTINS (name : string) : bool :=
  existsb (String.eqb name) BUILTINS.

Section Evaluator.
Context `{PyHost}.

Definition is_truthy (h : list Object) (v : Value) : bool :=
  match v with
  | VNone => false
  | VBool b => b
  | VInt n => negb (n =? 0)
  | VFloat f => negb (num_eq (NFloat f) (NInt 0))
  | VStr s => (0 <? String.length s)%nat
  | VList l => (0 <? length (list_items h l))%nat
  | VDict l => (0 <? length (dict_entries h l))%nat
  | _ => true
  end.

Definition truthy (v : Value) : M bool :=
  do h ← get_heap; mret (is_truthy h v).

(** The methods of [Evaluator] are written over [ev], which stands for
    [self.eval] at the budget that is left, and [budget], which bounds
    the rounds of a loop and the depth of the host's operations on nested
    containers.  [eval] below ties the knot. *)
Section Methods.
Variable ev : Node → nat → M Value.
Variable budget : nat.

Fixpoint eval_statements (stmts : list Statement) (env : nat)
    (result : Value) : M Value :=
  match stmts with
  | [] => mret result
  | stmt :: rest =>
      do r ← ev (NStatement stmt) env;
      eval_statements rest env r
  end.

Definition eval_Program (node : Program) (env : nat) : M Value :=
  match node with
  | mkProgram statements => eval_statements statements env VNone
  end.

Definition eval_BlockStatement (node : Block) (env : nat) : M Value :=
  match node with
  | BlockStatement statements => eval_statements statements env VNone
  end.

Definition eval_ExpressionStatement (expression : Expression) (env : nat)
    : M Value :=
  ev (NExpression expression) env.

Definition eval_LetStatement (name : string) (value : Expression)
    (env : nat) : M Value :=
  do v ← ev (NExpression value) env;
  Environment_set env name v false;;
  mret v.

Definition eval_ConstStatement (name : string) (value : Expression)
    (env : nat) : M Value :=
  do v ← ev (NExpression value) env;
  Environment_set env name v true;;
  mret v.

Definition env_get (env : nat) (name : string) : M (option Value) :=
  λ σ, (Normal (Environment_get (envs σ) env name), σ).

Definition eval_AssignStatement (name operator : string)
    (value : Expression) (env : nat) : M Value :=
  do v ← ev (NExpression value) env;
  (if String.eqb operator "=" then
     Environment_assign env name v;; mret tt
   else if String.eqb operator "+=" then
     do found ← env_get env name;
     match found with
     | None => raise (KiraRuntimeError ("Undefined variable: " +++ name))
     | Some current =>
         do r ← py_add current v;
         Environment_assign env name r;; mret tt
     end
   else if String.eqb operator "-=" then
     do found ← env_get env name;
     match found with
     | None => raise (KiraRuntimeError ("Undefined variable: " +++ name))
     | Some current =>
         do r ← py_sub current v;
         Environment_assign env name r;; mret tt
     end
   else mret tt);;
  mret v.

Definition out_of_range (i : Z) (len : nat) : bool :=
  (i <? 0) || (Z.of_nat len <=? i).

Definition eval_IndexAssignStatement (object index value : Expression)
    (env : nat) : M Value :=
  do obj ← ev (NExpression object) env;
  do idx ← ev (NExpression index) env;
  do v ← ev (NExpression value) env;
  do h ← get_heap;
  match obj with
  | VList l =>
      match as_int idx with
      | None => raise (KiraRuntimeError "Array index must be integer")
      | Some i =>
          let items := list_items h l in
          if out_of_range i (length items) then
            raise (KiraRuntimeError ("Array index out of bounds: "
                                     +++ py_str_key h idx))
          else
            store_obj l (ListObj (<[Z.to_nat i := v]> items));;
            mret v
      end
  | VDict l =>
      if hashable idx then
        store_obj l (DictObj (dict_set (dict_entries h l) idx v));;
        mret v
      else unhashable idx
  | _ => raise (KiraRuntimeError "Cannot index into this type")
  end.

Definition eval_ReturnStatement (value : option Expression) (env : nat)
    : M Value :=
  do v ← match value with
         | Some e => ev (NExpression e) env
         | None => mret VNone
         end;
  raise (ReturnValue v).

(** The [try] around a loop body: [true] to go on with the next round,
    [false] after [break]. *)
Definition loop_body (body : Block) (env : nat) : M bool :=
  try_except (ev (NBlock body) env;; mret true)
    (λ e, match e with
          | BreakSignal => mret false
          | ContinueSignal => mret true
          | _ => raise e
          end).

Fixpoint while_loop (n : nat) (condition : Expression) (body : Block)
    (env : nat) : M Value :=
  match n with
  | O => out_of_fuel
  | S n' =>
      do c ← ev (NExpression condition) env;
      do t ← truthy c;
      if t then
        do go_on ← loop_body body env;
        if go_on then while_loop n' condition body env else mret VNone
      else mret VNone
  end.

Definition eval_WhileStatement (condition : Expression) (body : Block)
    (env : nat) : M Value :=
  while_loop budget condition body env.

(** One round of [for item in iterable]. *)
Definition for_round (variable : string) (item : Value) (body : Block)
    (env : nat) : M bool :=
  Environment_set env variable item false;;
  loop_body body env.

(** Iterating a list reads the list as it is at each round (the host's
    list iterator holds an index). *)
Fixpoint for_list (n : nat) (variable : string) (l : nat) (i : nat)
    (body : Block) (env : nat) : M Value :=
  match n with
  | O => out_of_fuel
  | S n' =>
      do h ← get_heap;
      match list_items h l !! i with
      | None => mret VNone
      | Some item =>
          do go_on ← for_round variable item body env;
          if go_on then for_list n' variable l (S i) body env
          else mret VNone
      end
  end.

(** Iterating a dict yields its keys in insertion order; the iterator
    raises once the dict has another size than when the loop began. *)
Fixpoint for_dict (n : nat) (variable : string) (l : nat) (used : nat)
    (i : nat) (body : Block) (env : nat) : M Value :=
  match n with
  | O => out_of_fuel
  | S n' =>
      do h ← get_heap;
      let entries := dict_entries h l in
      if negb (length entries =? used)%nat then
        raise (PyExc RuntimeError "dictionary changed size during iteration")
      else
        match entries !! i with
        | None => mret VNone
        | Some (key, _) =>
            do go_on ← for_round variable key body env;
            if go_on then for_dict n' variable l used (S i) body env
            else mret VNone
        end
  end.

Fixpoint for_str (variable : string) (chars : list ascii) (body : Block)
    (env : nat) : M Value :=
  match chars with
  | [] => mret VNone
  | c :: rest =>
      do go_on ← for_round variable (VStr (str1 c)) body env;
      if go_on then for_str variable rest body env else mret VNone
  end.

Definition eval_ForStatement (variable : string) (iterable : Expression)
    (body : Block) (env : nat) : M Value :=
  do it ← ev (NExpression iterable) env;
  match it with
  | VList l => for_list budget variable l 0 body env
  | VDict l =>
      do h ← get_heap;
      for_dict budget variable l (length (dict_entries h l)) 0 body env
  | VStr s => for_str variable (chars_of_str s) body env
  | _ => raise (KiraRuntimeError ("Cannot iterate over " +++ type_name it))
  end.

Definition eval_BreakStatement (env : nat) : M Value := raise BreakSignal.

Definition eval_ContinueStatement (env : nat) : M Value :=
  raise ContinueSignal.

Definition eval_FunctionStatement (name : string) (parameters : list string)
    (body : Block) (env : nat) : M Value :=
  let func := VFunction parameters body env (Some name) in
  Environment_set env name func false;;
  mret func.

Fixpoint eval_list (es : list Expression) (env : nat) : M (list Value) :=
  match es with
  | [] => mret []
  | e :: rest =>
      do v ← ev (NExpression e) env;
      do vs ← eval_list rest env;
      mret (v :: vs)
  end.

Definition eval_ArrayLiteral (elements : list Expression) (env : nat)
    : M Value :=
  do vs ← eval_list elements env;
  do l ← alloc_obj (ListObj vs);
  mret (VList l).

Fixpoint eval_pairs (l : nat) (pairs : list (Expression * Expression))
    (env : nat) : M unit :=
  match pairs with
  | [] => mret tt
  | (key_node, value_node) :: rest =>
      do key ← ev (NExpression key_node) env;
      do v ← ev (NExpression value_node) env;
      do h ← get_heap;
      if hashable key then
        store_obj l (DictObj (dict_set (dict_entries h l) key v));;
        eval_pairs l rest env
      else unhashable key
  end.

Definition eval_DictLiteral (pairs : list (Expression * Expression))
    (env : nat) : M Value :=
  do l ← alloc_obj (DictObj []);
  eval_pairs l pairs env;;
  mret (VDict l).

Definition eval_Identifier (name : string) (env : nat) : M Value :=
  do found ← env_get env name;
  match found with
  | Some v => mret v
  | None =>
      if in_BUILTINS name then mret (VBuiltin name)
      else raise (KiraRuntimeError ("Undefined variable: " +++ name))
  end.

Definition eval_IndexExpression (object index : Expression) (env : nat)
    : M Value :=
  do obj ← ev (NExpression object) env;
  do idx ← ev (NExpression index) env;
  do h ← get_heap;
  match obj with
  | VList l =>
      match as_int idx with
      | None => raise (KiraRuntimeError "Array index must be integer")
      | Some i =>
          let items := list_items h l in
          match (if out_of_range i (length items) then None
                 else items !! Z.to_nat i) with
          | Some v => mret v
          | None =>
              raise (KiraRuntimeError ("Array index out of bounds: "
                                       +++ py_str_key h idx))
          end
      end
  | VDict l =>
      if hashable idx then
        match dict_lookup (dict_entries h l) idx with
        | Some v => mret v
        | None =>
            raise (KiraRuntimeError ("Key not found: " +++ py_str_key h idx))
        end
      else unhashable idx
  | VStr s =>
      match as_int idx with
      | None => raise (KiraRuntimeError "String index must be integer")
      | Some i =>
          match (if out_of_range i (String.length s) then None
                 else String.get (Z.to_nat i) s) with
          | Some c => mret (VStr (str1 c))
          | None =>
              raise (KiraRuntimeError ("String index out of bounds: "
                                       +++ py_str_key h idx))
          end
      end
  | _ => raise (KiraRuntimeError ("Cannot index into " +++ type_name obj))
  end.

Definition is_str (v : Value) : bool :=
  match v with VStr _ => true | _ => false end.

Definition is_comparison (op : string) : bool :=
  String.eqb op "<" || String.eqb op ">" || String.eqb op "<="
  || String.eqb op ">=".

(** The part of [eval_BinaryOp] after both operands are evaluated. *)
Definition binary_operation (op : string) (left right : Value) : M Value :=
  if String.eqb op "+" then
    if is_str left || is_str right then
      do l ← kira_str_M budget left;
      do r ← kira_str_M budget right;
      mret (VStr (l +++ r))
    else py_add left right
  else if String.eqb op "-" then py_sub left right
  else if String.eqb op "*" then py_mul left right
  else if String.eqb op "/" then
    if equals_zero right then raise (KiraRuntimeError "Division by zero")
    else py_truediv left right
  else if String.eqb op "%" then
    if equals_zero right then raise (KiraRuntimeError "Modulo by zero")
    else py_mod left right
  else if String.eqb op "**" then py_pow left right
  else if String.eqb op "==" then
    do b ← py_eq_M budget left right; mret (VBool b)
  else if String.eqb op "!=" then
    do b ← py_eq_M budget left right; mret (VBool (negb b))
  else if is_comparison op then
    do b ← py_compare_M budget op left right; mret (VBool b)
  else raise (KiraRuntimeError ("Unknown operator: " +++ op)).

Definition eval_BinaryOp (operator : string) (left right : Expression)
    (env : nat) : M Value :=
  if String.eqb operator "and" then
    do l ← ev (NExpression left) env;
    do t ← truthy l;
    if negb t then mret l else ev (NExpression right) env
  else if String.eqb operator "or" then
    do l ← ev (NExpression left) env;
    do t ← truthy l;
    if t then mret l else ev (NExpression right) env
  else
    do l ← ev (NExpression left) env;
    do r ← ev (NExpression right) env;
    binary_operation operator l r.

Definition eval_UnaryOp (operator : string) (operand : Expression)
    (env : nat) : M Value :=
  do v ← ev (NExpression operand) env;
  if String.eqb operator "-" then py_neg v
  else if String.eqb operator "not" then
    do t ← truthy v; mret (VBool (negb t))
  else raise (KiraRuntimeError ("Unknown unary operator: " +++ operator)).

Definition eval_IfExpression (condition : Expression) (consequence : Block)
    (alternative : option Block) (env : nat) : M Value :=
  do c ← ev (NExpression condition) env;
  do t ← truthy c;
  if t then ev (NBlock consequence) env
  else
    match alternative with
    | Some b => ev (NBlock b) env
    | None => mret VNone
    end.

Definition eval_FunctionLiteral (parameters : list string) (body : Block)
    (name : option string) (env : nat) : M Value :=
  mret (VFunction parameters body env name).

(** The call of [func.fn] on the arguments, under
    [try ... except TypeError]. *)
Definition call_BuiltinFunction (name : string) (args : list Value)
    : M Value := λ σ,
  let '(r, h', w') := call_builtin name args (heap σ) (world σ) in
  let σ' := mkState (envs σ) h' w' in
  match r with
  | Raise (PyExc TypeError msg) =>
      (Raise (KiraRuntimeError ("Error calling " +++ name +++ ": " +++ msg)),
       σ')
  | _ => (r, σ')
  end.

(** [for param, arg in zip(...): func_env.set(param, arg)]. *)
Fixpoint bind_parameters (func_env : nat) (parameters : list string)
    (args : list Value) : M unit :=
  match parameters, args with
  | param :: ps, arg :: rest =>
      Environment_set func_env param arg false;;
      bind_parameters func_env ps rest
  | _, _ => mret tt
  end.

Definition apply_function (func : Value) (args : list Value) : M Value :=
  match func with
  | VBuiltin name => call_BuiltinFunction name args
  | VFunction parameters body env _ =>
      if negb (length args =? length parameters)%nat then
        raise (KiraRuntimeError
                 ("Expected " +++ str_of_nat (length parameters)
                  +++ " arguments, got " +++ str_of_nat (length args)))
      else
        do func_env ← alloc_env (Some env);
        bind_parameters func_env parameters args;;
        try_except (ev (NBlock body) func_env)
          (λ e, match e with
                | ReturnValue v => mret v
                | _ => raise e
                end)
  | _ => raise (KiraRuntimeError ("Cannot call " +++ type_name func))
  end.

Definition eval_CallExpression (function : Expression)
    (arguments : list Expression) (env : nat) : M Value :=
  do func ← ev (NExpression function) env;
  do args ← eval_list arguments env;
  apply_function func args.

(** [Evaluator.eval]: the dispatch on the class of the node. *)
Definition dispatch (node : Node) (env : nat) : M Value :=
  match node with
  | NProgram p => eval_Program p env
  | NBlock b => eval_BlockStatement b env
  | NStatement s =>
      match s with
      | LetStatement name value => eval_LetStatement name value env
      | ConstStatement name value => eval_ConstStatement name value env
      | AssignStatement name operator value =>
          eval_AssignStatement name operator value env
      | IndexAssignStatement object index value =>
          eval_IndexAssignStatement object index value env
      | ExpressionStatement expression =>
          eval_ExpressionStatement expression env
      | ReturnStatement value => eval_ReturnStatement value env
      | WhileStatement condition body =>
          eval_WhileStatement condition body env
      | ForStatement variable iterable body =>
          eval_ForStatement variable iterable body env
      | BreakStatement => eval_BreakStatement env
      | ContinueStatement => eval_ContinueStatement env
      | FunctionStatement name parameters body =>
          eval_FunctionStatement name parameters body env
      end
  | NExpression e =>
      match e with
      | IntegerLiteral value => mret (VInt value)
      | FloatLiteral value => mret (VFloat value)
      | StringLiteral value => mret (VStr value)
      | BooleanLiteral value => mret (VBool value)
      | NullLiteral => mret VNone
      | ArrayLiteral elements => eval_ArrayLiteral elements env
      | DictLiteral pairs => eval_DictLiteral pairs env
      | Identifier name => eval_Identifier name env
      | IndexExpression object index =>
          eval_IndexExpression object index env
      | BinaryOp operator lhs rhs => eval_BinaryOp operator lhs rhs env
      | UnaryOp operator operand => eval_UnaryOp operator operand env
      | FunctionLiteral parameters body name =>
          eval_FunctionLiteral parameters body name env
      | CallExpression function arguments =>
          eval_CallExpression function arguments env
      | IfExpression condition consequence alternative =>
          eval_IfExpression condition consequence alternative env
      end
  end.

End Methods.

(** [eval fuel node env]: [fuel] bounds the nesting of calls to
    [self.eval]; a loop at nesting depth [d] may run [fuel - d] rounds. *)
Fixpoint eval (fuel : nat) (node : Node) (env : nat) : M Value :=
  match fuel with
  | O => out_of_fuel
  | S k => dispatch (eval k) k node env
  end.

End Evaluator.

(* ================================================================== *)
(** ** The entry points: [evaluate] (evaluator.py) and [run_source]
       (kira.py) *)
(* ================================================================== *)

Section Driver.
Context `{PyHost}.

(** [Environment()] of the entry points: the first instance, index 0. *)
Definition global_env : nat := 0%nat.

Definition initial_state (w : World) : State :=
  mkState [new_Environment None] [] w.

(** [parse(source)] of parser.py. *)
Definition parse (fuel : nat) (source : string) : Outcome Program :=
  match tokenize source with
  | Normal tokens => parse_program tokens fuel
  | Raise e => Raise e
  | OutOfFuel => OutOfFuel
  end.

(** [evaluate(source)]: the value of the program, or the exception that
    escapes, with the final state. *)
Definition evaluate (fuel : nat) (source : string) (w : World)
    : Outcome Value * State :=
  match parse fuel source with
  | Normal program => eval fuel (NProgram program) global_env (initial_state w)
  | Raise e => (Raise e, initial_state w)
  | OutOfFuel => (OutOfFuel, initial_state w)
  end.

(** [str(e)] of an exception, as [print] formats it. *)
Definition exn_str (h : list Object) (e : exn) : string :=
  match e with
  | LexerError message l c =>
      "Lexer error at line " +++ str_of_Z l +++ ", column " +++ str_of_Z c
      +++ ": " +++ message
  | ParserError message token =>
      "Parse error at line " +++ str_of_Z (line token) +++ ": " +++ message
  | KiraRuntimeError message => message
  | ReturnValue v => py_str h v
  | BreakSignal => ""
  | ContinueSignal => ""
  | PyExc _ message => message
  end.

(** The four [except] clauses of [run_source], in their order; each one
    prints and the function returns 1. *)
Definition report (h : list Object) (e : exn) : list string :=
  match e with
  | LexerError message l c =>
      [ "Lexer Error at line " +++ str_of_Z l +++ ", column "
        +++ str_of_Z c +++ ":";
        "  " +++ message ]
  | ParserError message token =>
      [ "Parse Error at line " +++ str_of_Z (line token) +++ ":";
        "  " +++ message ]
  | KiraRuntimeError _ => [ "Runtime Error: " +++ exn_str h e ]
  | _ => [ "Internal Error: " +++ exn_str h e ]
  end.

Definition print_lines (ls : list string) (w : World) : World :=
  mkWorld (stdout w ++ ls) (stdin w).

(** [run_source source]: the exit status and the standard streams after
    the run; [None] when the budget does not suffice. *)
Definition run_source (fuel : nat) (source : string) (w : World)
    : option (Z * World) :=
  match evaluate fuel source w with
  | (Normal _, σ) => Some (0, world σ)
  | (Raise e, σ) => Some (1, print_lines (report (heap σ) e) (world σ))
  | (OutOfFuel, _) => None
  end.

End Driver.

(* ================================================================== *)
(** ** A host to run programs on *)
(* ================================================================== *)

(** The properties below hold for every [PyHost].  To run concrete
    programs one host is fixed here.  Its floats follow IEEE 754
    (binary64, round to nearest even) for literals, [+], [-], [*], [/],
    negation and comparisons, with Python's exact comparison and
    correctly rounded conversion between ints and floats.  What it does
    not interpret ([%] and [**] on floats, complex arithmetic, the text
    of a float or of a container, [%]-formatting and the bodies of the
    built-ins) answers [NotImplementedError] or a placeholder text; no
    program below reaches any of it. *)
Module SampleHost.

Definition not_interpreted {A} (what : string) : host_result A :=
  inl (NotImplementedError, what).

Definition float_of_Z (n : Z) : float :=
  SF2Prim (binary_normalize prec emax n 0 false).

Definition is_finite (f : float) : bool :=
  negb (PrimFloat.is_nan f) && negb (PrimFloat.is_infinity f).

(** [float(n)] of an int. *)
Definition to_float (x : Num) : host_result float :=
  match x with
  | NInt n =>
      let f := float_of_Z n in
      if is_finite f then inr f
      else inl (OverflowError, "int too large to convert to float")
  | NFloat f => inr f
  | NComplex _ _ => not_interpreted "complex"
  end.

(** The quotient of two integers, rounded once. *)
Definition div_Z (a b : Z) : float :=
  let sf (n : Z) :=
    match n with
    | Z0 => S754_zero false
    | Zpos p => S754_finite false p 0
    | Zneg p => S754_finite true p 0
    end in
  SF2Prim (SFdiv prec emax (sf a) (sf b)).

Fixpoint split_at_dot (cs : list ascii) : list ascii * list ascii :=
  match cs with
  | [] => ([], [])
  | c :: r =>
      if Ascii.eqb c "." then ([], r)
      else let '(a, b) := split_at_dot r in (c :: a, b)
  end.

Definition float_of_literal (s : string) : float :=
  let '(ip, fp) := split_at_dot (chars_of_str s) in
  div_Z (digits_value 0 (ip ++ fp)) (10 ^ Z.of_nat (length fp)).

Definition num_binop (op : string) (x y : Num) : host_result Num :=
  match x, y with
  | NComplex _ _, _ | _, NComplex _ _ => not_interpreted "complex"
  | NInt a, NInt b =>
      if String.eqb op "/" then
        let f := div_Z a b in
        if is_finite f then inr (NFloat f)
        else inl (OverflowError,
                  "integer division result too large for a float")
      else not_interpreted op
  | _, _ =>
      match to_float x, to_float y with
      | inr a, inr b =>
          if String.eqb op "+" then inr (NFloat (a + b)%float)
          else if String.eqb op "-" then inr (NFloat (a - b)%float)
          else if String.eqb op "*" then inr (NFloat (a * b)%float)
          else if String.eqb op "/" then inr (NFloat (a / b)%float)
          else not_interpreted op
      | inl e, _ => inl e
      | _, inl e => inl e
      end
  end.

(** The exact order between a float and an int. *)
Definition compare_float_Z (f : float) (n : Z) : option comparison :=
  match Prim2SF f with
  | S754_nan => None
  | S754_infinity s => Some (if s then Lt else Gt)
  | S754_zero _ => Some (0 ?= n)
  | S754_finite s m e =>
      let v := if s then Zneg m else Zpos m in
      Some (if 0 <=? e then (v * 2 ^ e ?= n) else (v ?= n * 2 ^ (- e)))
  end.

Definition num_compare (x y : Num) : option comparison :=
  match x, y with
  | NInt a, NInt b => Some (a ?= b)
  | NFloat a, NInt b => compare_float_Z a b
  | NInt a, NFloat b => option_map CompOpp (compare_float_Z b a)
  | NFloat a, NFloat b =>
      match PrimFloat.compare a b with
      | FEq => Some Eq
      | FLt => Some Lt
      | FGt => Some Gt
      | FNotComparable => None
      end
  | _, _ => None
  end.

Definition num_eqb (x y : Num) : bool :=
  match x, y with
  | NComplex a b, NComplex c d => PrimFloat.eqb a c && PrimFloat.eqb b d
  | NComplex a b, _ =>
      PrimFloat.eqb b 0 && bool_decide (num_compare (NFloat a) y = Some Eq)
  | _, NComplex a b =>
      PrimFloat.eqb b 0 && bool_decide (num_compare x (NFloat a) = Some Eq)
  | _, _ => bool_decide (num_compare x y = Some Eq)
  end.

Definition num_ltb (x y : Num) : bool :=
  bool_decide (num_compare x y = Some Lt).

Definition num_leb (x y : Num) : bool :=
  bool_decide (num_compare x y = Some Lt)
  || bool_decide (num_compare x y = Some Eq).

Definition num_neg (x : Num) : Num :=
  match x with
  | NInt n => NInt (- n)
  | NFloat f => NFloat (- f)%float
  | NComplex re im => NComplex (- re)%float (- im)%float
  end.

(** [str(v)]: exact on [None], bools, ints and strings. *)
Definition py_str (h : list Object) (v : Value) : string :=
  match v with
  | VNone => "None"
  | VBool b => py_bool_str b
  | VInt n => str_of_Z n
  | VStr s => s
  | _ => "<" +++ type_name v +++ ">"
  end.

Definition call_builtin (name : string) (args : list Value)
    (h : list Object) (w : World) : Outcome Value * list Object * World :=
  (Raise (PyExc NotImplementedError ("builtin " +++ name)), h, w).

Definition host : PyHost :=
  Build_PyHost float_of_literal num_binop num_eqb num_ltb num_leb num_neg
    (λ _, "<float>") (λ _ _ _, not_interpreted "%") py_str call_builtin.

End SampleHost.

Definition empty_world : World := mkWorld [] [].

(* ================================================================== *)
(** ** builtins.py: functions of the registry *)
(* ================================================================== *)

(** A builtin runs on the heap and the streams and leaves the scopes
    alone; [apply_function] calls it on the evaluated arguments. *)
Definition Builtin : Type :=
  list Object → World → Outcome Value * list Object * World.

Definition builtin_return (v : Value) : Builtin := λ h w, (Normal v, h, w).
Definition builtin_raise (e : exn) : Builtin := λ h w, (Raise e, h, w).

(** ['a'], ['a' and 'b'], ['a', 'b', and 'c']: the names in the host's
    message about missing arguments. *)
Fixpoint name_list_tail (names : list string) : string :=
  match names with
  | [] => ""
  | [x] => ", and " +++ quoted x
  | x :: rest => ", " +++ quoted x +++ name_list_tail rest
  end.

Definition name_list (names : list string) : string :=
  match names with
  | [] => ""
  | [x] => quoted x
  | [x; y] => quoted x +++ " and " +++ quoted y
  | x :: rest => quoted x +++ name_list_tail rest
  end.

Definition plural (n : nat) : string := if (n =? 1)%nat then "" else "s".

(** The message of the host's [TypeError] for a call of
    [def fname(params)] with [given] positional arguments, where [given]
    is not the number of parameters. *)
Definition arity_message (fname : string) (params : list string)
    (given : nat) : string :=
  if (given <? length params)%nat then
    let missing := drop given params in
    fname +++ "() missing " +++ str_of_nat (length missing)
    +++ " required positional argument" +++ plural (length missing)
    +++ ": " +++ name_list missing
  else
    fname +++ "() takes " +++ str_of_nat (length params)
    +++ " positional argument" +++ plural (length params) +++ " but "
    +++ str_of_nat given
    +++ (if (given =? 1)%nat then " was given" else " were given").

Definition arity_error (fname : string) (params : list string) (given : nat)
    : exn :=
  PyExc TypeError (arity_message fname params given).

(** A new list object; its reference is the next index of the heap. *)
Definition builtin_new_list (items : list Value) : Builtin := λ h w,
  (Normal (VList (length h)), h ++ [ListObj items], w).

Definition builtin_len (args : list Value) : Builtin := λ h w,
  match args with
  | [obj] =>
      match obj with
      | VStr s => builtin_return (VInt (Z.of_nat (String.length s))) h w
      | VList l =>
          builtin_return (VInt (Z.of_nat (length (list_items h l)))) h w
      | VDict l =>
          builtin_return (VInt (Z.of_nat (length (dict_entries h l)))) h w
      | _ =>
          builtin_raise (KiraRuntimeError ("len() not supported for "
                                           +++ type_name obj)) h w
      end
  | _ => builtin_raise (arity_error "builtin_len" ["obj"] (length args)) h w
  end.

Definition builtin_type (args : list Value) : Builtin :=
  match args with
  | [obj] =>
      builtin_return
        (VStr match obj with
              | VNone => "null"
              | VBool _ => "boolean"
              | VInt _ => "integer"
              | VFloat _ => "float"
              | VStr _ => "string"
              | VList _ => "array"
              | VDict _ => "dict"
              | VBuiltin _ => "builtin"
              | VFunction _ _ _ _ => "function"
              | VComplex _ _ => "unknown"
              end)
  | _ => builtin_raise (arity_error "builtin_type" ["obj"] (length args))
  end.

Definition builtin_push (args : list Value) : Builtin := λ h w,
  match args with
  | [arr; value] =>
      match arr with
      | VList l =>
          (Normal arr, <[l := ListObj (list_items h l ++ [value])]> h, w)
      | _ => builtin_raise (KiraRuntimeError "push() requires an array") h w
      end
  | _ =>
      builtin_raise (arity_error "builtin_push" ["arr"; "value"]
                                 (length args)) h w
  end.

Definition builtin_pop (args : list Value) : Builtin := λ h w,
  match args with
  | [arr] =>
      match arr with
      | VList l =>
          let items := list_items h l in
          match last items with
          | None => builtin_raise (KiraRuntimeError "pop() on empty array") h w
          | Some v =>
              (Normal v,
               <[l := ListObj (take (pred (length items)) items)]> h, w)
          end
      | _ => builtin_raise (KiraRuntimeError "pop() requires an array") h w
      end
  | _ => builtin_raise (arity_error "builtin_pop" ["arr"] (length args)) h w
  end.

Definition builtin_first (args : list Value) : Builtin := λ h w,
  match args with
  | [arr] =>
      match arr with
      | VList l =>
          match list_items h l with
          | [] => builtin_raise (KiraRuntimeError "first() on empty array") h w
          | v :: _ => builtin_return v h w
          end
      | _ => builtin_raise (KiraRuntimeError "first() requires an array") h w
      end
  | _ => builtin_raise (arity_error "builtin_first" ["arr"] (length args)) h w
  end.

Definition builtin_last (args : list Value) : Builtin := λ h w,
  match args with
  | [arr] =>
      match arr with
      | VList l =>
          match last (list_items h l) with
          | None => builtin_raise (KiraRuntimeError "last() on empty array") h w
          | Some v => builtin_return v h w
          end
      | _ => builtin_raise (KiraRuntimeError "last() requires an array") h w
      end
  | _ => builtin_raise (arity_error "builtin_last" ["arr"] (length args)) h w
  end.

Definition builtin_rest (args : list Value) : Builtin := λ h w,
  match args with
  | [arr] =>
      match arr with
      | VList l => builtin_new_list (drop 1 (list_items h l)) h w
      | _ => builtin_raise (KiraRuntimeError "rest() requires an array") h w
      end
  | _ => builtin_raise (arity_error "builtin_rest" ["arr"] (length args)) h w
  end.

Definition builtin_reversed (args : list Value) : Builtin := λ h w,
  match args with
  | [arr] =>
      match arr with
      | VList l => builtin_new_list (reverse (list_items h l)) h w
      | _ =>
          builtin_raise (KiraRuntimeError "reversed() requires an array") h w
      end
  | _ =>
      builtin_raise (arity_error "builtin_reversed" ["arr"] (length args)) h w
  end.

Definition builtin_keys (args : list Value) : Builtin := λ h w,
  match args with
  | [d] =>
      match d with
      | VDict l => builtin_new_list (map fst (dict_entries h l)) h w
      | _ => builtin_raise (KiraRuntimeError "keys() requires a dict") h w
      end
  | _ => builtin_raise (arity_error "builtin_keys" ["d"] (length args)) h w
  end.

Definition builtin_values (args : list Value) : Builtin := λ h w,
  match args with
  | [d] =>
      match d with
      | VDict l => builtin_new_list (map snd (dict_entries h l)) h w
      | _ => builtin_raise (KiraRuntimeError "values() requires a dict") h w
      end
  | _ => builtin_raise (arity_error "builtin_values" ["d"] (length args)) h w
  end.

Definition builtin_abs (args : list Value) : Builtin :=
  match args with
  | [x] =>
      match x with
      | VBool b => builtin_return (VInt (if b then 1 else 0))
      | VInt n => builtin_return (VInt (Z.abs n))
      | VFloat f => builtin_return (VFloat (PrimFloat.abs f))
      | _ => builtin_raise (KiraRuntimeError "abs() requires a number")
      end
  | _ => builtin_raise (arity_error "builtin_abs" ["x"] (length args))
  end.

(** [range]: the arguments are read as integers in their order (a bool
    is one), then a zero step is refused. *)
Definition range_index (v : Value) : exn + Z :=
  match as_int v with
  | Some n => inr n
  | None =>
      inl (PyExc TypeError ("'" +++ type_name v
                            +++ "' object cannot be interpreted as an integer"))
  end.

Definition range_length (start stop step : Z) : Z :=
  if 0 <? step then
    if start <? stop then (stop - start - 1) / step + 1 else 0
  else
    if stop <? start then (start - stop - 1) / (- step) + 1 else 0.

Fixpoint range_from (n : nat) (start step : Z) : list Z :=
  match n with
  | O => []
  | S n' => start :: range_from n' (start + step) step
  end.

Definition range_items (start stop step : Z) : list Value :=
  map VInt (range_from (Z.to_nat (range_length start stop step)) start step).

Definition builtin_range (args : list Value) : Builtin :=
  match args with
  | [a] =>
      match range_index a with
      | inl e => builtin_raise e
      | inr stop => builtin_new_list (range_items 0 stop 1)
      end
  | [a; b] =>
      match range_index a, range_index b with
      | inl e, _ => builtin_raise e
      | _, inl e => builtin_raise e
      | inr start, inr stop => builtin_new_list (range_items start stop 1)
      end
  | [a; b; c] =>
      match range_index a, range_index b, range_index c with
      | inl e, _, _ => builtin_raise e
      | _, inl e, _ => builtin_raise e
      | _, _, inl e => builtin_raise e
      | inr start, inr stop, inr step =>
          if step =? 0 then
            builtin_raise (PyExc ValueError "range() arg 3 must not be zero")
          else builtin_new_list (range_items start stop step)
      end
  | _ => builtin_raise (KiraRuntimeError "range() takes 1 to 3 arguments")
  end.

Section Builtins.
Context `{PyHost}.

(** [str]: [kira_str] of the argument; [budget] bounds the descent into
    nested containers. *)
Definition builtin_str (budget : nat) (args : list Value) : Builtin := λ h w,
  match args with
  | [obj] =>
      match kira_str budget h obj with
      | Some s => builtin_return (VStr s) h w
      | None => (OutOfFuel, h, w)
      end
  | _ => builtin_raise (arity_error "builtin_str" ["obj"] (length args)) h w
  end.

(** [print]: one line, the arguments as [kira_str] prints them, joined
    by a space. *)
Definition builtin_print (budget : nat) (args : list Value) : Builtin :=
  λ h w,
  match all_some (map (kira_str budget h) args) with
  | Some strs =>
      (Normal VNone, h, mkWorld (stdout w ++ [str_join " " strs]) (stdin w))
  | None => (OutOfFuel, h, w)
  end.

Definition builtin_println (budget : nat) (args : list Value) : Builtin :=
  λ h w,
  match builtin_print budget args h w with
  | (Normal _, h', w') => (Normal VNone, h', w')
  | r => r
  end.

(** The entries of [BUILTINS] modelled here, by name. *)
Definition builtin_fn (budget : nat) (name : string)
    : option (list Value → Builtin) :=
  if String.eqb name "print" then Some (builtin_print budget)
  else if String.eqb name "println" then Some (builtin_println budget)
  else if String.eqb name "len" then Some builtin_len
  else if String.eqb name "type" then Some builtin_type
  else if String.eqb name "str" then Some (builtin_str budget)
  else if String.eqb name "range" then Some builtin_range
  else if String.eqb name "push" then Some builtin_push
  else if String.eqb name "pop" then Some builtin_pop
  else if String.eqb name "first" then Some builtin_first
  else if String.eqb name "last" then Some builtin_last
  else if String.eqb name "rest" then Some builtin_rest
  else if String.eqb name "reversed" then Some builtin_reversed
  else if String.eqb name "keys" then Some builtin_keys
  else if String.eqb name "values" then Some builtin_values
  else if String.eqb name "abs" then Some builtin_abs
  else None.

End Builtins.

(** The sample host with these builtins in place of its stand-in. *)
Module BuiltinsHost.

Definition call_builtin (budget : nat) (name : string) (args : list Value)
    (h : list Object) (w : World) : Outcome Value * list Object * World :=
  match @builtin_fn SampleHost.host budget name with
  | Some f => f args h w
  | None => SampleHost.call_builtin name args h w
  end.

Definition host (budget : nat) : PyHost :=
  Build_PyHost SampleHost.float_of_literal SampleHost.num_binop
    SampleHost.num_eqb SampleHost.num_ltb SampleHost.num_leb
    SampleHost.num_neg (λ _, "<float>")
    (λ _ _ _, SampleHost.not_interpreted "%") SampleHost.py_str
    (call_builtin budget).

End BuiltinsHost.

(* ================================================================== *)
(** * Properties of the interpreter *)
(* ================================================================== *)

(** ** Vocabulary of the statements *)

(** *** Environments over time

    [env_le e e']: the instance [e'] is [e] after some more calls of
    [set] and [assign]: same parent, no constant and no name lost, and
    the constants of [e] still bound as they were. *)
Definition env_le (e e' : Environment) : Prop :=
  parent e' = parent e
  ∧ constants e ⊆ constants e'
  ∧ dom (store e) ⊆ dom (store e')
  ∧ ∀ k, k ∈ constants e → store e' !! k = store e !! k.

(** Every environment of [σ] is still there in [σ'], grown. *)
Definition state_le (σ σ' : State) : Prop :=
  ∀ ρ e, envs σ !! ρ = Some e → ∃ e', envs σ' !! ρ = Some e' ∧ env_le e e'.

(** A computation that only grows the environments, whatever it
    returns or raises. *)
Definition preserving {A} (m : M A) : Prop :=
  ∀ σ r σ', m σ = (r, σ') → state_le σ σ'.

(** The host's operators leave the environments alone. *)
Definition heap_only {A} (m : M A) : Prop := ∀ σ, envs (m σ).2 = envs σ.

(** *** Exceptions *)

(** The three exceptions evaluator.py uses for control flow. *)
Definition is_signal (e : exn) : bool :=
  match e with
  | ReturnValue _ | BreakSignal | ContinueSignal => true
  | _ => false
  end.

(** The exceptions that leave the scanner: its own [LexerError], and the
    [ValueError] of the host's [int()] on the text of a literal. *)
Definition is_LexerError (e : exn) : bool :=
  match e with
  | LexerError _ _ _ => true
  | _ => false
  end.

Definition is_ValueError (e : exn) : bool :=
  match e with
  | PyExc ValueError _ => true
  | _ => false
  end.

(** *** Comparisons

    The kinds of operands for which the host orders two values: two real
    numbers (bools count), two strings or two lists. *)
Definition is_real (v : Value) : bool :=
  match v with
  | VBool _ | VInt _ | VFloat _ => true
  | _ => false
  end.

Definition is_list (v : Value) : bool :=
  match v with VList _ => true | _ => false end.

Definition ordered_kinds (a b : Value) : bool :=
  (is_real a && is_real b) || (is_str a && is_str b)
  || (is_list a && is_list b).

(** *** Scopes *)

(** The bindings [zip(parameters, args)] leaves in a store. *)
Fixpoint bind_store (parameters : list string) (args : list Value)
    (m : gmap string Value) : gmap string Value :=
  match parameters, args with
  | p :: ps, a :: rest => bind_store ps rest (<[p := a]> m)
  | _, _ => m
  end.

(** [k] is a constant of scope [ρ], bound there to [v]. *)
Definition const_bound (σ : State) (ρ : nat) (k : string) (v : Value)
    : Prop :=
  ∃ e, envs σ !! ρ = Some e ∧ k ∈ constants e ∧ store e !! k = Some v.

(** The statements that write to the name [k] in the current scope. *)
Definition writes_to (k : string) (s : Statement) : Prop :=
  ∃ e, s = AssignStatement k "=" e ∨ s = AssignStatement k "+=" e
       ∨ s = AssignStatement k "-=" e ∨ s = LetStatement k e
       ∨ s = ConstStatement k e.

(** [x] is bound to [v] in the store of scope [ρ] itself. *)
Definition binds (σ : State) (ρ : nat) (x : string) (v : Value) : Prop :=
  ∃ e, envs σ !! ρ = Some e ∧ store e !! x = Some v.

Definition bound_in (σ : State) (ρ : nat) (x : string) : Prop :=
  ∃ v, binds σ ρ x v.

(** The scope in which [assign] finds a name, walking up from [env]. *)
Fixpoint binding_scope_from (n : nat) (es : list Environment) (env : nat)
    (name : string) : option nat :=
  match n with
  | O => None
  | S n' =>
      match es !! env with
      | None => None
      | Some e =>
          match store e !! name with
          | Some _ => Some env
          | None =>
              match parent e with
              | Some p => binding_scope_from n' es p name
              | None => None
              end
          end
      end
  end.

(** An assignment to [k] carried out from scope [ρ'] targets the binding
    of scope [ρ]: walking up from [ρ'], as [Environment.assign] does,
    [ρ] is the first scope that binds [k].  From [ρ] itself it always
    does; from the scope of a call, whose chain leads to [ρ], it does
    unless a scope on the way binds [k] as well. *)
Definition targets (σ : State) (ρ' : nat) (k : string) (ρ : nat) : Prop :=
  binding_scope_from (S ρ') (envs σ) ρ' k = Some ρ.

(** The operators of an assignment statement. *)
Definition assignment_operators : list string := ["="; "+="; "-="].

(** *** Loops *)

(** The item at position [i] of an iterable in the state [σ]: the
    element of a list, the key of a dict (in insertion order), the
    character of a string. *)
Definition nth_item (iterable : Value) (σ : State) (i : nat)
    : option Value :=
  match iterable with
  | VList l => list_items (heap σ) l !! i
  | VDict l => fst <$> dict_entries (heap σ) l !! i
  | VStr s => (λ c, VStr (str1 c)) <$> chars_of_str s !! i
  | _ => None
  end.

(** [rounds ev x body ρ iterable i σ σ']: from [σ], the rounds for the
    positions [0] to [i - 1] ran one after the other and ended in [σ'];
    each began by setting [x], in scope [ρ], to the item then at its
    position, and none ended by [break]. *)
Inductive rounds (ev : Node → nat → M Value) (x : string) (body : Block)
    (ρ : nat) (iterable : Value) : nat → State → State → Prop :=
| rounds_none σ : rounds ev x body ρ iterable 0 σ σ
| rounds_next i σ σa item σb σc :
    rounds ev x body ρ iterable i σ σa →
    nth_item iterable σa i = Some item →
    Environment_set ρ x item false σa = (Normal item, σb) →
    loop_body ev body ρ σb = (Normal true, σc) →
    rounds ev x body ρ iterable (S i) σ σc.

(** The loop that went from [σ] to [σ'] ended with the round for
    position [i]: the rounds before it ran from [σ]; this one began by
    setting [x] to [item], the item then at position [i], which gave
    [σb]; its body went from [σb] to [σ'] and ended by [break] or with
    no item left at position [i + 1]. *)
Definition last_round (ev : Node → nat → M Value) (x : string)
    (body : Block) (ρ : nat) (iterable : Value) (σ σ' : State)
    (i : nat) (item : Value) (σb : State) : Prop :=
  ∃ σa go,
    rounds ev x body ρ iterable i σ σa
    ∧ nth_item iterable σa i = Some item
    ∧ Environment_set ρ x item false σa = (Normal item, σb)
    ∧ loop_body ev body ρ σb = (Normal go, σ')
    ∧ (go = true → nth_item iterable σ' (S i) = None).

(** *** The scanner *)

(** The number of characters the scanner has not consumed. *)
Definition left_to_scan (lx : Lexer) : nat := length (remaining lx).

(** What one call of [next_token] can do: return a token without
    stepping back, having consumed something unless the token is EOF;
    or raise one of the two exceptions. *)
Definition token_step (lx : Lexer) (r : Outcome (Token * Lexer)) : Prop :=
  match r with
  | Normal (tok, lx') =>
      (left_to_scan lx' ≤ left_to_scan lx)%nat
      ∧ (type tok ≠ EOF → (left_to_scan lx' < left_to_scan lx)%nat)
  | Raise e => is_LexerError e || is_ValueError e = true
  | OutOfFuel => False
  end.

(** A token list that is not empty, ends with an EOF token and holds no
    NEWLINE token. *)
Definition well_ended (tokens : list Token) : Prop :=
  ∃ front tok,
    tokens = front ++ [tok] ∧ type tok = EOF
    ∧ Forall (λ t, type t ≠ NEWLINE) tokens.

(** The one-character source U+00B2 (superscript two). *)
Definition superscript_two : string := str1 "178"%char.

(** *** Runs *)

Section Runs.
Context `{PyHost}.

(** [later σ σ']: [σ'] is reached from [σ] by evaluating nodes, any
    number of them, in any environments. *)
Inductive later : State → State → Prop :=
| later_now σ : later σ σ
| later_eval σ fuel node env r σ1 σ2 :
    eval fuel node env σ = (r, σ1) → later σ1 σ2 → later σ σ2.

End Runs.

(** The state a run on the sample host starts in, and the state after
    [const k = 1] at top level. *)
Definition start : State := initial_state empty_world.

Definition after_const : State :=
  (@eval SampleHost.host 5
     (NStatement (ConstStatement "k" (IntegerLiteral 1))) 0 start).2.

(** The state after the call [fn() { }()] made at top level once [k] is
    declared: the scope of the call, 1, has the global scope as
    parent. *)
Definition empty_call : Expression :=
  CallExpression (FunctionLiteral [] (BlockStatement []) None) [].

Definition after_call : State :=
  (@eval SampleHost.host 6 (NExpression empty_call) 0 after_const).2.

(** *** Vocabulary of the further properties *)

(** Every scope was created after its parent (as [Environment(parent)]
    makes it): the parent's index is the smaller one. *)
Definition parents_earlier (es : list Environment) : Prop :=
  ∀ ρ e p, es !! ρ = Some e → parent e = Some p → (p < ρ)%nat.

(** [e] with [name] bound to [v]. *)
Definition rebind (e : Environment) (name : string) (v : Value)
    : Environment :=
  mkEnvironment (<[name := v]> (store e)) (constants e) (parent e).

(** The integers the host prints: [str] and an f-string raise
    [ValueError] on an integer of more than [int_max_str_digits] digits
    (the sign does not count), and [str_of_Z] is their text up to that
    limit. *)
Definition int_prints (n : Z) : bool :=
  (String.length (str_of_Z (Z.abs n)) <=? int_max_str_digits)%nat.

(** The values [kira_str] prints without consulting the heap or the
    host's number formatting, and what it prints for them: [null], the
    booleans, the strings and the integers the host prints. *)
Definition is_plain (v : Value) : bool :=
  match v with
  | VNone | VBool _ | VStr _ => true
  | VInt n => int_prints n
  | _ => false
  end.

Definition plain_str (v : Value) : string :=
  match v with
  | VNone => "null"
  | VBool b => if b then "true" else "false"
  | VInt n => str_of_Z n
  | VStr s => s
  | _ => ""
  end.

Definition is_loop_signal (e : exn) : bool :=
  match e with
  | BreakSignal | ContinueSignal => true
  | _ => false
  end.

Definition is_ReturnValue (e : exn) : bool :=
  match e with
  | ReturnValue _ => true
  | _ => false
  end.

Definition is_callable (v : Value) : bool :=
  match v with
  | VBuiltin _ | VFunction _ _ _ _ => true
  | _ => false
  end.

Definition is_iterable (v : Value) : bool :=
  match v with
  | VList _ | VDict _ | VStr _ => true
  | _ => false
  end.

(** A character on which [str.isdigit] and [int()] agree: among the
    characters of this development, which are those with a code point
    below 256, every one but the three superscript digits. *)
Definition digit_is_decimal (c : ascii) : Prop :=
  isdigit c = true → isdecimal c = true.

(** What is left to scan holds no superscript digit and is no longer than
    the host's limit on the digits of an integer literal. *)
Definition plain_rest (lx : Lexer) : Prop :=
  Forall digit_is_decimal (remaining lx)
  ∧ (length (remaining lx) ≤ int_max_str_digits)%nat.

(** The text [read_number] collects, on such a rest: decimal digits and
    at most one dot, and no more characters than were there. *)
Definition number_text (res : list ascii) (has_dot : bool) (lx : Lexer)
    : Prop :=
  Forall (λ c, isdecimal c || ascii_eqb c "." = true) res
  ∧ (has_dot = false → Forall (λ c, isdecimal c = true) res)
  ∧ (length res + length (remaining lx) ≤ int_max_str_digits)%nat.

(** The token kinds [parse_infix_expression] is registered for. *)
Definition binary_operators : list TokenType :=
  [PLUS; MINUS; ASTERISK; SLASH; PERCENT; POWER;
   EQ; NOT_EQ; LT; GT; LT_EQ; GT_EQ; AND; OR].

(** The token kinds [parse_prefix_expression] is registered for. *)
Definition prefix_operators : list TokenType := [MINUS; NOT].

(** In [x o1 y o2 z], whether [y] goes to [o2]: the right operand of
    [o1] is parsed at the precedence of [o1], lowered by one for [**]. *)
Definition groups_right (o1 o2 : TokenType) : bool :=
  precedence_of o1 - (if TokenType_eqb o1 POWER then 1 else 0)
  <? precedence_of o2.

(** The token kinds a statement may start with though no expression
    does. *)
Definition statement_keywords : list TokenType :=
  [EOF; SEMICOLON; LET; CONST; RETURN; WHILE; FOR; BREAK; CONTINUE].

(** A character that stands for itself between the quotes [q]: not the
    quote, not a backslash, not a newline. *)
Definition literal_char (q c : ascii) : bool :=
  negb (ascii_eqb c q) && negb (ascii_eqb c chr_backslash)
  && negb (ascii_eqb c chr_newline).

Definition is_quote (q : ascii) : bool :=
  ascii_eqb q chr_dquote || ascii_eqb q chr_squote.

(** The characters of a name: a letter or an underscore first, then
    letters, digits and underscores. *)
Definition name_start (c : ascii) : bool := isalpha c || ascii_eqb c "_".
Definition name_char (c : ascii) : bool := isalnum c || ascii_eqb c "_".

(** The [value] of the token of a name: a bool for [true] and [false]. *)
Definition name_value (ty : TokenType) : token_value :=
  match ty with
  | TRUE => TokBool true
  | FALSE => TokBool false
  | _ => TokNone
  end.

(** The builtins with a fixed number of parameters: the name in the
    registry, the name of the function and its parameters. *)
Definition builtin_signatures : list (string * (string * list string)) :=
  [ ("len", ("builtin_len", ["obj"])); ("type", ("builtin_type", ["obj"]));
    ("str", ("builtin_str", ["obj"]));
    ("push", ("builtin_push", ["arr"; "value"]));
    ("pop", ("builtin_pop", ["arr"])); ("first", ("builtin_first", ["arr"]));
    ("last", ("builtin_last", ["arr"])); ("rest", ("builtin_rest", ["arr"]));
    ("reversed", ("builtin_reversed", ["arr"]));
    ("keys", ("builtin_keys", ["d"])); ("values", ("builtin_values", ["d"]));
    ("abs", ("builtin_abs", ["x"])) ].

(** A text without a newline: printed, it is one line. *)
Definition one_line (s : string) : bool :=
  forallb (λ c, negb (ascii_eqb c chr_newline)) (chars_of_str s).

(** A value that is not a string with a newline in it. *)
Definition no_newline (v : Value) : bool :=
  match v with
  | VStr s => one_line s
  | _ => true
  end.

(** A global scope and the scope of a call made from it. *)
Definition two_scopes : State :=
  mkState [new_Environment None; new_Environment (Some 0%nat)] [] empty_world.

(** The state after [set('x', 1)] on the global scope. *)
Definition after_set : State :=
  (Environment_set 0 "x" (VInt 1) false start).2.

(** The array [[10, 20]] as a literal, and the state after evaluating
    it. *)
Definition two_items : Expression :=
  ArrayLiteral [IntegerLiteral 10; IntegerLiteral 20].

Definition after_two_items : State :=
  (@eval SampleHost.host 5 (NExpression two_items) 0 start).2.

(** The function [fn() { break }] as a literal. *)
Definition breaker : Expression :=
  FunctionLiteral [] (BlockStatement [BreakStatement]) None.

(** A token of each kind used below, at line 1, column 1. *)
Definition tok (ty : TokenType) (lit : string) : Token :=
  mkToken ty lit TokNone 1 1.

(** ** Tactics *)

(** Unfolds the monad's operations down to functions on states. *)
Ltac munfold :=
  cbv beta iota zeta delta
    [bind M_Bind mbind M_mbind mret M_mret M_bind M_ret raise out_of_fuel
     get_heap truthy try_except lift_outcome] in *.

(** Case analysis on the next computation a hypothesis is stuck on. *)
Ltac case_step :=
  match goal with
  | H : context [match ?m ?σ with (_, _) => _ end] |- _ =>
      let o := fresh "o" in let σ1 := fresh "σ" in let E := fresh "E" in
      destruct (m σ) as [o σ1] eqn:E; destruct o
  | H : context [match ?m with (_, _) => _ end] |- _ =>
      let o := fresh "o" in let σ1 := fresh "σ" in let E := fresh "E" in
      destruct m as [o σ1] eqn:E; destruct o
  | H : context [if ?b then _ else _] |- _ =>
      let E := fresh "E" in destruct b eqn:E
  | H : context [match ?x with Some _ => _ | None => _ end] |- _ =>
      let E := fresh "E" in destruct x eqn:E
  end.

Ltac done_eq := try discriminate; try (simplify_eq; eauto; fail).

(** ** Environments only grow *)

Lemma env_le_refl e : env_le e e.
Proof. unfold env_le. naive_solver. Qed.

Lemma env_le_trans e1 e2 e3 : env_le e1 e2 → env_le e2 e3 → env_le e1 e3.
Proof.
  unfold env_le. intros (P1 & C1 & D1 & V1) (P2 & C2 & D2 & V2).
  repeat split; [congruence | set_solver | set_solver |].
  intros k Hk. rewrite V2 by set_solver. auto.
Qed.

Lemma state_le_refl σ : state_le σ σ.
Proof. intros ρ e He. eauto using env_le_refl. Qed.

Lemma state_le_trans σ1 σ2 σ3 :
  state_le σ1 σ2 → state_le σ2 σ3 → state_le σ1 σ3.
Proof.
  intros H12 H23 ρ e He. destruct (H12 _ _ He) as (e2 & He2 & L12).
  destruct (H23 _ _ He2) as (e3 & He3 & L23). eauto using env_le_trans.
Qed.

Lemma state_le_same_envs σ σ' : envs σ' = envs σ → state_le σ σ'.
Proof. intros E ρ e He. rewrite E. eauto using env_le_refl. Qed.

Lemma state_le_update σ ρ e e' :
  envs σ !! ρ = Some e → env_le e e' →
  state_le σ (set_envs σ (<[ρ := e']> (envs σ))).
Proof.
  intros He Hle ρ' e0 He0. cbn [set_envs envs].
  destruct (decide (ρ = ρ')) as [->|Hne].
  - exists e'. split; [|congruence].
    apply list_lookup_insert_eq. eapply lookup_lt_Some; eauto.
  - exists e0. split; [|apply env_le_refl].
    rewrite list_lookup_insert_ne; auto.
Qed.

Section Preserving.
Context `{PyHost}.

Lemma preserving_ret {A} (a : A) : preserving (M_ret a).
Proof. intros σ r σ' E. injection E as _ <-. apply state_le_refl. Qed.

Lemma preserving_pure {A} (f : State → Outcome A) : preserving (λ σ, (f σ, σ)).
Proof. intros σ r σ' E. injection E as _ <-. apply state_le_refl. Qed.

Lemma preserving_bind {A B} (m : M A) (k : A → M B) :
  preserving m → (∀ a, preserving (k a)) → preserving (M_bind m k).
Proof.
  intros Hm Hk σ r σ' E. unfold M_bind in E.
  destruct (m σ) as [[a|e|] σ1] eqn:Em.
  - eapply state_le_trans; [eapply Hm | eapply Hk]; eauto.
  - injection E as _ <-. eauto.
  - injection E as _ <-. eauto.
Qed.

Lemma preserving_try {A} (m : M A) (h : exn → M A) :
  preserving m → (∀ e, preserving (h e)) → preserving (try_except m h).
Proof.
  intros Hm Hh σ r σ' E. unfold try_except in E.
  destruct (m σ) as [[a|e|] σ1] eqn:Em.
  - injection E as _ <-. eauto.
  - eapply state_le_trans; [eapply Hm | eapply Hh]; eauto.
  - injection E as _ <-. eauto.
Qed.

Lemma preserving_heap {A} (m : M A) :
  (∀ σ, envs (m σ).2 = envs σ) → preserving m.
Proof.
  intros Hm σ r σ' E. apply state_le_same_envs.
  specialize (Hm σ). rewrite E in Hm. exact Hm.
Qed.

Lemma preserving_set (env : nat) (name : string) (v : Value) (c : bool) :
  preserving (Environment_set env name v c).
Proof.
  intros σ r σ' E. unfold Environment_set in E.
  destruct (envs σ !! env) as [e|] eqn:He.
  - destruct (bool_decide (name ∈ constants e)) eqn:Hc.
    + injection E as _ <-. apply state_le_refl.
    + injection E as _ <-. apply state_le_update with e; [done|].
      apply bool_decide_eq_false in Hc.
      unfold env_le; cbn. repeat split.
      * destruct c; set_solver.
      * rewrite dom_insert_L. set_solver.
      * intros k Hk. apply lookup_insert_ne. congruence.
  - injection E as _ <-. apply state_le_refl.
Qed.

Lemma preserving_assign (n : nat) (env : nat) (name : string) (v : Value) :
  preserving (Environment_assign_from n env name v).
Proof.
  revert env. induction n as [|n IH]; intros env σ r σ' E;
    cbn [Environment_assign_from] in E.
  - injection E as _ <-. apply state_le_refl.
  - destruct (envs σ !! env) as [e|] eqn:He;
      [|injection E as _ <-; apply state_le_refl].
    destruct (store e !! name) as [v0|] eqn:Hs.
    + destruct (bool_decide (name ∈ constants e)) eqn:Hc.
      * injection E as _ <-. apply state_le_refl.
      * injection E as _ <-. apply state_le_update with e; [done|].
        apply bool_decide_eq_false in Hc.
        unfold env_le; cbn. repeat split.
        -- set_solver.
        -- rewrite dom_insert_L. set_solver.
        -- intros k Hk. apply lookup_insert_ne. congruence.
    + destruct (parent e) as [p|].
      * eapply IH; eauto.
      * injection E as _ <-. apply state_le_refl.
Qed.

Lemma preserving_Environment_assign (env : nat) (name : string) (v : Value) :
  preserving (Environment_assign env name v).
Proof. apply preserving_assign. Qed.

Lemma preserving_alloc_env (p : option nat) : preserving (alloc_env p).
Proof.
  intros σ r σ' E. injection E as _ <-. intros ρ e He. cbn.
  exists e. split; [|apply env_le_refl]. apply lookup_app_l_Some. done.
Qed.

Lemma preserving_raise {A} (e : exn) : preserving (@raise A e).
Proof. apply preserving_heap. reflexivity. Qed.

Lemma preserving_out_of_fuel {A} : preserving (@out_of_fuel A).
Proof. apply preserving_heap. reflexivity. Qed.

Lemma preserving_get_heap : preserving get_heap.
Proof. apply preserving_heap. reflexivity. Qed.

Lemma preserving_alloc_obj o : preserving (alloc_obj o).
Proof. apply preserving_heap. reflexivity. Qed.

Lemma preserving_store_obj l o : preserving (store_obj l o).
Proof. apply preserving_heap. reflexivity. Qed.

Lemma preserving_env_get env name : preserving (env_get env name).
Proof. apply preserving_heap. reflexivity. Qed.

Lemma preserving_lift_outcome {A} (r : Outcome A) :
  preserving (lift_outcome r).
Proof. apply preserving_heap. reflexivity. Qed.

Lemma preserving_lift_host {A} (r : host_result A) :
  preserving (lift_host r).
Proof.
  apply preserving_heap. intros σ. destruct r as [[c m]|a]; reflexivity.
Qed.

Lemma preserving_call_builtin name args :
  preserving (call_BuiltinFunction name args).
Proof.
  apply preserving_heap. intros σ. unfold call_BuiltinFunction.
  destruct (call_builtin name args (heap σ) (world σ)) as [[r h'] w'].
  destruct r as [v|e|]; try reflexivity.
  destruct e; try reflexivity. destruct cls; reflexivity.
Qed.

Create HintDb pres discriminated.

#[local] Hint Resolve preserving_ret preserving_raise preserving_out_of_fuel
  preserving_get_heap preserving_alloc_obj preserving_store_obj
  preserving_env_get preserving_lift_outcome preserving_lift_host
  preserving_call_builtin preserving_set preserving_assign
  preserving_Environment_assign preserving_alloc_env : pres.

Ltac pres_norm :=
  cbv beta iota zeta delta
    [bind M_Bind mbind M_mbind mret M_mret type_error unhashable host_num
     truthy py_eq_M py_compare_M kira_str_M].

Ltac pres_step :=
  first
    [ solve [auto with pres]
    | apply preserving_bind; [|intros ?]
    | apply preserving_try; [|intros ?]
    | match goal with
      | |- preserving (match ?x with _ => _ end) => destruct x
      end ].

Ltac pres := pres_norm; repeat pres_step.

Lemma preserving_num_add x y : preserving (num_add x y).
Proof. unfold num_add. pres. Qed.
Lemma preserving_num_sub x y : preserving (num_sub x y).
Proof. unfold num_sub. pres. Qed.
Lemma preserving_num_mul x y : preserving (num_mul x y).
Proof. unfold num_mul. pres. Qed.
Lemma preserving_num_mod x y : preserving (num_mod x y).
Proof. unfold num_mod. pres. Qed.
Lemma preserving_num_pow x y : preserving (num_pow x y).
Proof. unfold num_pow. pres. Qed.

#[local] Hint Resolve preserving_num_add preserving_num_sub
  preserving_num_mul preserving_num_mod preserving_num_pow : pres.

Lemma preserving_py_add a b : preserving (py_add a b).
Proof. unfold py_add. pres. Qed.
Lemma preserving_py_sub a b : preserving (py_sub a b).
Proof. unfold py_sub. pres. Qed.
Lemma preserving_py_repeat a n : preserving (py_repeat a n).
Proof. unfold py_repeat. pres. Qed.
#[local] Hint Resolve preserving_py_repeat : pres.
Lemma preserving_py_mul a b : preserving (py_mul a b).
Proof. unfold py_mul. pres. Qed.
Lemma preserving_py_truediv a b : preserving (py_truediv a b).
Proof. unfold py_truediv. pres. Qed.
Lemma preserving_py_mod a b : preserving (py_mod a b).
Proof. unfold py_mod. pres. Qed.
Lemma preserving_py_pow a b : preserving (py_pow a b).
Proof. unfold py_pow. pres. Qed.
Lemma preserving_py_neg a : preserving (py_neg a).
Proof. unfold py_neg. pres. Qed.

#[local] Hint Resolve preserving_py_add preserving_py_sub preserving_py_mul
  preserving_py_truediv preserving_py_mod preserving_py_pow
  preserving_py_neg : pres.

(** The methods preserve the order when [self.eval] does. *)
Section Methods.
Variable ev : Node → nat → M Value.
Variable budget : nat.
Hypothesis Hev : ∀ node env, preserving (ev node env).
#[local] Hint Resolve Hev : pres.

Lemma preserving_statements stmts env r :
  preserving (eval_statements ev stmts env r).
Proof.
  revert r. induction stmts as [|s stmts IH]; intros r;
    cbn [eval_statements]; pres.
Qed.
#[local] Hint Resolve preserving_statements : pres.

Lemma preserving_loop_body body env : preserving (loop_body ev body env).
Proof. unfold loop_body. pres. Qed.
#[local] Hint Resolve preserving_loop_body : pres.

Lemma preserving_while n c body env :
  preserving (while_loop ev n c body env).
Proof. induction n as [|n IH]; cbn [while_loop]; pres. Qed.

Lemma preserving_for_round x item body env :
  preserving (for_round ev x item body env).
Proof. unfold for_round. pres. Qed.
#[local] Hint Resolve preserving_while preserving_for_round : pres.

Lemma preserving_for_list n x l i body env :
  preserving (for_list ev n x l i body env).
Proof. revert i. induction n as [|n IH]; intros i; cbn [for_list]; pres. Qed.

Lemma preserving_for_dict n x l used i body env :
  preserving (for_dict ev n x l used i body env).
Proof.
  revert i. induction n as [|n IH]; intros i; cbn [for_dict]; pres.
Qed.

Lemma preserving_for_str x cs body env :
  preserving (for_str ev x cs body env).
Proof. induction cs as [|c cs IH]; cbn [for_str]; pres. Qed.

Lemma preserving_eval_list es env : preserving (eval_list ev es env).
Proof. induction es as [|e es IH]; cbn [eval_list]; pres. Qed.

Lemma preserving_eval_pairs l pairs env :
  preserving (eval_pairs ev l pairs env).
Proof. induction pairs as [|[k v] pairs IH]; cbn [eval_pairs]; pres. Qed.

Lemma preserving_bind_parameters env ps args :
  preserving (bind_parameters env ps args).
Proof.
  revert args. induction ps as [|p ps IH]; intros [|a args];
    cbn [bind_parameters]; pres.
Qed.

#[local] Hint Resolve preserving_for_list preserving_for_dict
  preserving_for_str preserving_eval_list preserving_eval_pairs
  preserving_bind_parameters : pres.

Lemma preserving_apply_function func args :
  preserving (apply_function ev func args).
Proof. unfold apply_function. pres. Qed.
#[local] Hint Resolve preserving_apply_function : pres.

Lemma preserving_binary_operation op l r :
  preserving (binary_operation budget op l r).
Proof. unfold binary_operation. pres. Qed.
#[local] Hint Resolve preserving_binary_operation : pres.

Lemma preserving_dispatch node env :
  preserving (dispatch ev budget node env).
Proof.
  destruct node as [[stmts]|[stmts]|s|e]; cbn [dispatch].
  - unfold eval_Program. pres.
  - unfold eval_BlockStatement. pres.
  - destruct s;
      unfold eval_LetStatement, eval_ConstStatement, eval_AssignStatement,
        eval_IndexAssignStatement, eval_ExpressionStatement,
        eval_ReturnStatement, eval_WhileStatement, eval_ForStatement,
        eval_BreakStatement, eval_ContinueStatement,
        eval_FunctionStatement; pres.
  - destruct e;
      unfold eval_ArrayLiteral, eval_DictLiteral, eval_Identifier,
        eval_IndexExpression, eval_BinaryOp, eval_UnaryOp,
        eval_FunctionLiteral, eval_CallExpression, eval_IfExpression; pres.
Qed.

End Methods.

Theorem eval_preserving fuel node env : preserving (eval fuel node env).
Proof.
  revert node env. induction fuel as [|k IH]; intros node env.
  - apply preserving_out_of_fuel.
  - cbn [eval]. apply preserving_dispatch. exact IH.
Qed.

End Preserving.

(* ================================================================== *)
(** ** The evaluator *)
(* ================================================================== *)

Section Claims.
Context `{PyHost}.

Lemma eval_S (k : nat) (node : Node) (env : nat) :
  eval (S k) node env = dispatch (eval k) k node env.
Proof. reflexivity. Qed.

Lemma eval_Normal_fuel (k : nat) (node : Node) (env : nat) (σ σ' : State)
    (v : Value) :
  eval k node env σ = (Normal v, σ') → ∃ k', k = S k'.
Proof. destruct k; [discriminate | eauto]. Qed.

Lemma eval_statements_app (ev : Node → nat → M Value)
    (pre rest : list Statement) (env : nat) (r0 : Value) (σ : State) :
  eval_statements ev (pre ++ rest) env r0 σ =
    match eval_statements ev pre env r0 σ with
    | (Normal r, σ1) => eval_statements ev rest env r σ1
    | x => x
    end.
Proof.
  revert r0 σ. induction pre as [|s pre IH]; intros r0 σ; [reflexivity|].
  cbn [app eval_statements]. munfold.
  destruct (ev (NStatement s) env σ) as [[v|e|] σ1]; auto.
Qed.

(** *** Short-circuit operators *)

(** C4: [and] and [or] short-circuit and return the deciding operand
    itself.  When [a] evaluates to [v] (leaving state [σ']), [a and b] is
    [v] in [σ'] if [v] is falsy, whatever [b] is, and otherwise it is
    what [b] evaluates to from [σ']; dually for [a or b]. *)
Theorem logical_short_circuit (k : nat) (a b : Expression) (env : nat)
    (σ σ' : State) (v : Value) :
  eval k (NExpression a) env σ = (Normal v, σ') →
  eval (S k) (NExpression (BinaryOp "and" a b)) env σ =
    (if is_truthy (heap σ') v then eval k (NExpression b) env σ'
     else (Normal v, σ'))
  ∧ eval (S k) (NExpression (BinaryOp "or" a b)) env σ =
    (if is_truthy (heap σ') v then (Normal v, σ')
     else eval k (NExpression b) env σ').
Proof.
  intros Ha.
  split; rewrite eval_S; cbn [dispatch]; unfold eval_BinaryOp;
    cbn [String.eqb Ascii.eqb Bool.eqb]; munfold; rewrite Ha;
    destruct (is_truthy (heap σ') v); reflexivity.
Qed.

(** *** Values of statements *)

Lemma while_loop_None (ev : Node → nat → M Value) (n : nat)
    (c : Expression) (body : Block) (env : nat) (σ σ' : State) (r : Value) :
  while_loop ev n c body env σ = (Normal r, σ') → r = VNone.
Proof.
  revert σ. induction n as [|n IH]; intros σ Hw; cbn [while_loop] in Hw.
  - munfold. discriminate.
  - unfold loop_body in Hw. munfold.
    repeat (case_step; done_eq).
Qed.

Lemma for_list_None (ev : Node → nat → M Value) (n : nat) (x : string)
    (l i : nat) (body : Block) (env : nat) (σ σ' : State) (r : Value) :
  for_list ev n x l i body env σ = (Normal r, σ') → r = VNone.
Proof.
  revert σ i. induction n as [|n IH]; intros σ i Hw; cbn [for_list] in Hw.
  - munfold. discriminate.
  - unfold for_round, loop_body in Hw. munfold.
    repeat (case_step; done_eq).
Qed.

Lemma for_dict_None (ev : Node → nat → M Value) (n : nat) (x : string)
    (l used i : nat) (body : Block) (env : nat) (σ σ' : State) (r : Value) :
  for_dict ev n x l used i body env σ = (Normal r, σ') → r = VNone.
Proof.
  revert σ i. induction n as [|n IH]; intros σ i Hw; cbn [for_dict] in Hw.
  - munfold. discriminate.
  - unfold for_round, loop_body in Hw. munfold.
    repeat (case_step; done_eq).
Qed.

Lemma for_str_None (ev : Node → nat → M Value) (x : string)
    (cs : list ascii) (body : Block) (env : nat) (σ σ' : State) (r : Value) :
  for_str ev x cs body env σ = (Normal r, σ') → r = VNone.
Proof.
  revert σ. induction cs as [|c cs IH]; intros σ Hw; cbn [for_str] in Hw.
  - munfold. congruence.
  - unfold for_round, loop_body in Hw. munfold.
    repeat (case_step; done_eq).
Qed.

(** C2 (amended): a [let], [const] or assignment statement that completes
    yields the value of its right-hand side expression (for [+=] and [-=]
    too: the operand, not the updated value); a [while] or [for] loop
    that completes yields [null]. *)
Theorem statement_values (k : nat) (env : nat) (σ σ' : State) (r : Value) :
  (∀ name e,
     eval (S k) (NStatement (LetStatement name e)) env σ = (Normal r, σ') →
     ∃ σ1, eval k (NExpression e) env σ = (Normal r, σ1))
  ∧ (∀ name e,
     eval (S k) (NStatement (ConstStatement name e)) env σ = (Normal r, σ') →
     ∃ σ1, eval k (NExpression e) env σ = (Normal r, σ1))
  ∧ (∀ name op e,
     eval (S k) (NStatement (AssignStatement name op e)) env σ
       = (Normal r, σ') →
     ∃ σ1, eval k (NExpression e) env σ = (Normal r, σ1))
  ∧ (∀ c body,
     eval (S k) (NStatement (WhileStatement c body)) env σ = (Normal r, σ') →
     r = VNone)
  ∧ (∀ x it body,
     eval (S k) (NStatement (ForStatement x it body)) env σ = (Normal r, σ') →
     r = VNone).
Proof.
  repeat split.
  - intros name e He. rewrite eval_S in He. cbn [dispatch] in He.
    unfold eval_LetStatement in He. munfold.
    repeat (case_step; done_eq).
  - intros name e He. rewrite eval_S in He. cbn [dispatch] in He.
    unfold eval_ConstStatement in He. munfold.
    repeat (case_step; done_eq).
  - intros name op e He. rewrite eval_S in He. cbn [dispatch] in He.
    unfold eval_AssignStatement in He. munfold.
    destruct (eval k (NExpression e) env σ) as [[v| |] σ1] eqn:E;
      [|discriminate..].
    exists σ1. repeat (case_step; done_eq).
  - intros c body He. rewrite eval_S in He. cbn [dispatch] in He.
    unfold eval_WhileStatement in He. eauto using while_loop_None.
  - intros x it body He. rewrite eval_S in He. cbn [dispatch] in He.
    unfold eval_ForStatement in He. munfold.
    destruct (eval k (NExpression it) env σ) as [[v| |] σ1] eqn:E;
      [|discriminate..].
    destruct v; try discriminate;
      eauto using for_list_None, for_dict_None, for_str_None.
Qed.

(** *** Non-local exits *)


(** *** Comparisons of mixed kinds *)

Lemma is_comparison_cases (op : string) :
  is_comparison op = true →
  op = "<" ∨ op = ">" ∨ op = "<=" ∨ op = ">=".
Proof.
  unfold is_comparison. rewrite !orb_true_iff, !String.eqb_eq. tauto.
Qed.

Lemma py_compare_unordered (n : nat) (h : list Object) (op : string)
    (a b : Value) :
  ordered_kinds a b = false →
  py_compare (S n) h op a b = Raise (not_supported op a b).
Proof.
  intros Hk. destruct a, b; try discriminate; reflexivity.
Qed.

(** C7 (amended): when the operands of [<], [>], [<=] or [>=] evaluate to
    values of kinds the host does not order (not two real numbers, two
    strings or two lists), the evaluation raises the host's [TypeError];
    nothing converts it, and [run_source] reports it as an Internal
    Error. *)
Theorem mixed_comparison_type_error (k : nat) (op : string)
    (a b : Expression) (env : nat) (σ σ1 σ2 : State) (vl vr : Value) :
  is_comparison op = true →
  eval k (NExpression a) env σ = (Normal vl, σ1) →
  eval k (NExpression b) env σ1 = (Normal vr, σ2) →
  ordered_kinds vl vr = false →
  eval (S k) (NExpression (BinaryOp op a b)) env σ
    = (Raise (not_supported op vl vr), σ2)
  ∧ not_supported op vl vr
    = PyExc TypeError ("'" +++ op +++ "' not supported between instances of '"
                       +++ type_name vl +++ "' and '" +++ type_name vr +++ "'")
  ∧ report (heap σ2) (not_supported op vl vr)
    = ["Internal Error: '" +++ op +++ "' not supported between instances of '"
       +++ type_name vl +++ "' and '" +++ type_name vr +++ "'"].
Proof.
  intros Hop Ha Hb Hk. split; [|split; reflexivity].
  destruct (eval_Normal_fuel _ _ _ _ _ _ Ha) as [k' ->].
  rewrite eval_S. cbn [dispatch]. unfold eval_BinaryOp.
  destruct (is_comparison_cases _ Hop) as [-> | [-> | [-> | ->]]];
    cbn [String.eqb Ascii.eqb Bool.eqb]; munfold; rewrite Ha, Hb;
    unfold binary_operation; cbn [String.eqb Ascii.eqb Bool.eqb];
    cbn [is_comparison String.eqb Ascii.eqb Bool.eqb orb];
    unfold py_compare_M; munfold;
    rewrite py_compare_unordered by assumption; reflexivity.
Qed.

(** *** Booleans as integers *)

(** C10: a bool is accepted where an int is required, with its numeric
    value: [true == 1] and [false == 0] are [true], and indexing an array
    of two or more elements with [true] or [false] yields the element at
    position 1 or 0. *)
Theorem bool_is_int :
  (∀ w, (evaluate 10 "true == 1" w).1 = Normal (VBool true))
  ∧ (∀ w, (evaluate 10 "false == 0" w).1 = Normal (VBool true))
  ∧ (∀ k a i env σ σ1 σ2 l items b,
       eval k (NExpression a) env σ = (Normal (VList l), σ1) →
       eval k (NExpression i) env σ1 = (Normal (VBool b), σ2) →
       heap σ2 !! l = Some (ListObj items) →
       (2 ≤ length items)%nat →
       ∃ v, items !! (if b then 1 else 0)%nat = Some v
            ∧ eval (S k) (NExpression (IndexExpression a i)) env σ
              = (Normal v, σ2)).
Proof.
  split; [|split].
  - intros w. vm_compute. reflexivity.
  - intros w. vm_compute. reflexivity.
  - intros k a i env σ σ1 σ2 l items b Ha Hi Hl Hlen.
    destruct (lookup_lt_is_Some_2 items (if b then 1 else 0)%nat) as [v Hv];
      [destruct b; lia|].
    exists v. split; [done|].
    rewrite eval_S. cbn [dispatch]. unfold eval_IndexExpression. munfold.
    rewrite Ha, Hi. cbn [as_int]. unfold list_items. rewrite Hl.
    unfold out_of_range.
    destruct b; cbn [Z.to_nat Pos.to_nat Pos.iter_op Nat.add] in *.
    + replace ((1 <? 0) || (Z.of_nat (length items) <=? 1)) with false
        by (symmetry; apply orb_false_iff; split;
            [reflexivity | apply Z.leb_gt; lia]).
      change (Z.to_nat 1) with 1%nat. rewrite Hv. reflexivity.
    + replace ((0 <? 0) || (Z.of_nat (length items) <=? 0)) with false
        by (symmetry; apply orb_false_iff; split;
            [reflexivity | apply Z.leb_gt; lia]).
      change (Z.to_nat 0) with 0%nat. rewrite Hv. reflexivity.
Qed.

(** *** Operator precedence *)


(** *** Closures *)

Lemma set_envs_id (σ : State) : set_envs σ (envs σ) = σ.
Proof. destruct σ; reflexivity. Qed.

Lemma bind_parameters_fresh (ps : list string) (args : list Value)
    (σ : State) (env : nat) (e : Environment) :
  envs σ !! env = Some e →
  constants e = ∅ →
  bind_parameters env ps args σ
    = (Normal tt,
       set_envs σ (<[env := mkEnvironment (bind_store ps args (store e)) ∅
                              (parent e)]> (envs σ))).
Proof.
  revert args σ e. induction ps as [|p ps IH]; intros args σ e He Hc.
  - cbn. destruct e as [st cs pa]; cbn in *; subst cs.
    rewrite list_insert_id by done. rewrite set_envs_id.
    destruct args; reflexivity.
  - destruct args as [|a args].
    + cbn. destruct e as [st cs pa]; cbn in *; subst cs.
      rewrite list_insert_id by done. rewrite set_envs_id. reflexivity.
    + cbn [bind_parameters bind_store]. munfold.
      unfold Environment_set at 1. rewrite He, Hc.
      rewrite bool_decide_eq_false_2 by set_solver.
      rewrite (IH args _ (mkEnvironment (<[p:=a]> (store e)) ∅ (parent e))).
      * cbn [set_envs envs heap world store parent].
        rewrite list_insert_insert_eq. reflexivity.
      * cbn [set_envs envs]. apply list_lookup_insert_eq.
        eapply lookup_lt_Some; eauto.
      * reflexivity.
Qed.

(** C3: a function literal captures the environment it is evaluated in;
    a call of a user function with the right number of arguments
    evaluates the body in a new environment (the next index) whose
    parent is the captured one, whatever the caller's is, with the
    parameters bound in it, and catches [ReturnValue]; and the program of
    the claim yields [[11, 21]], also after [x] is declared and assigned
    anew in the caller's scope. *)
Theorem closure_capture :
  (∀ k ps body name env σ,
     eval (S k) (NExpression (FunctionLiteral ps body name)) env σ
       = (Normal (VFunction ps body env name), σ))
  ∧ (∀ ev ps body captured name args σ,
       length args = length ps →
       apply_function ev (VFunction ps body captured name) args σ
       = match ev (NBlock body) (length (envs σ))
                 (set_envs σ
                    (envs σ ++ [mkEnvironment (bind_store ps args ∅) ∅
                                  (Some captured)])) with
         | (Raise (ReturnValue v), σ') => (Normal v, σ')
         | r => r
         end)
  ∧ (∀ w, ∃ l σ,
       evaluate 30 ("let mk = fn(x) { fn(y) { x + y } }; let f = mk(10); "
                    +++ "let g = mk(20); [f(1), g(1)]") w
         = (Normal (VList l), σ)
       ∧ heap σ !! l = Some (ListObj [VInt 11; VInt 21]))
  ∧ (∀ w, ∃ l σ,
       evaluate 30 ("let mk = fn(x) { fn(y) { x + y } }; let f = mk(10); "
                    +++ "let g = mk(20); let x = 1000; x = x + 5; "
                    +++ "[f(1), g(1)]") w
         = (Normal (VList l), σ)
       ∧ heap σ !! l = Some (ListObj [VInt 11; VInt 21])).
Proof.
  split; [|split; [|split]].
  - reflexivity.
  - intros ev ps body captured name args σ Hlen.
    unfold apply_function. rewrite Hlen, Nat.eqb_refl. cbn [negb].
    munfold. unfold alloc_env.
    rewrite (bind_parameters_fresh _ _ _ _ (new_Environment (Some captured))).
    + cbn [set_envs envs heap world new_Environment store parent].
      rewrite insert_app_r_alt, Nat.sub_diag by lia. cbn [insert list_insert].
      destruct (ev _ _ _) as [[v|e|] σ']; try reflexivity.
      destruct e; reflexivity.
    + cbn [set_envs envs].
      rewrite lookup_app_r, Nat.sub_diag by lia. reflexivity.
    + reflexivity.
  - intros w. eexists _, _. split; vm_compute; reflexivity.
  - intros w. eexists _, _. split; vm_compute; reflexivity.
Qed.

(** *** Constants *)

Lemma later_le (σ σ' : State) : later σ σ' → state_le σ σ'.
Proof.
  induction 1 as [|σ fuel node env r σ1 σ2 He _ IH].
  - apply state_le_refl.
  - eapply state_le_trans; [eapply eval_preserving|]; eauto.
Qed.

Lemma const_bound_le (σ σ' : State) (ρ : nat) (k : string) (v : Value) :
  state_le σ σ' → const_bound σ ρ k v → const_bound σ' ρ k v.
Proof.
  intros Hle (e & He & Hc & Hs).
  destruct (Hle _ _ He) as (e' & He' & _ & Hcs & _ & Hv).
  exists e'. split; [done|]. split; [set_solver|]. rewrite Hv; auto.
Qed.

Lemma get_const (σ : State) (ρ : nat) (k : string) (v : Value) :
  const_bound σ ρ k v → Environment_get (envs σ) ρ k = Some v.
Proof.
  intros (e & He & _ & Hs). unfold Environment_get.
  cbn [Environment_get_from]. rewrite He, Hs. reflexivity.
Qed.

Lemma assign_const (σ : State) (ρ : nat) (k : string) (v v' : Value) :
  const_bound σ ρ k v →
  Environment_assign ρ k v' σ = (Raise (cannot_reassign k), σ).
Proof.
  intros (e & He & Hc & Hs). unfold Environment_assign.
  cbn [Environment_assign_from]. rewrite He, Hs.
  rewrite bool_decide_eq_true_2 by done. reflexivity.
Qed.

Lemma set_const (σ : State) (ρ : nat) (k : string) (v v' : Value)
    (c : bool) :
  const_bound σ ρ k v →
  Environment_set ρ k v' c σ = (Raise (cannot_reassign k), σ).
Proof.
  intros (e & He & Hc & Hs). unfold Environment_set. rewrite He.
  rewrite bool_decide_eq_true_2 by done. reflexivity.
Qed.

Lemma heap_only_bind {A B} (m : M A) (f : A → M B) :
  heap_only m → (∀ a, heap_only (f a)) → heap_only (M_bind m f).
Proof.
  intros Hm Hf σ. unfold M_bind. specialize (Hm σ).
  destruct (m σ) as [[a|e|] σ1]; cbn in *; try done.
  rewrite Hf. done.
Qed.

Lemma heap_only_lift_host {A} (r : host_result A) : heap_only (lift_host r).
Proof. intros σ. destruct r as [[c m]|a]; reflexivity. Qed.

Ltac heap_only_step :=
  first
    [ apply heap_only_bind; [|intros ?]
    | apply heap_only_lift_host
    | match goal with
      | |- heap_only (match ?x with _ => _ end) => destruct x
      end
    | (intros ?; reflexivity) ].

Ltac heap_only_tac :=
  cbv beta iota zeta delta
    [bind M_Bind mbind M_mbind mret M_mret type_error host_num];
  repeat heap_only_step.

Lemma py_add_heap_only (a b : Value) : heap_only (py_add a b).
Proof. unfold py_add, num_add. heap_only_tac. Qed.

Lemma py_sub_heap_only (a b : Value) : heap_only (py_sub a b).
Proof. unfold py_sub, num_sub. heap_only_tac. Qed.

Lemma const_bound_same_envs (σ σ' : State) ρ k v :
  envs σ' = envs σ → const_bound σ ρ k v → const_bound σ' ρ k v.
Proof. intros E (e & He & Hc). exists e. rewrite E. done. Qed.

Lemma const_declared (n : nat) (k : string) (e0 : Expression) (ρ : nat)
    (σ σ' : State) (v : Value) :
  (ρ < length (envs σ))%nat →
  eval n (NStatement (ConstStatement k e0)) ρ σ = (Normal v, σ') →
  const_bound σ' ρ k v.
Proof.
  intros Hρ He. destruct n as [|n]; [discriminate|].
  rewrite eval_S in He. cbn [dispatch] in He.
  unfold eval_ConstStatement in He. munfold.
  destruct (eval n (NExpression e0) ρ σ) as [[v1|?|] σ1] eqn:E1;
    try discriminate.
  destruct (lookup_lt_is_Some_2 _ _ Hρ) as [e He0].
  destruct (eval_preserving _ _ _ _ _ _ E1 _ _ He0) as (e1 & He1 & _).
  unfold Environment_set in He. rewrite He1 in He.
  destruct (bool_decide (k ∈ constants e1)); [discriminate|].
  simplify_eq. eexists. cbn [set_envs envs]. split.
  - apply list_lookup_insert_eq. eapply lookup_lt_Some; eauto.
  - cbn. split; [set_solver | apply lookup_insert_eq].
Qed.

Lemma targets_self (σ : State) (ρ : nat) (k : string) (v : Value) :
  const_bound σ ρ k v → targets σ ρ k ρ.
Proof.
  intros (e & He & _ & Hs). unfold targets. cbn [binding_scope_from].
  by rewrite He, Hs.
Qed.

Lemma get_targeted (n : nat) (σ : State) (ρ ρ' : nat) (k : string)
    (v : Value) :
  const_bound σ ρ k v →
  binding_scope_from n (envs σ) ρ' k = Some ρ →
  Environment_get_from n (envs σ) ρ' k = Some v.
Proof.
  intros (e & He & _ & Hs). revert ρ'.
  induction n as [|n IH]; intros ρ' Hb; [discriminate|].
  cbn [binding_scope_from Environment_get_from] in *.
  destruct (envs σ !! ρ') as [e'|] eqn:He'; [|discriminate].
  destruct (store e' !! k) as [w|] eqn:Hw.
  - simplify_eq. done.
  - destruct (parent e'); [by apply IH | discriminate].
Qed.

Lemma assign_targeted (n : nat) (σ : State) (ρ ρ' : nat) (k : string)
    (v v' : Value) :
  const_bound σ ρ k v →
  binding_scope_from n (envs σ) ρ' k = Some ρ →
  Environment_assign_from n ρ' k v' σ = (Raise (cannot_reassign k), σ).
Proof.
  intros (e & He & Hc & Hs). revert ρ'.
  induction n as [|n IH]; intros ρ' Hb; [discriminate|].
  cbn [binding_scope_from Environment_assign_from] in *.
  destruct (envs σ !! ρ') as [e'|] eqn:He'; [|discriminate].
  destruct (store e' !! k) as [w|] eqn:Hw.
  - simplify_eq. by rewrite bool_decide_eq_true_2.
  - destruct (parent e'); [by apply IH | discriminate].
Qed.

Lemma targets_same_envs (σ σ' : State) (ρ' : nat) (k : string) (ρ : nat) :
  envs σ' = envs σ → targets σ ρ' k ρ → targets σ' ρ' k ρ.
Proof. unfold targets. by intros ->. Qed.

(** What an assignment that targets the constant does, once its
    right-hand side has a value. *)
Lemma const_rejects (k : string) (ρ : nat) (σ : State) (v0 : Value)
    (n : nat) (ρ' : nat) (e : Expression) (v : Value) (σ2 : State) :
  const_bound σ ρ k v0 →
  eval n (NExpression e) ρ' σ = (Normal v, σ2) →
  targets σ2 ρ' k ρ →
  eval (S n) (NStatement (AssignStatement k "=" e)) ρ' σ
    = (Raise (cannot_reassign k), σ2)
  ∧ eval (S n) (NStatement (AssignStatement k "+=" e)) ρ' σ
    = match py_add v0 v σ2 with
      | (Normal _, σ3) => (Raise (cannot_reassign k), σ3)
      | r => r
      end
  ∧ eval (S n) (NStatement (AssignStatement k "-=" e)) ρ' σ
    = match py_sub v0 v σ2 with
      | (Normal _, σ3) => (Raise (cannot_reassign k), σ3)
      | r => r
      end.
Proof.
  intros Hc He Ht.
  assert (Hc2 : const_bound σ2 ρ k v0)
    by (eapply const_bound_le; [eapply eval_preserving|]; eauto).
  repeat split; rewrite eval_S; cbn [dispatch];
    unfold eval_AssignStatement;
    cbn [String.eqb Ascii.eqb Bool.eqb]; munfold; rewrite He.
  - unfold Environment_assign.
    rewrite (assign_targeted _ _ _ _ _ _ _ Hc2 Ht). reflexivity.
  - unfold env_get, Environment_get.
    rewrite (get_targeted _ _ _ _ _ _ Hc2 Ht).
    pose proof (py_add_heap_only v0 v σ2) as Henv.
    destruct (py_add v0 v σ2) as [[r|x|] σ3]; cbn in Henv; try reflexivity.
    unfold Environment_assign.
    rewrite (assign_targeted (S ρ') σ3 ρ ρ' k v0)
      by (first [eapply const_bound_same_envs; eauto
                | eapply targets_same_envs; eauto]).
    reflexivity.
  - unfold env_get, Environment_get.
    rewrite (get_targeted _ _ _ _ _ _ Hc2 Ht).
    pose proof (py_sub_heap_only v0 v σ2) as Henv.
    destruct (py_sub v0 v σ2) as [[r|x|] σ3]; cbn in Henv; try reflexivity.
    unfold Environment_assign.
    rewrite (assign_targeted (S ρ') σ3 ρ ρ' k v0)
      by (first [eapply const_bound_same_envs; eauto
                | eapply targets_same_envs; eauto]).
    reflexivity.
Qed.

(** What a redeclaration in the scope of the constant does. *)
Lemma const_redeclared (k : string) (ρ : nat) (σ : State) (v0 : Value)
    (n : nat) (e : Expression) (v : Value) (σ2 : State) :
  const_bound σ ρ k v0 →
  eval n (NExpression e) ρ σ = (Normal v, σ2) →
  eval (S n) (NStatement (LetStatement k e)) ρ σ
    = (Raise (cannot_reassign k), σ2)
  ∧ eval (S n) (NStatement (ConstStatement k e)) ρ σ
    = (Raise (cannot_reassign k), σ2).
Proof.
  intros Hc He.
  assert (Hc2 : const_bound σ2 ρ k v0)
    by (eapply const_bound_le; [eapply eval_preserving|]; eauto).
  split; rewrite eval_S; cbn [dispatch];
    unfold eval_LetStatement, eval_ConstStatement; munfold; rewrite He;
    rewrite (set_const _ _ _ _ _ _ Hc2); reflexivity.
Qed.

Lemma const_never_assigned (k : string) (ρ : nat) (σ : State) (v0 : Value)
    (n : nat) (ρ' : nat) (op : string) (e : Expression) (r : Outcome Value)
    (σ' : State) :
  const_bound σ ρ k v0 →
  op ∈ assignment_operators →
  eval (S n) (NStatement (AssignStatement k op e)) ρ' σ = (r, σ') →
  (∀ v σ2, eval n (NExpression e) ρ' σ = (Normal v, σ2) →
           targets σ2 ρ' k ρ) →
  (∀ x, r ≠ Normal x) ∧ const_bound σ' ρ k v0.
Proof.
  intros Hc Hop He Ht. split.
  2: { eapply const_bound_le; [eapply eval_preserving|]; eauto. }
  destruct (eval n (NExpression e) ρ' σ) as [[v|x|] σ2] eqn:E.
  - destruct (const_rejects k ρ σ v0 n ρ' e v σ2 Hc E (Ht _ _ eq_refl))
      as (R1 & R2 & R3).
    unfold assignment_operators in Hop.
    rewrite !elem_of_cons in Hop.
    destruct Hop as [-> | [-> | [-> | Hop]]];
      [| | |by apply elem_of_nil in Hop].
    + rewrite R1 in He. simplify_eq. done.
    + rewrite R2 in He. destruct (py_add v0 v σ2) as [[?|?|] ?];
        simplify_eq; done.
    + rewrite R3 in He. destruct (py_sub v0 v σ2) as [[?|?|] ?];
        simplify_eq; done.
  - rewrite eval_S in He. cbn [dispatch] in He.
    unfold eval_AssignStatement in He; munfold; rewrite E in He;
      simplify_eq; done.
  - rewrite eval_S in He. cbn [dispatch] in He.
    unfold eval_AssignStatement in He; munfold; rewrite E in He;
      simplify_eq; done.
Qed.

Lemma const_never_written (k : string) (ρ : nat) (σ : State) (v0 : Value)
    (n : nat) (s : Statement) (r : Outcome Value) (σ' : State) :
  const_bound σ ρ k v0 →
  writes_to k s →
  eval n (NStatement s) ρ σ = (r, σ') →
  (∀ x, r ≠ Normal x) ∧ const_bound σ' ρ k v0.
Proof.
  intros Hc (e & Hs) He. split.
  2: { eapply const_bound_le; [eapply eval_preserving|]; eauto. }
  destruct n as [|n]; [cbn in He; munfold; simplify_eq; done|].
  destruct (eval n (NExpression e) ρ σ) as [[v|x|] σ2] eqn:E.
  - assert (Hc2 : const_bound σ2 ρ k v0)
      by (eapply const_bound_le; [eapply eval_preserving|]; eauto).
    destruct (const_rejects k ρ σ v0 n ρ e v σ2 Hc E
                (targets_self _ _ _ _ Hc2)) as (R1 & R2 & R3).
    destruct (const_redeclared k ρ σ v0 n e v σ2 Hc E) as (R4 & R5).
    destruct Hs as [-> | [-> | [-> | [-> | ->]]]].
    + rewrite R1 in He. simplify_eq. done.
    + rewrite R2 in He. destruct (py_add v0 v σ2) as [[?|?|] ?];
        simplify_eq; done.
    + rewrite R3 in He. destruct (py_sub v0 v σ2) as [[?|?|] ?];
        simplify_eq; done.
    + rewrite R4 in He. simplify_eq. done.
    + rewrite R5 in He. simplify_eq. done.
  - rewrite eval_S in He. cbn [dispatch] in He.
    destruct Hs as [-> | [-> | [-> | [-> | ->]]]];
      unfold eval_AssignStatement, eval_LetStatement, eval_ConstStatement
        in He; munfold; rewrite E in He; simplify_eq; done.
  - rewrite eval_S in He. cbn [dispatch] in He.
    destruct Hs as [-> | [-> | [-> | [-> | ->]]]];
      unfold eval_AssignStatement, eval_LetStatement, eval_ConstStatement
        in He; munfold; rewrite E in He; simplify_eq; done.
Qed.

(** C6 (amended): once [const k = e0] has completed in scope [ρ], then
    in every later state [k] is still a constant of [ρ] with the same
    value.  A statement [k = e], [k += e], [k -= e], [let k = e] or
    [const k = e] evaluated in [ρ] never completes and leaves that so.
    Nor does an assignment [k = e], [k += e] or [k -= e] evaluated in
    any other scope [ρ'] (the scope of a call of a function or of a
    closure) when it targets the binding, that is when [ρ] is the first
    scope on the chain from [ρ'] that binds [k] once [e] has its value.
    When [e] has a value the exception is the [RuntimeError] of
    environment.py, [Cannot reassign constant 'k'], except that for [+=]
    and [-=] the host first adds or subtracts and its failure, if any,
    comes first. *)
Theorem const_immutable (k : string) (ρ : nat) (e0 : Expression)
    (n0 : nat) (σ0 σ1 σ : State) (v0 : Value) :
  (ρ < length (envs σ0))%nat →
  eval n0 (NStatement (ConstStatement k e0)) ρ σ0 = (Normal v0, σ1) →
  later σ1 σ →
  const_bound σ ρ k v0
  ∧ (∀ n s r σ',
       writes_to k s →
       eval n (NStatement s) ρ σ = (r, σ') →
       (∀ x, r ≠ Normal x) ∧ const_bound σ' ρ k v0)
  ∧ (∀ n ρ' op e r σ',
       op ∈ assignment_operators →
       eval (S n) (NStatement (AssignStatement k op e)) ρ' σ = (r, σ') →
       (∀ v σ2, eval n (NExpression e) ρ' σ = (Normal v, σ2) →
                targets σ2 ρ' k ρ) →
       (∀ x, r ≠ Normal x) ∧ const_bound σ' ρ k v0)
  ∧ (∀ n ρ' e v σ2,
       eval n (NExpression e) ρ' σ = (Normal v, σ2) →
       targets σ2 ρ' k ρ →
       eval (S n) (NStatement (AssignStatement k "=" e)) ρ' σ
         = (Raise (PyExc RuntimeError
                     ("Cannot reassign constant '" +++ k +++ "'")), σ2)
       ∧ eval (S n) (NStatement (AssignStatement k "+=" e)) ρ' σ
         = match py_add v0 v σ2 with
           | (Normal _, σ3) => (Raise (cannot_reassign k), σ3)
           | r => r
           end
       ∧ eval (S n) (NStatement (AssignStatement k "-=" e)) ρ' σ
         = match py_sub v0 v σ2 with
           | (Normal _, σ3) => (Raise (cannot_reassign k), σ3)
           | r => r
           end)
  ∧ (∀ n e v σ2,
       eval n (NExpression e) ρ σ = (Normal v, σ2) →
       targets σ2 ρ k ρ
       ∧ eval (S n) (NStatement (LetStatement k e)) ρ σ
         = (Raise (cannot_reassign k), σ2)
       ∧ eval (S n) (NStatement (ConstStatement k e)) ρ σ
         = (Raise (cannot_reassign k), σ2)).
Proof.
  intros Hρ Hdecl Hlater.
  assert (Hc : const_bound σ ρ k v0).
  { eapply const_bound_le; [eapply later_le; eauto|].
    eapply const_declared; eauto. }
  split; [done|]. split; [|split; [|split]].
  - intros n s r σ' Hs He. eapply const_never_written; eauto.
  - intros n ρ' op e r σ' Hop He Ht. eapply const_never_assigned; eauto.
  - intros n ρ' e v σ2 He Ht.
    exact (const_rejects k ρ σ v0 n ρ' e v σ2 Hc He Ht).
  - intros n e v σ2 He. split.
    + eapply targets_self, const_bound_le;
        [eapply eval_preserving|]; eauto.
    + exact (const_redeclared k ρ σ v0 n e v σ2 Hc He).
Qed.

(** *** Blocks and loops *)

Lemma bound_in_le (σ σ' : State) (ρ : nat) (x : string) :
  state_le σ σ' → bound_in σ ρ x → bound_in σ' ρ x.
Proof.
  intros Hle (v & e & He & Hs).
  destruct (Hle _ _ He) as (e' & He' & _ & _ & Hd & _).
  assert (Hx : x ∈ dom (store e')) by (apply Hd, elem_of_dom; eauto).
  apply elem_of_dom in Hx as [v' Hv']. exists v', e'. done.
Qed.

Lemma valid_le (σ σ' : State) (ρ : nat) :
  state_le σ σ' → (ρ < length (envs σ))%nat → (ρ < length (envs σ'))%nat.
Proof.
  intros Hle Hρ. destruct (lookup_lt_is_Some_2 _ _ Hρ) as [e He].
  destruct (Hle _ _ He) as (e' & He' & _). eapply lookup_lt_Some; eauto.
Qed.

Lemma set_binds (σ σ' : State) (ρ : nat) (x : string) (v r : Value)
    (c : bool) :
  (ρ < length (envs σ))%nat →
  Environment_set ρ x v c σ = (Normal r, σ') → binds σ' ρ x v.
Proof.
  intros Hρ Hs. destruct (lookup_lt_is_Some_2 _ _ Hρ) as [e He].
  unfold Environment_set in Hs. rewrite He in Hs.
  destruct (bool_decide (x ∈ constants e)); [discriminate|].
  simplify_eq. eexists. cbn [set_envs envs]. split.
  - apply list_lookup_insert_eq. eapply lookup_lt_Some; eauto.
  - cbn. apply lookup_insert_eq.
Qed.

Lemma let_binds (n : nat) (x : string) (e : Expression) (ρ : nat)
    (σ σ' : State) (v : Value) :
  (ρ < length (envs σ))%nat →
  eval n (NStatement (LetStatement x e)) ρ σ = (Normal v, σ') →
  binds σ' ρ x v.
Proof.
  intros Hρ He. destruct n as [|n]; [discriminate|].
  rewrite eval_S in He. cbn [dispatch] in He.
  unfold eval_LetStatement in He. munfold.
  destruct (eval n (NExpression e) ρ σ) as [[v1|?|] σ1] eqn:E1;
    try discriminate.
  destruct (Environment_set ρ x v1 false σ1) as [[r|?|] σ2] eqn:E2;
    try discriminate.
  simplify_eq. eapply set_binds; [|eauto].
  eapply valid_le; [eapply eval_preserving|]; eauto.
Qed.

Lemma block_let_bound (k : nat) (pre post : list Statement) (x : string)
    (e : Expression) (ρ : nat) (σ σ' : State) (v : Value) :
  (ρ < length (envs σ))%nat →
  eval (S k) (NBlock (BlockStatement (pre ++ LetStatement x e :: post))) ρ σ
    = (Normal v, σ') →
  bound_in σ' ρ x.
Proof.
  intros Hρ He. rewrite eval_S in He. cbn [dispatch eval_BlockStatement] in He.
  rewrite eval_statements_app in He.
  destruct (eval_statements (eval k) pre ρ VNone σ) as [[r1|?|] σ1] eqn:E1;
    try discriminate.
  cbn [eval_statements] in He. munfold.
  destruct (eval k (NStatement (LetStatement x e)) ρ σ1) as [[r2|?|] σ2]
    eqn:E2; try discriminate.
  eapply bound_in_le.
  - eapply preserving_statements; [apply eval_preserving | exact He].
  - exists r2. eapply let_binds; [|eauto].
    eapply valid_le; [|eauto].
    eapply preserving_statements; [apply eval_preserving | exact E1].
Qed.

Lemma set_returns (ρ : nat) (x : string) (v r : Value) (c : bool)
    (σ σ' : State) :
  Environment_set ρ x v c σ = (Normal r, σ') → r = v.
Proof.
  unfold Environment_set. intros Hs. repeat (case_step; done_eq).
Qed.

Section Rounds.
Variable ev : Node → nat → M Value.
Hypothesis Hev : ∀ node env, preserving (ev node env).

Lemma round_le (x : string) (item : Value) (body : Block) (ρ : nat)
    (σ σb σ2 : State) (r : Value) (go : bool) :
  Environment_set ρ x item false σ = (Normal r, σb) →
  loop_body ev body ρ σb = (Normal go, σ2) →
  state_le σ σ2.
Proof.
  intros Es Eb. eapply state_le_trans.
  - eapply preserving_set; eauto.
  - eapply preserving_loop_body; eauto.
Qed.

Lemma rounds_le (x : string) (body : Block) (ρ : nat) (iterable : Value)
    (i : nat) (σ σ' : State) :
  rounds ev x body ρ iterable i σ σ' → state_le σ σ'.
Proof.
  induction 1 as [|i σ σa item σb σc _ IH _ Es Eb]; [apply state_le_refl|].
  eapply state_le_trans; [exact IH|]. eapply round_le; eauto.
Qed.

Lemma for_list_last (n : nat) (x : string) (l i : nat) (body : Block)
    (ρ : nat) (σ1 σ σ' : State) (r : Value) :
  rounds ev x body ρ (VList l) i σ1 σ →
  for_list ev n x l i body ρ σ = (Normal r, σ') →
  (nth_item (VList l) σ i = None ∧ σ' = σ)
  ∨ ∃ j item σb, last_round ev x body ρ (VList l) σ1 σ' j item σb.
Proof.
  revert σ i. induction n as [|n IH]; intros σ i Hr Hf; cbn [for_list] in Hf.
  - munfold. discriminate.
  - unfold for_round in Hf. munfold. cbn [nth_item].
    destruct (list_items (heap σ) l !! i) as [item|] eqn:Hi.
    2: { left. simplify_eq. done. }
    right.
    destruct (Environment_set ρ x item false σ) as [[r1|?|] σb] eqn:Es;
      try discriminate.
    pose proof (set_returns _ _ _ _ _ _ _ Es) as ->.
    destruct (loop_body ev body ρ σb) as [[go|?|] σ2] eqn:Eb;
      try discriminate.
    destruct go.
    + assert (Hr2 : rounds ev x body ρ (VList l) (S i) σ1 σ2)
        by (eapply rounds_next; eauto).
      destruct (IH _ _ Hr2 Hf) as [[Hend ->]|Hlast]; [|exact Hlast].
      exists i, item, σb, σ, true. done.
    + simplify_eq. exists i, item, σb, σ, false. done.
Qed.

Lemma for_dict_last (n : nat) (x : string) (l used i : nat) (body : Block)
    (ρ : nat) (σ1 σ σ' : State) (r : Value) :
  rounds ev x body ρ (VDict l) i σ1 σ →
  for_dict ev n x l used i body ρ σ = (Normal r, σ') →
  (nth_item (VDict l) σ i = None ∧ σ' = σ)
  ∨ ∃ j item σb, last_round ev x body ρ (VDict l) σ1 σ' j item σb.
Proof.
  revert σ i. induction n as [|n IH]; intros σ i Hr Hf; cbn [for_dict] in Hf.
  - munfold. discriminate.
  - unfold for_round in Hf. munfold. cbn [nth_item].
    destruct (negb (length (dict_entries (heap σ) l) =? used)%nat);
      [discriminate|].
    destruct (dict_entries (heap σ) l !! i) as [[key v]|] eqn:Hi.
    2: { left. simplify_eq. done. }
    right.
    destruct (Environment_set ρ x key false σ) as [[r1|?|] σb] eqn:Es;
      try discriminate.
    pose proof (set_returns _ _ _ _ _ _ _ Es) as ->.
    destruct (loop_body ev body ρ σb) as [[go|?|] σ2] eqn:Eb;
      try discriminate.
    assert (Hitem : nth_item (VDict l) σ i = Some key)
      by (cbn [nth_item]; by rewrite Hi).
    destruct go.
    + assert (Hr2 : rounds ev x body ρ (VDict l) (S i) σ1 σ2)
        by (eapply rounds_next; eauto).
      destruct (IH _ _ Hr2 Hf) as [[Hend ->]|Hlast]; [|exact Hlast].
      exists i, key, σb, σ, true. done.
    + simplify_eq. exists i, key, σb, σ, false. done.
Qed.

Lemma for_str_last (x : string) (s : string) (pre cs : list ascii)
    (body : Block) (ρ : nat) (σ1 σ σ' : State) (r : Value) :
  chars_of_str s = pre ++ cs →
  rounds ev x body ρ (VStr s) (length pre) σ1 σ →
  for_str ev x cs body ρ σ = (Normal r, σ') →
  (cs = [] ∧ σ' = σ)
  ∨ ∃ j item σb, last_round ev x body ρ (VStr s) σ1 σ' j item σb.
Proof.
  revert pre σ. induction cs as [|c cs IH]; intros pre σ Hs Hr Hf;
    cbn [for_str] in Hf.
  - left. munfold. simplify_eq. done.
  - right. unfold for_round in Hf. munfold.
    destruct (Environment_set ρ x (VStr (str1 c)) false σ)
      as [[r1|?|] σb] eqn:Es; try discriminate.
    pose proof (set_returns _ _ _ _ _ _ _ Es) as ->.
    destruct (loop_body ev body ρ σb) as [[go|?|] σ2] eqn:Eb;
      try discriminate.
    assert (Hitem : ∀ σx, nth_item (VStr s) σx (length pre)
                          = Some (VStr (str1 c))).
    { intros σx. cbn [nth_item]. rewrite Hs.
      by rewrite list_lookup_middle. }
    destruct go.
    + assert (Hr2 : rounds ev x body ρ (VStr s) (length (pre ++ [c])) σ1 σ2).
      { rewrite length_app. cbn [length]. rewrite Nat.add_1_r.
        eapply rounds_next; eauto. }
      destruct (IH (pre ++ [c]) σ2) as [[-> ->]|Hlast];
        [by rewrite <- app_assoc | exact Hr2 | exact Hf | | exact Hlast].
      exists (length pre), (VStr (str1 c)), σb, σ, true.
      repeat split; try done. intros _. cbn [nth_item]. rewrite Hs.
      rewrite lookup_ge_None_2; [done|]. rewrite length_app. cbn. lia.
    + simplify_eq. exists (length pre), (VStr (str1 c)), σb, σ, false.
      done.
Qed.

End Rounds.

Lemma length_chars_of_str (s : string) :
  length (chars_of_str s) = String.length s.
Proof. induction s as [|c s IH]; cbn; [done | f_equal; exact IH]. Qed.

Lemma for_last_round (k : nat) (x : string) (it : Expression) (body : Block)
    (ρ : nat) (σ σ' σ1 : State) (r iv : Value) :
  eval (S k) (NStatement (ForStatement x it body)) ρ σ = (Normal r, σ') →
  eval k (NExpression it) ρ σ = (Normal iv, σ1) →
  is_truthy (heap σ1) iv = true →
  ∃ i item σb, last_round (eval k) x body ρ iv σ1 σ' i item σb.
Proof.
  intros Hf Hit Htruthy.
  rewrite eval_S in Hf. cbn [dispatch] in Hf.
  unfold eval_ForStatement in Hf. munfold. rewrite Hit in Hf.
  destruct iv; try discriminate; cbn [is_truthy] in Htruthy.
  - destruct (for_str_last (eval k) x s [] (chars_of_str s) body ρ σ1 σ1 σ' r)
      as [[He _]|Hl]; [done | constructor | exact Hf | | exact Hl].
    apply Nat.ltb_lt in Htruthy. rewrite <- length_chars_of_str in Htruthy.
    rewrite He in Htruthy. cbn in Htruthy. lia.
  - destruct (for_list_last (eval k) k x l 0 body ρ σ1 σ1 σ' r
                ltac:(constructor) Hf) as [[He _]|Hl]; [|exact Hl].
    apply Nat.ltb_lt in Htruthy. cbn [nth_item] in He.
    apply lookup_ge_None in He. lia.
  - destruct (for_dict_last (eval k) k x l _ 0 body ρ σ1 σ1 σ' r
                ltac:(constructor) Hf) as [[He _]|Hl]; [|exact Hl].
    apply Nat.ltb_lt in Htruthy. cbn [nth_item] in He.
    destruct (dict_entries (heap σ1) l !! 0%nat) eqn:E; [discriminate|].
    apply lookup_ge_None in E. lia.
Qed.


End Claims.

(* ================================================================== *)
(** ** The scanner: progress, termination and the shape of its result *)
(* ================================================================== *)

Lemma advance_left (lx : Lexer) :
  left_to_scan (advance lx) = pred (left_to_scan lx).
Proof.
  unfold advance, left_to_scan. destruct (remaining lx) as [|c r]; [done|].
  destruct (ascii_eqb c chr_newline); reflexivity.
Qed.

Lemma current_char_left (lx : Lexer) (c : ascii) :
  current_char lx = Some c → (0 < left_to_scan lx)%nat.
Proof.
  unfold current_char, left_to_scan.
  destruct (remaining lx); [discriminate | cbn; lia].
Qed.

Lemma skip_whitespace_loop_left (n : nat) (lx : Lexer) :
  (left_to_scan (skip_whitespace_loop n lx) ≤ left_to_scan lx)%nat.
Proof.
  revert lx. induction n as [|n IH]; intros lx; cbn; [lia|].
  destruct (char_sat is_blank (current_char lx)); [|lia].
  etrans; [apply IH|]. rewrite advance_left. lia.
Qed.

Lemma skip_comment_loop_left (n : nat) (lx : Lexer) :
  (left_to_scan (skip_comment_loop n lx) ≤ left_to_scan lx)%nat.
Proof.
  revert lx. induction n as [|n IH]; intros lx; cbn; [lia|].
  destruct (current_char lx) as [c|]; [|lia].
  destruct (ascii_eqb c chr_newline); [lia|].
  etrans; [apply IH|]. rewrite advance_left. lia.
Qed.

(** After [skip_comment] the scanner stands at a newline or at the end. *)
Lemma skip_comment_loop_stops (n : nat) (lx : Lexer) :
  (left_to_scan lx ≤ n)%nat →
  current_char (skip_comment_loop n lx) = None
  ∨ current_char (skip_comment_loop n lx) = Some chr_newline.
Proof.
  revert lx. induction n as [|n IH]; intros lx Hn; cbn.
  - left. unfold current_char, left_to_scan in *.
    destruct (remaining lx); [done | cbn in Hn; lia].
  - destruct (current_char lx) as [c|] eqn:Hc; [|by left].
    destruct (ascii_eqb c chr_newline) eqn:Hnl.
    + right. rewrite Hc. f_equal. symmetry. by apply Ascii.eqb_eq.
    + apply IH. rewrite advance_left. lia.
Qed.

Lemma skip_whitespace_loop_newline (n : nat) (lx : Lexer) :
  current_char lx = None ∨ current_char lx = Some chr_newline →
  skip_whitespace_loop n lx = lx.
Proof.
  intros [Hc|Hc]; destruct n; cbn; try done; by rewrite Hc.
Qed.

Lemma read_string_loop_left (n : nat) q res sl sc lx r lx' :
  read_string_loop n q res sl sc lx = inr (r, lx') →
  (left_to_scan lx' ≤ left_to_scan lx)%nat.
Proof.
  revert res lx. induction n as [|n IH]; intros res lx Hr; cbn in Hr.
  - by simplify_eq.
  - destruct (current_char lx) as [c|]; [|by simplify_eq].
    destruct (ascii_eqb c q); [by simplify_eq|].
    destruct (ascii_eqb c chr_backslash).
    + apply IH in Hr. rewrite !advance_left in Hr. lia.
    + destruct (ascii_eqb c chr_newline); [discriminate|].
      apply IH in Hr. rewrite advance_left in Hr. lia.
Qed.

Lemma read_number_loop_left (n : nat) res hd lx r h lx' :
  read_number_loop n res hd lx = (r, h, lx') →
  (left_to_scan lx' ≤ left_to_scan lx)%nat.
Proof.
  revert res hd lx. induction n as [|n IH]; intros res hd lx Hr; cbn in Hr.
  - by simplify_eq.
  - destruct (current_char lx) as [c|]; [|by simplify_eq].
    destruct (isdigit c).
    { apply IH in Hr. rewrite advance_left in Hr. lia. }
    destruct (ascii_eqb c "."); [|by simplify_eq].
    destruct hd; [by simplify_eq|].
    destruct (negb (char_sat isdigit (peek lx))); [by simplify_eq|].
    apply IH in Hr. rewrite advance_left in Hr. lia.
Qed.

Lemma read_identifier_loop_left (n : nat) res lx r lx' :
  read_identifier_loop n res lx = (r, lx') →
  (left_to_scan lx' ≤ left_to_scan lx)%nat.
Proof.
  revert res lx. induction n as [|n IH]; intros res lx Hr; cbn in Hr.
  - by simplify_eq.
  - destruct (current_char lx) as [c|]; [|by simplify_eq].
    destruct (isalnum c || ascii_eqb c "_"); [|by simplify_eq].
    apply IH in Hr. rewrite advance_left in Hr. lia.
Qed.

Lemma lookup_identifier_proper (s : string) :
  lookup_identifier s ≠ EOF ∧ lookup_identifier s ≠ NEWLINE.
Proof.
  unfold lookup_identifier, KEYWORDS. cbn [assoc_get].
  repeat (destruct (String.eqb s _); [done|]). done.
Qed.

Lemma isalpha_isalnum (c : ascii) : isalpha c = true → isalnum c = true.
Proof. unfold isalnum. intros ->. reflexivity. Qed.

Section Scanner.
Context `{PyHost}.

Lemma read_number_outcome (lx : Lexer) (c : ascii) :
  current_char lx = Some c → isdigit c = true →
  match read_number lx with
  | inl e => is_ValueError e = true
  | inr (tok, lx') =>
      (left_to_scan lx' < left_to_scan lx)%nat
      ∧ (type tok = INTEGER ∨ type tok = FLOAT)
  end.
Proof.
  intros Hc Hd. unfold read_number.
  destruct (read_number_loop _ _ _ _) as [[res hd] lx1] eqn:Hl.
  assert (Hlt : (left_to_scan lx1 < left_to_scan lx)%nat).
  { pose proof (current_char_left _ _ Hc) as Hpos.
    fold (left_to_scan lx) in Hl. destruct (left_to_scan lx) eqn:Hn; [lia|].
    cbn in Hl. rewrite Hc, Hd in Hl.
    apply read_number_loop_left in Hl. rewrite advance_left in Hl. lia. }
  destruct hd.
  - unfold py_float_of_literal. destruct (forallb _ _); cbn; auto.
  - unfold py_int_of_literal.
    destruct (_ || _); [done|]. destruct (_ <? _)%nat; cbn; auto.
Qed.

Lemma read_string_outcome (q : ascii) (lx : Lexer) (c : ascii) :
  current_char lx = Some c →
  match read_string q lx with
  | inl e => is_LexerError e = true
  | inr (tok, lx') =>
      (left_to_scan lx' < left_to_scan lx)%nat ∧ type tok = STRING
  end.
Proof.
  intros Hc. unfold read_string.
  destruct (read_string_loop _ _ _ _ _ _) as [e|[res lx2]] eqn:Hl.
  - revert Hl. generalize (advance lx) at 2 as lx1.
    generalize (@nil ascii) as res.
    induction (length (remaining (advance lx))) as [|n IH];
      intros res lx1 Hl; cbn in Hl; [discriminate|].
    destruct (current_char lx1) as [c1|]; [|discriminate].
    destruct (ascii_eqb c1 q); [discriminate|].
    destruct (ascii_eqb c1 chr_backslash); [by eapply IH|].
    destruct (ascii_eqb c1 chr_newline); [by simplify_eq|by eapply IH].
  - apply read_string_loop_left in Hl. rewrite advance_left in Hl.
    pose proof (current_char_left _ _ Hc).
    destruct (char_is q (current_char lx2)); [|done].
    split; [|done]. rewrite advance_left. lia.
Qed.

Lemma read_identifier_outcome (lx : Lexer) (c : ascii) :
  current_char lx = Some c → isalpha c || ascii_eqb c "_" = true →
  (left_to_scan (read_identifier lx).2 < left_to_scan lx)%nat
  ∧ type (read_identifier lx).1 ≠ EOF
  ∧ type (read_identifier lx).1 ≠ NEWLINE.
Proof.
  intros Hc Ha. unfold read_identifier.
  destruct (read_identifier_loop _ _ _) as [res lx1] eqn:Hl. cbn.
  split; [|apply lookup_identifier_proper].
  pose proof (current_char_left _ _ Hc) as Hpos.
  fold (left_to_scan lx) in Hl. destruct (left_to_scan lx) eqn:Hn; [lia|].
  cbn in Hl. rewrite Hc in Hl.
  assert (isalnum c || ascii_eqb c "_" = true) as Hal.
  { apply orb_true_iff in Ha as [Ha|Ha];
      [rewrite (isalpha_isalnum _ Ha) | rewrite Ha, orb_true_r]; done. }
  rewrite Hal in Hl.
  apply read_identifier_loop_left in Hl. rewrite advance_left in Hl. lia.
Qed.

Lemma single_char_tokens_proper (c : ascii) (ty : TokenType) :
  single_char_tokens c = Some ty → ty ≠ EOF ∧ ty ≠ NEWLINE.
Proof.
  unfold single_char_tokens.
  repeat (destruct (ascii_eqb c _); [intros [= <-]; done|]). done.
Qed.

Lemma token_step_consumed (lx lx0 lx' : Lexer) (tok : Token) :
  (left_to_scan lx ≤ left_to_scan lx0)%nat →
  (left_to_scan lx' < left_to_scan lx)%nat →
  token_step lx0 (Normal (tok, lx')).
Proof. cbn. lia. Qed.

Lemma next_token_at_newline (n : nat) (lx : Lexer) :
  current_char lx = None ∨ current_char lx = Some chr_newline →
  token_step lx (next_token_fuel (S n) lx).
Proof.
  intros Hc. cbn [next_token_fuel]. unfold skip_whitespace.
  rewrite (skip_whitespace_loop_newline _ _ Hc).
  destruct Hc as [Hc|Hc]; rewrite Hc; cbn.
  - split; [lia | done].
  - rewrite advance_left. apply current_char_left in Hc. lia.
Qed.

Lemma next_token_fuel_step (n : nat) (lx0 : Lexer) :
  token_step lx0 (next_token_fuel (S (S n)) lx0).
Proof.
  remember (S n) as m eqn:Hm. cbn [next_token_fuel]. subst m.
  pose proof (skip_whitespace_loop_left (length (remaining lx0)) lx0) as Hws.
  fold (skip_whitespace lx0) in Hws. set (lx := skip_whitespace lx0) in *.
  destruct (current_char lx) as [c|] eqn:Hc; [|cbn; split; [lia|done]].
  pose proof (current_char_left _ _ Hc) as Hpos.
  destruct (ascii_eqb c "#") eqn:Hhash.
  { pose proof (skip_comment_loop_left (length (remaining lx)) lx) as Hcm.
    pose proof (skip_comment_loop_stops (length (remaining lx)) lx
                  ltac:(unfold left_to_scan; lia)) as Hstop.
    fold (skip_comment lx) in Hcm, Hstop.
    pose proof (next_token_at_newline n _ Hstop) as Hstep.
    destruct (next_token_fuel (S n) (skip_comment lx)) as [[tok lx']| |];
      [|exact Hstep|exact Hstep].
    destruct Hstep as [Hle Hlt]. split; [lia|].
    intros He. specialize (Hlt He). lia. }
  destruct (ascii_eqb c chr_newline).
  { eapply token_step_consumed; [exact Hws|]. rewrite advance_left. lia. }
  destruct (ascii_eqb c chr_dquote || ascii_eqb c chr_squote).
  { pose proof (read_string_outcome c lx c Hc) as Hs.
    destruct (read_string c lx) as [e|[tok lx']]; cbn.
    - by rewrite Hs.
    - lia. }
  destruct (isdigit c) eqn:Hd.
  { pose proof (read_number_outcome lx c Hc Hd) as Hs.
    destruct (read_number lx) as [e|[tok lx']]; cbn.
    - by rewrite Hs, orb_true_r.
    - lia. }
  destruct (isalpha c || ascii_eqb c "_") eqn:Ha.
  { pose proof (read_identifier_outcome lx c Hc Ha) as Hs.
    destruct (read_identifier lx) as [tok lx']; cbn in *. lia. }
  repeat match goal with
  | |- token_step _ (if ?b then _ else _) =>
      destruct b;
      [ eapply token_step_consumed; [exact Hws|];
        rewrite !advance_left; lia |]
  end.
  destruct (single_char_tokens c) as [ty|]; [|done].
  eapply token_step_consumed; [exact Hws|]. rewrite advance_left. lia.
Qed.

Lemma next_token_step (lx : Lexer) : token_step lx (next_token lx).
Proof. apply next_token_fuel_step. Qed.

Lemma tokenize_loop_outcome (n : nat) (tokens : list Token) (lx : Lexer) :
  (left_to_scan lx < n)%nat →
  Forall (λ t, type t ≠ NEWLINE) tokens →
  match tokenize_loop n tokens lx with
  | Normal r => well_ended r
  | Raise e => is_LexerError e || is_ValueError e = true
  | OutOfFuel => False
  end.
Proof.
  revert tokens lx. induction n as [|n IH]; intros tokens lx Hn Hok; [lia|].
  cbn [tokenize_loop]. pose proof (next_token_step lx) as Hstep.
  destruct (next_token lx) as [[tok lx']|e|]; cbn in Hstep; [|done|done].
  destruct Hstep as [Hle Hlt]. unfold TokenType_eqb.
  destruct (decide (type tok = EOF)) as [He|He].
  - rewrite (bool_decide_eq_true_2 _ He).
    rewrite bool_decide_eq_false_2 by (rewrite He; done). cbn.
    exists tokens, tok. split; [done|]. split; [done|].
    apply Forall_app. split; [done|]. constructor; [|done]. by rewrite He.
  - rewrite (bool_decide_eq_false_2 _ He).
    apply IH; [specialize (Hlt He); lia|].
    destruct (decide (type tok = NEWLINE)) as [Hnl|Hnl].
    + by rewrite (bool_decide_eq_true_2 _ Hnl).
    + rewrite (bool_decide_eq_false_2 _ Hnl). cbn.
      apply Forall_app. split; [done|]. by constructor.
Qed.

Lemma left_to_scan_new (source : string) :
  left_to_scan (new_Lexer source) = String.length source.
Proof.
  unfold left_to_scan, new_Lexer, chars_of_str. cbn.
  induction source as [|c s IH]; cbn; [done | by rewrite IH].
Qed.

(** C8: [tokenize] terminates on every source.  A token list it returns
    is non-empty, ends with the EOF token and holds no NEWLINE token.
    When it raises, the exception is a [LexerError] or the [ValueError]
    of the host's [int()], and the second case occurs: on the source
    made of the character U+00B2, which [str.isdigit] accepts and
    [int()] rejects, [tokenize] raises [ValueError], and [run_source]
    reports it as an internal error. *)
Theorem tokenize_outcome :
  (∀ source,
     match tokenize source with
     | Normal tokens => well_ended tokens
     | Raise e => is_LexerError e || is_ValueError e = true
     | OutOfFuel => False
     end)
  ∧ isdigit "178"%char = true
  ∧ tokenize superscript_two
    = Raise (PyExc ValueError ("invalid literal for int() with base 10: "
                               +++ quoted superscript_two))
  ∧ (∀ fuel w,
       run_source fuel superscript_two w
       = Some (1, print_lines
                    ["Internal Error: invalid literal for int() with base 10: "
                     +++ quoted superscript_two] w)).
Proof.
  split.
  { intros source. apply tokenize_loop_outcome; [|constructor].
    rewrite left_to_scan_new. lia. }
  split; [reflexivity|]. split; [reflexivity|].
  intros fuel w. reflexivity.
Qed.

End Scanner.

(* ================================================================== *)
(** ** Closed instances, run on [SampleHost.host] *)
(* ================================================================== *)

Section Examples.
#[local] Existing Instance SampleHost.host.


(** Against C2 as stated: a block that ends with a declaration has the
    declared value, and an assignment statement has the value of its
    right-hand side. *)
Lemma let_in_block_yields_value :
  (evaluate 10 "if true { let x = 5 }" empty_world).1 = Normal (VInt 5)
  ∧ (evaluate 10 "if true { const c = 7 }" empty_world).1 = Normal (VInt 7)
  ∧ (evaluate 10 "let x = 1; x += 2" empty_world).1 = Normal (VInt 2)
  ∧ (evaluate 10 "let x = 1; x = 3" empty_world).1 = Normal (VInt 3).
Proof. repeat split; vm_compute; reflexivity. Qed.

(** An instance of C4: [false and boom] and [true or boom] do not
    evaluate the unbound name [boom]. *)
Lemma logical_short_circuit_witness :
  eval 6 (NExpression (BinaryOp "and" (BooleanLiteral false)
                                      (Identifier "boom"))) 0 start
    = (Normal (VBool false), start)
  ∧ eval 6 (NExpression (BinaryOp "or" (BooleanLiteral true)
                                       (Identifier "boom"))) 0 start
    = (Normal (VBool true), start)
  ∧ eval 5 (NExpression (Identifier "boom")) 0 start
    = (Raise (KiraRuntimeError "Undefined variable: boom"), start).
Proof.
  split; [|split].
  - exact (proj1 (logical_short_circuit 5 (BooleanLiteral false)
                    (Identifier "boom") 0 start start (VBool false)
                    eq_refl)).
  - exact (proj2 (logical_short_circuit 5 (BooleanLiteral true)
                    (Identifier "boom") 0 start start (VBool true)
                    eq_refl)).
  - reflexivity.
Defined.

(** Against C7 as stated: [1 < 'a'] ends the run with an internal error. *)
Lemma mixed_comparison_is_internal_error :
  run_source 10 "1 < 'a'" empty_world
    = Some (1, mkWorld
                 ["Internal Error: '<' not supported between instances of "
                  +++ "'int' and 'str'"] [])
  ∧ run_source 10 "null >= 1" empty_world
    = Some (1, mkWorld
                 ["Internal Error: '>=' not supported between instances of "
                  +++ "'NoneType' and 'int'"] []).
Proof. split; vm_compute; reflexivity. Qed.

(** An instance of C7 (amended). *)
Lemma mixed_comparison_type_error_witness :
  is_comparison "<" = true
  ∧ ordered_kinds (VInt 1) (VStr "a") = false
  ∧ eval 6 (NExpression (BinaryOp "<" (IntegerLiteral 1) (StringLiteral "a")))
         0 start
    = (Raise (PyExc TypeError
                ("'<' not supported between instances of 'int' and 'str'")),
       start).
Proof.
  split; [reflexivity|]. split; [reflexivity|].
  exact (proj1 (mixed_comparison_type_error 5 "<" (IntegerLiteral 1)
                  (StringLiteral "a") 0 start start start (VInt 1) (VStr "a")
                  eq_refl eq_refl eq_refl eq_refl)).
Defined.

(** Against C6 as stated: with [k] the constant 1, [k += 'a'] raises
    the host's [TypeError] for the addition, not the error of the
    constant; and the error of the constant is reported as an internal
    error. *)
Lemma const_compound_assign_type_error :
  (evaluate 10 "const k = 1; k += 'a'" empty_world).1
    = Raise (PyExc TypeError
               "unsupported operand type(s) for +: 'int' and 'str'")
  ∧ (evaluate 10 "const k = 1; k -= null" empty_world).1
    = Raise (PyExc TypeError
               "unsupported operand type(s) for -: 'int' and 'NoneType'")
  ∧ run_source 10 "const k = 1; k = 2" empty_world
    = Some (1, mkWorld ["Internal Error: Cannot reassign constant 'k'"] []).
Proof. repeat split; vm_compute; reflexivity. Qed.

(** An instance of C6 (amended): at top level, and from the scope of a
    call. *)
Lemma const_immutable_witness :
  eval 5 (NStatement (ConstStatement "k" (IntegerLiteral 1))) 0 start
    = (Normal (VInt 1), after_const)
  ∧ const_bound after_const 0 "k" (VInt 1)
  ∧ eval 6 (NStatement (AssignStatement "k" "=" (IntegerLiteral 2)))
         0 after_const
    = (Raise (PyExc RuntimeError "Cannot reassign constant 'k'"),
       after_const)
  ∧ eval 6 (NStatement (LetStatement "k" (IntegerLiteral 2))) 0 after_const
    = (Raise (cannot_reassign "k"), after_const)
  ∧ targets after_call 1 "k" 0
  ∧ eval 6 (NStatement (AssignStatement "k" "=" (IntegerLiteral 2)))
         1 after_call
    = (Raise (PyExc RuntimeError "Cannot reassign constant 'k'"),
       after_call)
  ∧ (evaluate 10 "const k = 1; let f = fn() { k = 2 }; f()" empty_world).1
    = Raise (cannot_reassign "k").
Proof.
  assert (Hdecl : eval 5 (NStatement (ConstStatement "k" (IntegerLiteral 1)))
                       0 start = (Normal (VInt 1), after_const))
    by (vm_compute; reflexivity).
  assert (Hρ : (0 < length (envs start))%nat) by (cbn; lia).
  assert (Hcall : eval 6 (NExpression empty_call) 0 after_const
                  = (Normal VNone, after_call))
    by (vm_compute; reflexivity).
  assert (Ht : targets after_call 1 "k" 0) by (vm_compute; reflexivity).
  destruct (const_immutable "k" 0 (IntegerLiteral 1) 5 start after_const
              after_const (VInt 1) Hρ Hdecl (later_now after_const))
    as (Hc & _ & _ & Hr & Hd).
  destruct (Hr 5%nat 0%nat (IntegerLiteral 2) (VInt 2) after_const eq_refl
              (proj1 (Hd 5%nat (IntegerLiteral 2) (VInt 2) after_const
                         eq_refl)))
    as (Hassign & _).
  destruct (Hd 5%nat (IntegerLiteral 2) (VInt 2) after_const eq_refl)
    as (_ & Hlet & _).
  destruct (const_immutable "k" 0 (IntegerLiteral 1) 5 start after_const
              after_call (VInt 1) Hρ Hdecl
              (later_eval _ _ _ _ _ _ _ Hcall (later_now after_call)))
    as (_ & _ & _ & Hr' & _).
  destruct (Hr' 5%nat 1%nat (IntegerLiteral 2) (VInt 2) after_call eq_refl Ht)
    as (Hnested & _).
  split; [exact Hdecl|]. split; [exact Hc|]. split; [exact Hassign|].
  split; [exact Hlet|]. split; [exact Ht|]. split; [exact Hnested|].
  vm_compute. reflexivity.
Defined.



(** An instance of C2 (amended): [let x = 5] has the value of [5], and a
    loop that completes has the value [null]. *)
Lemma statement_values_witness :
  (∃ σ1, eval 5 (NExpression (IntegerLiteral 5)) 0 start
         = (Normal (VInt 5), σ1))
  ∧ (eval 6 (NStatement (WhileStatement (BooleanLiteral false)
                                        (BlockStatement []))) 0 start).1
    = Normal VNone.
Proof.
  split.
  - refine (proj1 (statement_values 5 0 start
                     (eval 6 (NStatement (LetStatement "x" (IntegerLiteral 5)))
                           0 start).2 (VInt 5))
              "x" (IntegerLiteral 5) _).
    vm_compute. reflexivity.
  - destruct (eval 6 (NStatement (WhileStatement (BooleanLiteral false)
                                    (BlockStatement []))) 0 start)
      as [[r| |] σ'] eqn:He; try (vm_compute in He; discriminate).
    cbn. f_equal.
    exact (proj1 (proj2 (proj2 (proj2 (statement_values 5 0 start σ' r))))
             (BooleanLiteral false) (BlockStatement []) He).
Defined.

(** An instance of C10: [[7, 8][true]] is [8]. *)
Lemma bool_is_int_witness :
  (eval 6 (NExpression (IndexExpression
                          (ArrayLiteral [IntegerLiteral 7; IntegerLiteral 8])
                          (BooleanLiteral true))) 0 start).1
  = Normal (VInt 8).
Proof.
  pose (arr := ArrayLiteral [IntegerLiteral 7; IntegerLiteral 8]).
  pose (σ1 := (eval 5 (NExpression arr) 0 start).2).
  destruct (proj2 (proj2 bool_is_int) 5%nat arr (BooleanLiteral true)
              0%nat start σ1 σ1 0%nat [VInt 7; VInt 8] true)
    as (v & Hv & He).
  - vm_compute. reflexivity.
  - reflexivity.
  - reflexivity.
  - cbn. lia.
  - fold arr. rewrite He. cbn in Hv. injection Hv as <-. reflexivity.
Defined.


End Examples.

(* ================================================================== *)
(** * Further properties of the code *)
(* ================================================================== *)

(** ** environment.py: lookups after updates *)

Lemma get_from_rebind (n : nat) (es : list Environment) (q : nat)
    (e e' : Environment) (ρ0 : nat) (name' : string) :
  es !! q = Some e → parent e' = parent e →
  store e' !! name' = store e !! name' →
  Environment_get_from n (<[q := e']> es) ρ0 name'
  = Environment_get_from n es ρ0 name'.
Proof.
  intros Hq Hp Hs. revert ρ0. induction n as [|n IH]; intros ρ0; [done|].
  cbn [Environment_get_from].
  destruct (decide (ρ0 = q)) as [->|Hne].
  - rewrite list_lookup_insert_eq by (eapply lookup_lt_Some; eauto).
    rewrite Hq, Hs, Hp. destruct (store e !! name'); [done|].
    destruct (parent e); [apply IH | done].
  - rewrite list_lookup_insert_ne by done.
    destruct (es !! ρ0) as [e0|]; [|done].
    destruct (store e0 !! name'); [done|].
    destruct (parent e0); [apply IH | done].
Qed.

(** X1: after [set(name, v)] has succeeded on a scope that exists,
    [get(name)] from that scope yields [v], every other name resolves
    from every scope as before, and the heap and the streams are
    untouched. *)
Theorem set_then_get (σ σ' : State) (ρ : nat) (name : string) (v r : Value)
    (is_const : bool) :
  (ρ < length (envs σ))%nat →
  Environment_set ρ name v is_const σ = (Normal r, σ') →
  r = v
  ∧ Environment_get (envs σ') ρ name = Some v
  ∧ (∀ ρ0 name', name' ≠ name →
       Environment_get (envs σ') ρ0 name' = Environment_get (envs σ) ρ0 name')
  ∧ heap σ' = heap σ ∧ world σ' = world σ.
Proof.
  intros Hρ Hset. unfold Environment_set in Hset.
  destruct (lookup_lt_is_Some_2 _ _ Hρ) as [e He]. rewrite He in Hset.
  destruct (bool_decide (name ∈ constants e)); [discriminate|].
  injection Hset as <- <-. split; [done|]. cbn [set_envs envs heap world].
  split; [|split; [|done]].
  - unfold Environment_get. cbn [Environment_get_from].
    rewrite list_lookup_insert_eq by done. cbn [store].
    by rewrite lookup_insert_eq.
  - intros ρ0 name' Hne. unfold Environment_get.
    eapply get_from_rebind; [exact He | done |].
    cbn [store]. by rewrite lookup_insert_ne.
Qed.

Lemma assign_from_inv (n : nat) (ρ : nat) (name : string) (v r : Value)
    (σ σ' : State) :
  Environment_assign_from n ρ name v σ = (Normal r, σ') →
  r = v
  ∧ ∃ q e, binding_scope_from n (envs σ) ρ name = Some q
           ∧ envs σ !! q = Some e
           ∧ is_Some (store e !! name)
           ∧ (name ∉ constants e)
           ∧ σ' = set_envs σ (<[q := rebind e name v]> (envs σ)).
Proof.
  revert ρ. induction n as [|n IH]; intros ρ Ha; [discriminate|].
  cbn [Environment_assign_from binding_scope_from] in *.
  destruct (envs σ !! ρ) as [e|] eqn:He; [|discriminate].
  destruct (store e !! name) as [v0|] eqn:Hs.
  - destruct (bool_decide (name ∈ constants e)) eqn:Hc; [discriminate|].
    apply bool_decide_eq_false in Hc. injection Ha as <- <-.
    split; [done|]. exists ρ, e. rewrite Hs. eauto 10.
  - destruct (parent e) as [p|]; [|discriminate]. apply IH, Ha.
Qed.

Lemma binding_scope_binds (n : nat) (es : list Environment) (ρ q : nat)
    (name : string) :
  binding_scope_from n es ρ name = Some q →
  ∃ e, es !! q = Some e ∧ is_Some (store e !! name).
Proof.
  revert ρ. induction n as [|n IH]; intros ρ Hb; [discriminate|].
  cbn [binding_scope_from] in Hb.
  destruct (es !! ρ) as [e0|] eqn:He; [|discriminate].
  destruct (store e0 !! name) as [v0|] eqn:Hs.
  - injection Hb as <-. exists e0. rewrite Hs. eauto.
  - destruct (parent e0) as [p|]; [eauto | discriminate].
Qed.

Lemma get_from_binding_scope (n : nat) (es : list Environment) (ρ q : nat)
    (e : Environment) (name : string) (v : Value) :
  binding_scope_from n es ρ name = Some q →
  es !! q = Some e →
  Environment_get_from n (<[q := rebind e name v]> es) ρ name = Some v.
Proof.
  intros Hb Hq. revert ρ Hb. induction n as [|n IH]; intros ρ Hb;
    [discriminate|].
  cbn [binding_scope_from Environment_get_from] in *.
  destruct (es !! ρ) as [e0|] eqn:He; [|discriminate].
  destruct (store e0 !! name) as [v0|] eqn:Hs.
  - injection Hb as ->. rewrite list_lookup_insert_eq
      by (eapply lookup_lt_Some; eauto).
    cbn [rebind store]. by rewrite lookup_insert_eq.
  - destruct (parent e0) as [p|] eqn:Hp; [|discriminate].
    assert (ρ ≠ q) as Hne.
    { intros ->. destruct (binding_scope_binds _ _ _ _ _ Hb) as (e1 & He1 & Hb1).
      rewrite He in He1. injection He1 as <-. rewrite Hs in Hb1.
      by destruct Hb1. }
    rewrite list_lookup_insert_ne by done. rewrite He, Hs, Hp. apply IH, Hb.
Qed.

(** X2: after [assign(name, v)] has succeeded from a scope,
    [get(name)] from that scope yields [v] and every other name resolves
    from every scope as before; every scope keeps its names, its
    constants and its parent, and no scope is created. *)
Theorem assign_then_get (σ σ' : State) (ρ : nat) (name : string)
    (v r : Value) :
  Environment_assign ρ name v σ = (Normal r, σ') →
  r = v
  ∧ Environment_get (envs σ') ρ name = Some v
  ∧ (∀ ρ0 name', name' ≠ name →
       Environment_get (envs σ') ρ0 name' = Environment_get (envs σ) ρ0 name')
  ∧ (∀ ρ0 e, envs σ !! ρ0 = Some e →
       ∃ e', envs σ' !! ρ0 = Some e'
             ∧ constants e' = constants e ∧ parent e' = parent e
             ∧ dom (store e') = dom (store e))
  ∧ length (envs σ') = length (envs σ)
  ∧ heap σ' = heap σ ∧ world σ' = world σ.
Proof.
  intros Ha. apply assign_from_inv in Ha
    as (-> & q & e & Hb & Hq & Hs & Hc & ->).
  split; [done|]. cbn [set_envs envs heap world].
  split; [|split; [|split; [|split; [|done]]]].
  - unfold Environment_get. by apply get_from_binding_scope.
  - intros ρ0 name' Hne. unfold Environment_get.
    eapply get_from_rebind; [exact Hq | done |].
    cbn [rebind store]. by rewrite lookup_insert_ne.
  - intros ρ0 e0 He0. destruct (decide (ρ0 = q)) as [->|Hne].
    + rewrite list_lookup_insert_eq by (eapply lookup_lt_Some; eauto).
      rewrite Hq in He0. injection He0 as <-.
      exists (rebind e name v). cbn [rebind constants parent store].
      repeat split. rewrite dom_insert_L.
      apply elem_of_dom in Hs. apply subseteq_union_1_L.
      by apply singleton_subseteq_l.
    + rewrite list_lookup_insert_ne by done. eauto.
  - by rewrite length_insert.
Qed.

(** X3: [assign] never creates a binding.  It raises the
    [RuntimeError] [Undefined variable: name], changing nothing, exactly
    when [get] finds no binding of the name; on a name that [get] finds
    it raises the error of constants or succeeds. *)
Theorem assign_needs_binding (σ : State) (ρ : nat) (name : string)
    (v : Value) :
  (Environment_get (envs σ) ρ name = None ↔
   Environment_assign ρ name v σ = (Raise (undefined_variable name), σ))
  ∧ (∀ v0, Environment_get (envs σ) ρ name = Some v0 →
       Environment_assign ρ name v σ = (Raise (cannot_reassign name), σ)
       ∨ ∃ σ', Environment_assign ρ name v σ = (Normal v, σ')).
Proof.
  unfold Environment_get, Environment_assign. generalize (S ρ) as n.
  intros n. revert ρ. induction n as [|n IH]; intros ρ.
  { cbn. split; [done|]. intros v0 [=]. }
  cbn [Environment_get_from Environment_assign_from].
  destruct (envs σ !! ρ) as [e|]; [|split; [done | intros v0 [=]]].
  destruct (store e !! name) as [v1|].
  - destruct (bool_decide (name ∈ constants e)).
    + split; [split; [done | intros [=]] | intros; by left].
    + split; [split; [done | intros [=]] | intros; right; eauto].
  - destruct (parent e) as [p|]; [apply IH|].
    split; [done | intros v0 [=]].
Qed.

(** X4: [exists(name)] holds exactly when [get(name)] finds a
    binding. *)
Theorem exists_agrees_with_get (es : list Environment) (ρ : nat)
    (name : string) :
  Environment_exists es ρ name = true ↔ is_Some (Environment_get es ρ name).
Proof.
  unfold Environment_exists, Environment_get. generalize (S ρ) as n.
  intros n. revert ρ. induction n as [|n IH]; intros ρ; cbn.
  { split; [done | by intros [? [=]]]. }
  destruct (es !! ρ) as [e|]; [|split; [done | by intros [? [=]]]].
  destruct (store e !! name); [split; eauto|].
  destruct (parent e); [apply IH | split; [done | by intros [? [=]]]].
Qed.

Lemma get_from_earlier (n : nat) (es es' : list Environment) (ρ0 : nat)
    (name : string) :
  parents_earlier es →
  (∀ ρ', (ρ' ≤ ρ0)%nat → es' !! ρ' = es !! ρ') →
  Environment_get_from n es' ρ0 name = Environment_get_from n es ρ0 name.
Proof.
  intros Hwf. revert ρ0. induction n as [|n IH]; intros ρ0 Hsame; [done|].
  cbn [Environment_get_from]. rewrite Hsame by lia.
  destruct (es !! ρ0) as [e|] eqn:He; [|done].
  destruct (store e !! name); [done|].
  destruct (parent e) as [p|] eqn:Hp; [|done].
  apply IH. intros ρ' Hle. apply Hsame.
  specialize (Hwf _ _ _ He Hp). lia.
Qed.

(** X5: when every scope is younger than its parent, a [set] on a
    scope, whatever its outcome, changes nothing of what a scope created
    earlier resolves (the bindings of a call are invisible outside it),
    and every scope is still younger than its parent. *)
Theorem inner_scope_is_invisible (σ σ' : State) (ρ ρ0 : nat)
    (name name' : string) (v : Value) (is_const : bool) (r : Outcome Value) :
  parents_earlier (envs σ) →
  (ρ0 < ρ)%nat →
  Environment_set ρ name v is_const σ = (r, σ') →
  Environment_get (envs σ') ρ0 name' = Environment_get (envs σ) ρ0 name'
  ∧ parents_earlier (envs σ').
Proof.
  intros Hwf Hlt Hset. unfold Environment_set in Hset.
  destruct (envs σ !! ρ) as [e|] eqn:He; [|by injection Hset as <- <-].
  destruct (bool_decide (name ∈ constants e)); [by injection Hset as <- <-|].
  injection Hset as <- <-. cbn [set_envs envs]. split.
  - apply get_from_earlier; [done|]. intros ρ' Hle.
    apply list_lookup_insert_ne. lia.
  - intros ρ' e' p He' Hp. destruct (decide (ρ' = ρ)) as [->|Hne].
    + rewrite list_lookup_insert_eq in He' by (eapply lookup_lt_Some; eauto).
      injection He' as <-. cbn [parent] in Hp. eauto.
    + rewrite list_lookup_insert_ne in He' by done. eauto.
Qed.

Section EvaluatorFacts.
Context `{PyHost}.

(** ** evaluator.py: what evaluation keeps *)

(** X6: whatever a node evaluates to, normally or not, every scope that
    existed before still exists afterwards with the same parent; it has
    lost no name and no constant, and its constants are bound as they
    were. *)
Theorem evaluation_keeps_scopes (fuel : nat) (node : Node) (env : nat)
    (σ σ' : State) (r : Outcome Value) (ρ : nat) (e : Environment) :
  eval fuel node env σ = (r, σ') →
  envs σ !! ρ = Some e →
  ∃ e', envs σ' !! ρ = Some e'
        ∧ parent e' = parent e
        ∧ constants e ⊆ constants e'
        ∧ dom (store e) ⊆ dom (store e')
        ∧ ∀ k, k ∈ constants e → store e' !! k = store e !! k.
Proof.
  intros He Hρ. exact (eval_preserving fuel node env σ r σ' He ρ e Hρ).
Qed.

(** ** evaluator.py: arithmetic guards *)

Lemma binary_operands (k : nat) (op : string) (a b : Expression) (env : nat)
    (σ σ1 σ2 : State) (vl vr : Value) :
  String.eqb op "and" = false → String.eqb op "or" = false →
  eval k (NExpression a) env σ = (Normal vl, σ1) →
  eval k (NExpression b) env σ1 = (Normal vr, σ2) →
  eval (S k) (NExpression (BinaryOp op a b)) env σ
  = binary_operation k op vl vr σ2.
Proof.
  intros Hand Hor Ha Hb. rewrite eval_S. cbn [dispatch].
  unfold eval_BinaryOp. rewrite Hand, Hor. munfold. by rewrite Ha, Hb.
Qed.

(** X7: [/] and [%] test the right operand before anything else: when
    it is the integer zero or [false] they raise [Division by zero] or
    [Modulo by zero] whatever the left operand is (a string included);
    and [%] on two integers with a non-zero divisor is the modulo with
    the sign of the divisor. *)
Theorem zero_divisor_is_rejected (k : nat) (a b : Expression) (env : nat)
    (σ σ1 σ2 : State) (vl vr : Value) :
  eval k (NExpression a) env σ = (Normal vl, σ1) →
  eval k (NExpression b) env σ1 = (Normal vr, σ2) →
  (as_int vr = Some 0 →
     eval (S k) (NExpression (BinaryOp "/" a b)) env σ
       = (Raise (KiraRuntimeError "Division by zero"), σ2)
     ∧ eval (S k) (NExpression (BinaryOp "%" a b)) env σ
       = (Raise (KiraRuntimeError "Modulo by zero"), σ2))
  ∧ (∀ x y, as_int vl = Some x → as_int vr = Some y → y ≠ 0 →
       eval (S k) (NExpression (BinaryOp "%" a b)) env σ
       = (Normal (VInt (x mod y)), σ2)).
Proof.
  intros Ha Hb. split.
  - intros Hz.
    assert (equals_zero vr = true) as Heq
      by (destruct vr as [| [] | | | | | | | |]; cbn in Hz; simplify_eq; done).
    split; erewrite binary_operands by (done || eassumption);
      unfold binary_operation; cbn [String.eqb Ascii.eqb Bool.eqb];
      by rewrite Heq.
  - intros x y Hx Hy Hne.
    erewrite binary_operands by (done || eassumption).
    unfold binary_operation; cbn [String.eqb Ascii.eqb Bool.eqb].
    assert (as_num vl = Some (NInt x) ∧ as_num vr = Some (NInt y)
            ∧ is_str vl = false) as (Hnl & Hnr & Hstr).
    { destruct vl as [| [] | | | | | | | |], vr as [| [] | | | | | | | |];
        cbn in Hx, Hy; simplify_eq; done. }
    unfold equals_zero. rewrite Hnr. cbn [num_eq].
    rewrite (proj2 (Z.eqb_neq y 0) Hne).
    unfold py_mod. destruct vl; try discriminate; rewrite ?Hnl, Hnr;
      cbn in Hnl; simplify_eq; unfold num_mod;
      rewrite (proj2 (Z.eqb_neq y 0) Hne); reflexivity.
Qed.

(** ** evaluator.py: indexing *)

(** X8: indexing an array with an integer [n] yields the element at [n]
    when [0 <= n < len].  Otherwise, for [n] of at most 4300 digits (an
    integer the host's f-string prints), it raises
    [Array index out of bounds: n]: the negative indices of the host are
    rejected. *)
Theorem array_index_is_checked (k : nat) (a i : Expression) (env : nat)
    (σ σ1 σ2 : State) (l : nat) (n : Z) :
  eval k (NExpression a) env σ = (Normal (VList l), σ1) →
  eval k (NExpression i) env σ1 = (Normal (VInt n), σ2) →
  let items := list_items (heap σ2) l in
  (0 ≤ n < Z.of_nat (length items) →
     ∃ v, items !! Z.to_nat n = Some v
          ∧ eval (S k) (NExpression (IndexExpression a i)) env σ
            = (Normal v, σ2))
  ∧ (n < 0 ∨ Z.of_nat (length items) ≤ n →
     int_prints n = true →
     eval (S k) (NExpression (IndexExpression a i)) env σ
     = (Raise (KiraRuntimeError ("Array index out of bounds: "
                                 +++ str_of_Z n)), σ2)).
Proof.
  intros Ha Hi items.
  assert (Heq : eval (S k) (NExpression (IndexExpression a i)) env σ
    = match (if out_of_range n (length items) then None
             else items !! Z.to_nat n) with
      | Some v => (Normal v, σ2)
      | None => (Raise (KiraRuntimeError ("Array index out of bounds: "
                                          +++ str_of_Z n)), σ2)
      end).
  { rewrite eval_S. cbn [dispatch]. unfold eval_IndexExpression. munfold.
    rewrite Ha, Hi. cbn [as_int py_str_key]. fold items.
    destruct (if out_of_range n (length items) then None
              else items !! Z.to_nat n); reflexivity. }
  rewrite Heq. unfold out_of_range. split.
  - intros [Hlo Hhi].
    destruct (lookup_lt_is_Some_2 items (Z.to_nat n)) as [v Hv]; [lia|].
    exists v. split; [done|].
    rewrite (proj2 (Z.ltb_ge n 0)) by lia.
    rewrite (proj2 (Z.leb_gt _ _)) by lia. cbn. by rewrite Hv.
  - intros [Hlo|Hhi] _.
    + by rewrite (proj2 (Z.ltb_lt n 0)) by lia.
    + rewrite (proj2 (Z.leb_le _ _)) by lia. by rewrite orb_true_r.
Qed.

(** X9: indexing a string with an integer [n] yields the one-character
    string at [n] when [0 <= n < len].  Otherwise, for [n] of at most
    4300 digits (an integer the host's f-string prints), it raises
    [String index out of bounds: n]. *)
Theorem string_index_is_checked (k : nat) (a i : Expression) (env : nat)
    (σ σ1 σ2 : State) (s : string) (n : Z) :
  eval k (NExpression a) env σ = (Normal (VStr s), σ1) →
  eval k (NExpression i) env σ1 = (Normal (VInt n), σ2) →
  (0 ≤ n < Z.of_nat (String.length s) →
     ∃ c, String.get (Z.to_nat n) s = Some c
          ∧ eval (S k) (NExpression (IndexExpression a i)) env σ
            = (Normal (VStr (str1 c)), σ2))
  ∧ (n < 0 ∨ Z.of_nat (String.length s) ≤ n →
     int_prints n = true →
     eval (S k) (NExpression (IndexExpression a i)) env σ
     = (Raise (KiraRuntimeError ("String index out of bounds: "
                                 +++ str_of_Z n)), σ2)).
Proof.
  intros Ha Hi.
  assert (Heq : eval (S k) (NExpression (IndexExpression a i)) env σ
    = match (if out_of_range n (String.length s) then None
             else String.get (Z.to_nat n) s) with
      | Some c => (Normal (VStr (str1 c)), σ2)
      | None => (Raise (KiraRuntimeError ("String index out of bounds: "
                                          +++ str_of_Z n)), σ2)
      end).
  { rewrite eval_S. cbn [dispatch]. unfold eval_IndexExpression. munfold.
    rewrite Ha, Hi. cbn [as_int py_str_key].
    destruct (if out_of_range n (String.length s) then None
              else String.get (Z.to_nat n) s); reflexivity. }
  rewrite Heq. unfold out_of_range. split.
  - intros [Hlo Hhi].
    assert (∃ c, String.get (Z.to_nat n) s = Some c) as [c Hc].
    { assert (Z.to_nat n < String.length s)%nat as Hlt by lia.
      revert Hlt. generalize (Z.to_nat n). clear.
      induction s as [|c s IH]; intros m Hlt; cbn in *; [lia|].
      destruct m; [eauto | apply IH; lia]. }
    exists c. split; [done|].
    rewrite (proj2 (Z.ltb_ge n 0)) by lia.
    rewrite (proj2 (Z.leb_gt _ _)) by lia. cbn. by rewrite Hc.
  - intros [Hlo|Hhi] _.
    + by rewrite (proj2 (Z.ltb_lt n 0)) by lia.
    + rewrite (proj2 (Z.leb_le _ _)) by lia. by rewrite orb_true_r.
Qed.

End EvaluatorFacts.

Section EvaluatorFacts2.
Context `{PyHost}.

(** X10: [a[n] = e] on an array with [0 <= n < len] replaces the
    element at [n], in the array itself (whoever holds it sees the
    change), and leaves its length, the other objects and the scopes as
    they were; the statement yields the value stored.  With [n] out of
    these bounds, and of at most 4300 digits (an integer the host's
    f-string prints), it raises [Array index out of bounds: n] and
    changes nothing: an array never grows by assignment. *)
Theorem array_store_is_checked (k : nat) (a i e : Expression) (env : nat)
    (σ σ1 σ2 σ3 : State) (l : nat) (n : Z) (v : Value) :
  eval k (NExpression a) env σ = (Normal (VList l), σ1) →
  eval k (NExpression i) env σ1 = (Normal (VInt n), σ2) →
  eval k (NExpression e) env σ2 = (Normal v, σ3) →
  let items := list_items (heap σ3) l in
  (0 ≤ n < Z.of_nat (length items) →
     ∃ σ', eval (S k) (NStatement (IndexAssignStatement a i e)) env σ
             = (Normal v, σ')
           ∧ list_items (heap σ') l = <[Z.to_nat n := v]> items
           ∧ (∀ l', l' ≠ l → heap σ' !! l' = heap σ3 !! l')
           ∧ envs σ' = envs σ3 ∧ world σ' = world σ3)
  ∧ (n < 0 ∨ Z.of_nat (length items) ≤ n →
     int_prints n = true →
     eval (S k) (NStatement (IndexAssignStatement a i e)) env σ
     = (Raise (KiraRuntimeError ("Array index out of bounds: "
                                 +++ str_of_Z n)), σ3)).
Proof.
  intros Ha Hi He items.
  assert (Heq : eval (S k) (NStatement (IndexAssignStatement a i e)) env σ
    = if out_of_range n (length items)
      then (Raise (KiraRuntimeError ("Array index out of bounds: "
                                     +++ str_of_Z n)), σ3)
      else (Normal v,
            set_heap σ3 (<[l := ListObj (<[Z.to_nat n := v]> items)]>
                           (heap σ3)))).
  { rewrite eval_S. cbn [dispatch]. unfold eval_IndexAssignStatement.
    munfold. rewrite Ha, Hi, He. cbn [as_int py_str_key]. fold items.
    destruct (out_of_range n (length items)); reflexivity. }
  rewrite Heq. unfold out_of_range. split.
  - intros [Hlo Hhi].
    rewrite (proj2 (Z.ltb_ge n 0)) by lia.
    rewrite (proj2 (Z.leb_gt _ _)) by lia. cbn [orb].
    eexists. split; [reflexivity|]. cbn [set_heap heap envs world].
    assert (l < length (heap σ3))%nat as Hl.
    { destruct (decide (l < length (heap σ3))%nat) as [|Hge]; [done|].
      exfalso. subst items. unfold list_items in Hhi.
      rewrite lookup_ge_None_2 in Hhi by lia. cbn in Hhi. lia. }
    split; [|split; [|done]].
    + unfold list_items at 1. by rewrite list_lookup_insert_eq.
    + intros l' Hne. by rewrite list_lookup_insert_ne.
  - intros [Hlo|Hhi] _.
    + by rewrite (proj2 (Z.ltb_lt n 0)) by lia.
    + rewrite (proj2 (Z.leb_le _ _)) by lia. by rewrite orb_true_r.
Qed.

(** ** evaluator.py: calls *)

Lemma call_operands (k : nat) (f : Expression) (args : list Expression)
    (env : nat) (σ σ1 σ2 : State) (fv : Value) (vs : list Value) :
  eval k (NExpression f) env σ = (Normal fv, σ1) →
  eval_list (eval k) args env σ1 = (Normal vs, σ2) →
  eval (S k) (NExpression (CallExpression f args)) env σ
  = apply_function (eval k) fv vs σ2.
Proof.
  intros Hf Hargs. rewrite eval_S. cbn [dispatch].
  unfold eval_CallExpression. munfold. by rewrite Hf, Hargs.
Qed.

(** X11: a call evaluates the callee and then the arguments; if the
    callee is no function it raises [Cannot call T], and if it is a user
    function given another number of arguments than it has parameters it
    raises [Expected n arguments, got m], before any scope is created. *)
Theorem call_is_checked (k : nat) (f : Expression) (args : list Expression)
    (env : nat) (σ σ1 σ2 : State) (fv : Value) (vs : list Value) :
  eval k (NExpression f) env σ = (Normal fv, σ1) →
  eval_list (eval k) args env σ1 = (Normal vs, σ2) →
  (is_callable fv = false →
     eval (S k) (NExpression (CallExpression f args)) env σ
     = (Raise (KiraRuntimeError ("Cannot call " +++ type_name fv)), σ2))
  ∧ (∀ ps body cenv name,
       fv = VFunction ps body cenv name → length vs ≠ length ps →
       eval (S k) (NExpression (CallExpression f args)) env σ
       = (Raise (KiraRuntimeError
                   ("Expected " +++ str_of_nat (length ps)
                    +++ " arguments, got " +++ str_of_nat (length vs))),
          σ2)).
Proof.
  intros Hf Hargs. rewrite (call_operands _ _ _ _ _ _ _ _ _ Hf Hargs).
  split.
  - intros Hc. destruct fv; try discriminate; reflexivity.
  - intros ps body cenv name -> Hlen. cbn [apply_function].
    by rewrite (proj2 (Nat.eqb_neq _ _) Hlen).
Qed.

(** ** evaluator.py: exceptions through loops and calls *)

Lemma while_first_round (k : nat) (c : Expression) (body : Block)
    (env : nat) (σ σ1 : State) (cv : Value) :
  eval k (NExpression c) env σ = (Normal cv, σ1) →
  is_truthy (heap σ1) cv = true →
  eval (S k) (NStatement (WhileStatement c body)) env σ
  = match loop_body (eval k) body env σ1 with
    | (Normal true, σ2) => while_loop (eval k) (pred k) c body env σ2
    | (Normal false, σ2) => (Normal VNone, σ2)
    | (Raise e, σ2) => (Raise e, σ2)
    | (OutOfFuel, σ2) => (OutOfFuel, σ2)
    end.
Proof.
  intros Hc Ht. destruct (eval_Normal_fuel _ _ _ _ _ _ Hc) as [k' ->].
  rewrite eval_S. cbn [dispatch]. unfold eval_WhileStatement.
  cbn [while_loop pred]. munfold. rewrite Hc, Ht.
  destruct (loop_body (eval (S k')) body env σ1) as [[[]| |] σ2];
    reflexivity.
Qed.

(** X12: in a [while] loop whose condition holds, a [break] raised by
    the body ends the loop with [null], in the state the body left; every
    exception of the body other than the two loop signals, a [return]
    included, leaves the loop unchanged. *)
Theorem loop_exits (k : nat) (c : Expression) (body : Block) (env : nat)
    (σ σ1 σ2 : State) (cv : Value) (e : exn) :
  eval k (NExpression c) env σ = (Normal cv, σ1) →
  is_truthy (heap σ1) cv = true →
  eval k (NBlock body) env σ1 = (Raise e, σ2) →
  (e = BreakSignal →
     eval (S k) (NStatement (WhileStatement c body)) env σ
     = (Normal VNone, σ2))
  ∧ (is_loop_signal e = false →
     eval (S k) (NStatement (WhileStatement c body)) env σ = (Raise e, σ2)).
Proof.
  intros Hc Ht Hb. rewrite (while_first_round _ _ _ _ _ _ _ Hc Ht).
  unfold loop_body. munfold. rewrite Hb. split.
  - intros ->. reflexivity.
  - intros Hs. destruct e; try discriminate; reflexivity.
Qed.

Lemma apply_function_body (ev : Node → nat → M Value)
    (ps : list string) (body : Block) (cenv : nat) (name : option string)
    (args : list Value) (σ : State) :
  length args = length ps →
  apply_function ev (VFunction ps body cenv name) args σ
  = match ev (NBlock body) (length (envs σ))
             (set_envs σ (envs σ ++ [mkEnvironment (bind_store ps args ∅) ∅
                                       (Some cenv)])) with
    | (Raise (ReturnValue v), σ') => (Normal v, σ')
    | r => r
    end.
Proof.
  intros Hlen. unfold apply_function.
  rewrite Hlen, Nat.eqb_refl. cbn [negb]. munfold. unfold alloc_env.
  rewrite (bind_parameters_fresh _ _ _ _ (new_Environment (Some cenv))).
  - cbn [set_envs envs heap world new_Environment store parent].
    rewrite insert_app_r_alt, Nat.sub_diag by lia. cbn [insert list_insert].
    destruct (ev _ _ _) as [[v|e|] σ']; try reflexivity.
    destruct e; reflexivity.
  - cbn [set_envs envs].
    rewrite lookup_app_r, Nat.sub_diag by lia. reflexivity.
  - reflexivity.
Qed.

(** X13: a call of a user function stops [return] only: any other
    exception the body raises, [break] and [continue] included, leaves
    the call as it is, so a [break] in a function body reaches the loop
    around the call. *)
Theorem call_passes_exceptions (k : nat) (f : Expression)
    (args : list Expression) (env : nat) (σ σ1 σ2 σ' : State)
    (ps : list string) (body : Block) (cenv : nat) (name : option string)
    (vs : list Value) (e : exn) :
  eval k (NExpression f) env σ = (Normal (VFunction ps body cenv name), σ1) →
  eval_list (eval k) args env σ1 = (Normal vs, σ2) →
  length vs = length ps →
  eval k (NBlock body) (length (envs σ2))
       (set_envs σ2 (envs σ2 ++ [mkEnvironment (bind_store ps vs ∅) ∅
                                   (Some cenv)]))
    = (Raise e, σ') →
  is_ReturnValue e = false →
  eval (S k) (NExpression (CallExpression f args)) env σ = (Raise e, σ').
Proof.
  intros Hf Hargs Hlen Hb He.
  rewrite (call_operands _ _ _ _ _ _ _ _ _ Hf Hargs).
  rewrite apply_function_body by done. rewrite Hb.
  destruct e; try discriminate; reflexivity.
Qed.

End EvaluatorFacts2.

Section EvaluatorFacts3.
Context `{PyHost}.

Lemma kira_str_plain (n : nat) (h : list Object) (v : Value) :
  is_plain v = true → kira_str (S n) h v = Some (plain_str v).
Proof. destruct v; try discriminate; reflexivity. Qed.

(** X14: [+] with a string operand does not fail on [null], booleans,
    strings and integers of at most 4300 digits (those the host's [str]
    prints): it concatenates what [kira_str] prints for the two operands
    ([null], [true], [false], decimal digits, the string itself). *)
Theorem plus_concatenates_with_strings (k : nat) (a b : Expression)
    (env : nat) (σ σ1 σ2 : State) (vl vr : Value) :
  eval k (NExpression a) env σ = (Normal vl, σ1) →
  eval k (NExpression b) env σ1 = (Normal vr, σ2) →
  is_plain vl = true → is_plain vr = true →
  is_str vl || is_str vr = true →
  eval (S k) (NExpression (BinaryOp "+" a b)) env σ
  = (Normal (VStr (plain_str vl +++ plain_str vr)), σ2).
Proof.
  intros Ha Hb Hl Hr Hs.
  destruct (eval_Normal_fuel _ _ _ _ _ _ Ha) as [k' ->].
  erewrite binary_operands by (done || eassumption).
  unfold binary_operation. cbn [String.eqb Ascii.eqb Bool.eqb].
  rewrite Hs. unfold kira_str_M. munfold.
  by rewrite !kira_str_plain.
Qed.

(** X15: a [for] loop over an empty array, dict or string yields
    [null] without evaluating its body or binding its variable; over a
    value that is none of the three it raises [Cannot iterate over T]. *)
Theorem for_over_nothing (k : nat) (x : string) (it : Expression)
    (body : Block) (env : nat) (σ σ1 : State) (v : Value) :
  eval k (NExpression it) env σ = (Normal v, σ1) →
  (is_iterable v = true → is_truthy (heap σ1) v = false →
     eval (S k) (NStatement (ForStatement x it body)) env σ
     = (Normal VNone, σ1))
  ∧ (is_iterable v = false →
     eval (S k) (NStatement (ForStatement x it body)) env σ
     = (Raise (KiraRuntimeError ("Cannot iterate over " +++ type_name v)),
        σ1)).
Proof.
  intros Hit. destruct (eval_Normal_fuel _ _ _ _ _ _ Hit) as [k' ->].
  rewrite eval_S. cbn [dispatch]. unfold eval_ForStatement. munfold.
  rewrite Hit. split.
  - intros Hi Ht. destruct v; try discriminate; cbn [is_truthy] in Ht.
    + apply Nat.ltb_ge in Ht.
      destruct s; [reflexivity | cbn in Ht; lia].
    + cbn [for_list]. munfold. apply Nat.ltb_ge in Ht.
      destruct (list_items (heap σ1) l); [reflexivity | cbn in Ht; lia].
    + cbn [for_dict]. munfold. rewrite Nat.eqb_refl. cbn [negb].
      apply Nat.ltb_ge in Ht.
      destruct (dict_entries (heap σ1) l); [reflexivity | cbn in Ht; lia].
  - intros Hi. destruct v; try discriminate; reflexivity.
Qed.

Lemma assign_from_undefined (n : nat) (ρ : nat) (name : string) (v : Value)
    (σ : State) :
  Environment_get_from n (envs σ) ρ name = None →
  Environment_assign_from n ρ name v σ = (Raise (undefined_variable name), σ).
Proof.
  revert ρ. induction n as [|n IH]; intros ρ Hg; [done|].
  cbn [Environment_get_from Environment_assign_from] in *.
  destruct (envs σ !! ρ) as [e|]; [|done].
  destruct (store e !! name); [discriminate|].
  destruct (parent e); [by apply IH | done].
Qed.

(** X16: assigning to a name no scope binds raises the host's
    [RuntimeError] from environment.py, which [run_source] reports as an
    internal error, whereas [+=] on it and reading it (when it is not the
    name of a builtin) raise the interpreter's runtime error. *)
Theorem undefined_assignment_errors (k : nat) (name : string)
    (e : Expression) (env : nat) (σ σ1 : State) (v : Value) :
  eval k (NExpression e) env σ = (Normal v, σ1) →
  Environment_get (envs σ1) env name = None →
  eval (S k) (NStatement (AssignStatement name "=" e)) env σ
    = (Raise (PyExc RuntimeError ("Undefined variable: " +++ name)), σ1)
  ∧ report (heap σ1) (PyExc RuntimeError ("Undefined variable: " +++ name))
    = ["Internal Error: Undefined variable: " +++ name]
  ∧ eval (S k) (NStatement (AssignStatement name "+=" e)) env σ
    = (Raise (KiraRuntimeError ("Undefined variable: " +++ name)), σ1)
  ∧ eval (S k) (NExpression (Identifier name)) env σ1
    = (if in_BUILTINS name then (Normal (VBuiltin name), σ1)
       else (Raise (KiraRuntimeError ("Undefined variable: " +++ name)), σ1))
  ∧ report (heap σ1) (KiraRuntimeError ("Undefined variable: " +++ name))
    = ["Runtime Error: Undefined variable: " +++ name].
Proof.
  intros He Hg. repeat split.
  - rewrite eval_S. cbn [dispatch]. unfold eval_AssignStatement. munfold.
    rewrite He. cbn [String.eqb Ascii.eqb Bool.eqb].
    unfold Environment_assign. by rewrite assign_from_undefined.
  - rewrite eval_S. cbn [dispatch]. unfold eval_AssignStatement. munfold.
    rewrite He. cbn [String.eqb Ascii.eqb Bool.eqb].
    unfold env_get. by rewrite Hg.
  - rewrite eval_S. cbn [dispatch]. unfold eval_Identifier, env_get.
    munfold. rewrite Hg. destruct (in_BUILTINS name); reflexivity.
Qed.

End EvaluatorFacts3.

(** ** lexer.py: sources without superscript digits *)

Lemma plain_rest_advance (lx : Lexer) : plain_rest lx → plain_rest (advance lx).
Proof.
  unfold plain_rest, advance. intros [Hf Hl].
  destruct (remaining lx) as [|c r] eqn:Hr; [done|].
  apply Forall_cons in Hf as [_ Hf]. cbn in Hl.
  destruct (ascii_eqb c chr_newline); cbn; split; (done || lia).
Qed.

Lemma plain_rest_skip_whitespace (n : nat) (lx : Lexer) :
  plain_rest lx → plain_rest (skip_whitespace_loop n lx).
Proof.
  revert lx. induction n as [|n IH]; intros lx Hp; cbn; [done|].
  destruct (char_sat is_blank (current_char lx));
    auto using plain_rest_advance.
Qed.

Lemma plain_rest_skip_comment (n : nat) (lx : Lexer) :
  plain_rest lx → plain_rest (skip_comment_loop n lx).
Proof.
  revert lx. induction n as [|n IH]; intros lx Hp; cbn; [done|].
  destruct (current_char lx) as [c|]; [|done].
  destruct (ascii_eqb c chr_newline); auto using plain_rest_advance.
Qed.

Lemma plain_rest_read_string (n : nat) q res sl sc lx r lx' :
  plain_rest lx →
  read_string_loop n q res sl sc lx = inr (r, lx') → plain_rest lx'.
Proof.
  revert res lx. induction n as [|n IH]; intros res lx Hp Hr; cbn in Hr.
  - by simplify_eq.
  - destruct (current_char lx) as [c|]; [|by simplify_eq].
    destruct (ascii_eqb c q); [by simplify_eq|].
    destruct (ascii_eqb c chr_backslash).
    + eapply IH; [|exact Hr]. auto using plain_rest_advance.
    + destruct (ascii_eqb c chr_newline); [discriminate|].
      eapply IH; [|exact Hr]. auto using plain_rest_advance.
Qed.

Lemma plain_rest_read_identifier (n : nat) res lx r lx' :
  plain_rest lx →
  read_identifier_loop n res lx = (r, lx') → plain_rest lx'.
Proof.
  revert res lx. induction n as [|n IH]; intros res lx Hp Hr; cbn in Hr.
  - by simplify_eq.
  - destruct (current_char lx) as [c|]; [|by simplify_eq].
    destruct (isalnum c || ascii_eqb c "_"); [|by simplify_eq].
    eapply IH; [|exact Hr]. auto using plain_rest_advance.
Qed.

Lemma current_char_head (lx : Lexer) (c : ascii) :
  current_char lx = Some c → ∃ r, remaining lx = c :: r.
Proof.
  unfold current_char. destruct (remaining lx); [discriminate|].
  intros [= ->]. eauto.
Qed.

Lemma number_text_step (res : list ascii) (hd hd' : bool) (lx : Lexer)
    (c : ascii) :
  plain_rest lx → number_text res hd lx →
  current_char lx = Some c →
  (isdigit c = true ∧ hd' = hd) ∨ (ascii_eqb c "." = true ∧ hd' = true) →
  number_text (res ++ [c]) hd' (advance lx).
Proof.
  intros [Hsafe _] (Hres & Hdec & Hlen) Hc Hcase.
  destruct (current_char_head _ _ Hc) as [r Hr].
  rewrite Hr in Hsafe. apply Forall_cons in Hsafe as [Hcsafe _].
  assert (length (remaining (advance lx)) = length r) as Hadv.
  { unfold advance. rewrite Hr. by destruct (ascii_eqb c chr_newline). }
  rewrite Hr in Hlen. cbn in Hlen.
  repeat split.
  - apply Forall_app. split; [done|]. constructor; [|done].
    destruct Hcase as [[Hd _]|[Hd _]];
      [by rewrite (Hcsafe Hd) | by rewrite Hd, orb_true_r].
  - intros ->. destruct Hcase as [[Hd Heq]|[_ [=]]].
    apply Forall_app. split; [auto|]. constructor; [auto|done].
  - rewrite length_app, Hadv. cbn. lia.
Qed.

Lemma read_number_loop_text (n : nat) res hd lx r h lx' :
  plain_rest lx → number_text res hd lx →
  read_number_loop n res hd lx = (r, h, lx') →
  plain_rest lx' ∧ number_text r h lx' ∧ (length res ≤ length r)%nat.
Proof.
  revert res hd lx. induction n as [|n IH]; intros res hd lx Hp Ht Hr;
    cbn in Hr.
  - by simplify_eq.
  - destruct (current_char lx) as [c|] eqn:Hc; [|by simplify_eq].
    destruct (isdigit c) eqn:Hd.
    { destruct (IH _ _ _ (plain_rest_advance _ Hp)
                  (number_text_step _ _ hd _ _ Hp Ht Hc (or_introl (conj Hd eq_refl)))
                  Hr) as (? & ? & Hlen).
      rewrite length_app in Hlen. cbn in Hlen.
      split; [done | split; [done | lia]]. }
    destruct (ascii_eqb c ".") eqn:Hdot; [|by simplify_eq].
    destruct hd; [by simplify_eq|].
    destruct (negb (char_sat isdigit (peek lx))); [by simplify_eq|].
    destruct (IH _ _ _ (plain_rest_advance _ Hp)
                (number_text_step _ _ true _ _ Hp Ht Hc (or_intror (conj Hdot eq_refl)))
                Hr) as (? & ? & Hlen).
    rewrite length_app in Hlen. cbn in Hlen.
      split; [done | split; [done | lia]].
Qed.

Lemma forallb_of_Forall {A} (f : A → bool) (l : list A) :
  Forall (λ x, f x = true) l → forallb f l = true.
Proof. induction 1 as [|x l Hx _ IH]; cbn; [done | by rewrite Hx, IH]. Qed.

Section PlainSources.
Context `{PyHost}.

Lemma read_number_plain (lx : Lexer) (c : ascii) :
  plain_rest lx → current_char lx = Some c → isdigit c = true →
  ∃ tok lx', read_number lx = inr (tok, lx') ∧ plain_rest lx'.
Proof.
  intros Hp Hc Hd. unfold read_number.
  destruct (read_number_loop _ _ _ _) as [[r h] lx1] eqn:Hl.
  destruct (current_char_head _ _ Hc) as [rest Hrest].
  rewrite Hrest in Hl. cbn [length read_number_loop] in Hl.
  rewrite Hc, Hd in Hl.
  assert (number_text [] false lx) as Ht0.
  { repeat split; [constructor | constructor |]. destruct Hp. cbn. lia. }
  pose proof (number_text_step [] false false lx c Hp Ht0 Hc
                (or_introl (conj Hd eq_refl))) as Ht1.
  destruct (read_number_loop_text _ _ _ _ _ _ _ (plain_rest_advance _ Hp)
              Ht1 Hl) as (Hp1 & (Hres & Hdec & Hlen) & Hne).
  cbn in Hne.
  destruct h.
  - unfold py_float_of_literal, str_of_chars, chars_of_str.
    rewrite list_ascii_of_string_of_list_ascii.
    rewrite forallb_of_Forall by done. eauto.
  - unfold py_int_of_literal, str_of_chars, chars_of_str.
    rewrite list_ascii_of_string_of_list_ascii.
    rewrite forallb_of_Forall by auto. cbn [negb orb].
    rewrite (proj2 (Nat.eqb_neq _ _)) by lia.
    rewrite (proj2 (Nat.ltb_ge _ _)) by lia. eauto.
Qed.

Lemma next_token_fuel_plain (n : nat) (lx0 : Lexer) :
  plain_rest lx0 →
  match next_token_fuel n lx0 with
  | Normal (_, lx') => plain_rest lx'
  | Raise e => is_LexerError e = true
  | OutOfFuel => True
  end.
Proof.
  revert lx0. induction n as [|n IH]; intros lx0 Hp0; [done|].
  cbn [next_token_fuel].
  pose proof (plain_rest_skip_whitespace (length (remaining lx0)) lx0 Hp0)
    as Hp.
  fold (skip_whitespace lx0) in Hp. set (lx := skip_whitespace lx0) in *.
  destruct (current_char lx) as [c|] eqn:Hc; [|done].
  destruct (ascii_eqb c "#").
  { apply IH. by apply plain_rest_skip_comment. }
  destruct (ascii_eqb c chr_newline); [by apply plain_rest_advance|].
  destruct (ascii_eqb c chr_dquote || ascii_eqb c chr_squote).
  { unfold read_string.
    destruct (read_string_loop _ _ _ _ _ _) as [e|[res lx2]] eqn:Hl.
    - cbn. clear -Hl. revert Hl.
      generalize (advance lx) at 2 as lx1. generalize (@nil ascii) as res.
      induction (length (remaining (advance lx))) as [|m IHm];
        intros res lx1 Hl; cbn in Hl; [discriminate|].
      destruct (current_char lx1) as [c1|]; [|discriminate].
      destruct (ascii_eqb c1 c); [discriminate|].
      destruct (ascii_eqb c1 chr_backslash); [by eapply IHm|].
      destruct (ascii_eqb c1 chr_newline); [by simplify_eq | by eapply IHm].
    - apply plain_rest_read_string in Hl; [|by apply plain_rest_advance].
      destruct (char_is c (current_char lx2)); cbn;
        [by apply plain_rest_advance | done]. }
  destruct (isdigit c) eqn:Hd.
  { destruct (read_number_plain lx c Hp Hc Hd) as (tok & lx' & -> & Hp').
    exact Hp'. }
  destruct (isalpha c || ascii_eqb c "_").
  { unfold read_identifier.
    destruct (read_identifier_loop _ _ _) as [res lx1] eqn:Hl. cbn.
    eapply plain_rest_read_identifier; eauto. }
  repeat match goal with
  | |- match (if ?b then _ else _) with _ => _ end =>
      destruct b; [cbn; auto using plain_rest_advance|]
  end.
  destruct (single_char_tokens c); cbn; auto using plain_rest_advance.
Qed.

Lemma tokenize_loop_plain (n : nat) (tokens : list Token) (lx : Lexer)
    (e : exn) :
  plain_rest lx → tokenize_loop n tokens lx = Raise e →
  is_LexerError e = true.
Proof.
  revert tokens lx. induction n as [|n IH]; intros tokens lx Hp Ht;
    [discriminate|].
  cbn [tokenize_loop] in Ht.
  pose proof (next_token_fuel_plain 2 lx Hp) as Hstep.
  fold (next_token lx) in Hstep.
  destruct (next_token lx) as [[tok lx']|e'|]; [|by simplify_eq|done].
  destruct (TokenType_eqb (type tok) EOF); [discriminate|]. eauto.
Qed.

(** X20: on a source of characters with code points below 256 (the
    characters of this development), in which every character that
    [str.isdigit] accepts is one that [int()] accepts (none is U+00B2,
    U+00B3 or U+00B9), and which is no longer than the host's limit on
    integer literals, [tokenize] returns a token list (non-empty, ending
    with EOF, without NEWLINE) or raises a [LexerError]: no exception of
    the host escapes.  Nothing is said of sources with other
    characters. *)
Theorem plain_source_lexes (source : string) :
  Forall digit_is_decimal (chars_of_str source) →
  (String.length source ≤ int_max_str_digits)%nat →
  match tokenize source with
  | Normal tokens => well_ended tokens
  | Raise e => is_LexerError e = true
  | OutOfFuel => False
  end.
Proof.
  intros Hsafe Hlen.
  pose proof (tokenize_loop_outcome (S (String.length source)) []
                (new_Lexer source)) as Hout.
  rewrite left_to_scan_new in Hout. specialize (Hout ltac:(lia) ltac:(constructor)).
  fold (tokenize source) in Hout.
  destruct (tokenize source) as [toks|e|] eqn:Ht; [done| |done].
  unfold tokenize in Ht. eapply tokenize_loop_plain; [|exact Ht].
  split; [exact Hsafe|]. cbn [new_Lexer remaining].
  by rewrite length_chars_of_str.
Qed.

End PlainSources.

(** ** parser.py: how operators group *)

Ltac token_cases H :=
  repeat (apply elem_of_cons in H as [H|H]; [subst|]);
  [.. | by apply elem_of_nil in H].

(** X17: in [x o1 y o2 z] with two binary operators, [y] goes to [o2]
    exactly when [o2] has a higher precedence than [o1], or the same
    when both are [**]: operators of one level group to the left, [**] to
    the right. *)
Theorem two_operators_group (tx t1 ty t2 tz teof : Token) :
  type tx = IDENTIFIER → type ty = IDENTIFIER → type tz = IDENTIFIER →
  type teof = EOF →
  type t1 ∈ binary_operators → type t2 ∈ binary_operators →
  parse_program [tx; t1; ty; t2; tz; teof] 20
  = Normal (mkProgram
      [ExpressionStatement
         (if groups_right (type t1) (type t2)
          then BinaryOp (literal t1) (Identifier (literal tx))
                 (BinaryOp (literal t2) (Identifier (literal ty))
                                        (Identifier (literal tz)))
          else BinaryOp (literal t2)
                 (BinaryOp (literal t1) (Identifier (literal tx))
                                        (Identifier (literal ty)))
                 (Identifier (literal tz)))]).
Proof.
  destruct tx as [kx lx vx nx cx], t1 as [k1 l1 v1 n1 c1],
    ty as [ky ly vy ny cy], t2 as [k2 l2 v2 n2 c2],
    tz as [kz lz vz nz cz], teof as [ke le ve ne ce].
  cbn [type literal]. intros -> -> -> -> H1 H2.
  token_cases H1; token_cases H2; vm_compute; reflexivity.
Qed.

(** X18: a prefix operator ([-], [not]) applies to the operand next to
    it before any binary operator does, [**] included ([-x ** y] is
    [(-x) ** y]); a call binds tighter than a prefix operator and than
    any binary operator. *)
Theorem prefix_binds_tighter (tp tx top ty tl tr teof : Token) :
  type tp ∈ prefix_operators → type top ∈ binary_operators →
  type tx = IDENTIFIER → type ty = IDENTIFIER →
  type tl = LPAREN → type tr = RPAREN → type teof = EOF →
  parse_program [tp; tx; top; ty; teof] 20
  = Normal (mkProgram
      [ExpressionStatement
         (BinaryOp (literal top)
            (UnaryOp (literal tp) (Identifier (literal tx)))
            (Identifier (literal ty)))])
  ∧ parse_program [tp; tx; tl; tr; teof] 20
  = Normal (mkProgram
      [ExpressionStatement
         (UnaryOp (literal tp) (CallExpression (Identifier (literal tx)) []))])
  ∧ parse_program [tx; top; ty; tl; tr; teof] 20
  = Normal (mkProgram
      [ExpressionStatement
         (BinaryOp (literal top) (Identifier (literal tx))
            (CallExpression (Identifier (literal ty)) []))]).
Proof.
  destruct tp as [kp lp vp np cp], tx as [kx lx vx nx cx],
    top as [ko lo vo no co], ty as [ky ly vy ny cy],
    tl as [kl ll vl nl cl], tr as [kr lr vr nr cr],
    teof as [ke le ve ne ce].
  cbn [type literal]. intros Hp Ho -> -> -> -> ->.
  token_cases Hp; token_cases Ho; repeat split; vm_compute; reflexivity.
Qed.

(** X19: a statement that starts with a token no expression can start
    with (and that is no statement keyword) is rejected with
    [No prefix parser for T] at that token, whatever follows. *)
Theorem unexpected_token_is_reported (t : Token) (rest : list Token)
    (n : nat) :
  prefix_parse_fns (type t) = None →
  type t ∉ statement_keywords →
  parse_program (t :: rest) (3 + n)
  = Raise (ParserError ("No prefix parser for " +++ TokenType_name (type t))
                       t).
Proof.
  intros Hp Hk. destruct t as [k l v ln c]. cbn [type] in *.
  destruct k; try discriminate Hp;
    try (exfalso; apply Hk; unfold statement_keywords;
         rewrite !elem_of_cons; tauto);
    destruct rest as [|t1 rest]; vm_compute; reflexivity.
Qed.

(** ** lexer.py: literals denote what they spell *)

Lemma digits_value_acc (d : Decimal.uint) (acc : positive) :
  digits_value (Z.pos acc) (chars_of_str (NilEmpty.string_of_uint d))
  = Z.pos (Pos.of_uint_acc d acc).
Proof.
  revert acc. induction d; intros acc; cbn [NilEmpty.string_of_uint
    chars_of_str list_ascii_of_string digits_value Pos.of_uint_acc];
    [reflexivity|..];
    rewrite <- IHd; f_equal;
    match goal with
    | |- context [ord ?c] =>
        let v := eval vm_compute in (ord c) in change (ord c) with v
    end; lia.
Qed.

Lemma digits_value_uint (d : Decimal.uint) :
  digits_value 0 (chars_of_str (NilEmpty.string_of_uint d))
  = Z.of_N (Pos.of_uint d).
Proof.
  induction d; cbn [NilEmpty.string_of_uint chars_of_str
    list_ascii_of_string digits_value Pos.of_uint];
    [reflexivity | exact IHd | ..];
    apply digits_value_acc.
Qed.

Lemma digits_value_str_of_Z (n : Z) :
  0 ≤ n → digits_value 0 (chars_of_str (str_of_Z n)) = n.
Proof.
  intros Hn. unfold str_of_Z. destruct n as [|p|p]; [reflexivity | | lia].
  cbn [Z.to_int NilZero.string_of_int]. unfold NilZero.string_of_uint.
  pose proof (DecimalPos.Unsigned.of_to p) as Hp.
  destruct (Pos.to_uint p) eqn:Hd; [discriminate Hp|..];
    rewrite digits_value_uint, Hp; reflexivity.
Qed.

Lemma uint_chars_decimal (d : Decimal.uint) :
  Forall (λ c, isdecimal c = true)
         (chars_of_str (NilEmpty.string_of_uint d)).
Proof. induction d; cbn; constructor; (reflexivity || assumption). Qed.

Lemma str_of_Z_decimal (n : Z) :
  0 ≤ n →
  Forall (λ c, isdecimal c = true) (chars_of_str (str_of_Z n))
  ∧ chars_of_str (str_of_Z n) ≠ [].
Proof.
  intros Hn. unfold str_of_Z. destruct n as [|p|p]; [| |lia].
  - split; [repeat constructor | discriminate].
  - cbn [Z.to_int NilZero.string_of_int]. unfold NilZero.string_of_uint.
    pose proof (DecimalPos.Unsigned.of_to p) as Hp.
    destruct (Pos.to_uint p) eqn:Hd; [discriminate Hp|..];
      (split; [apply uint_chars_decimal | discriminate]).
Qed.

(** What the tests of the scanner say on a decimal digit. *)
Lemma decimal_char (c : ascii) :
  isdecimal c = true →
  isdigit c = true ∧ is_blank c = false ∧ ascii_eqb c chr_newline = false
  ∧ ascii_eqb c "#" = false ∧ ascii_eqb c chr_dquote = false
  ∧ ascii_eqb c chr_squote = false ∧ ascii_eqb c "." = false.
Proof.
  destruct c as [[] [] [] [] [] [] [] []]; intros Hd;
    try discriminate Hd; repeat split; reflexivity.
Qed.

Lemma advance_plain (c : ascii) (r : list ascii) (ln col : Z) :
  ascii_eqb c chr_newline = false →
  advance (mkLexer (c :: r) ln col) = mkLexer r ln (col + 1).
Proof. intros Hn. unfold advance. cbn. by rewrite Hn. Qed.

Lemma read_number_loop_digits (n : nat) (cs res : list ascii) (ln col : Z) :
  Forall (λ c, isdecimal c = true) cs → (length cs ≤ n)%nat →
  read_number_loop n res false (mkLexer cs ln col)
  = (res ++ cs, false, mkLexer [] ln (col + Z.of_nat (length cs))).
Proof.
  revert cs res col. induction n as [|n IH]; intros cs res col Hd Hn.
  - destruct cs; [|cbn in Hn; lia]. cbn. by rewrite app_nil_r, Z.add_0_r.
  - destruct cs as [|c cs].
    + cbn. by rewrite app_nil_r, Z.add_0_r.
    + apply Forall_cons in Hd as [Hc Hd]. cbn in Hn.
      destruct (decimal_char c Hc) as (Hdig & _ & Hnl & _).
      cbn [read_number_loop current_char remaining]. rewrite Hdig.
      rewrite advance_plain by done. rewrite IH by (done || lia).
      rewrite <- app_assoc. cbn [app length].
      replace (col + 1 + Z.of_nat (length cs))
        with (col + Z.of_nat (S (length cs))) by lia.
      reflexivity.
Qed.

Lemma skip_whitespace_at (lx : Lexer) (c : ascii) :
  current_char lx = Some c → is_blank c = false → skip_whitespace lx = lx.
Proof.
  intros Hc Hb. unfold skip_whitespace.
  destruct (current_char_head _ _ Hc) as [r Hr]. rewrite Hr.
  cbn [length skip_whitespace_loop]. rewrite Hc. cbn [char_sat].
  by rewrite Hb.
Qed.

Section Literals.
Context `{PyHost}.

Lemma py_int_of_literal_digits (cs : list ascii) :
  cs ≠ [] → Forall (λ c, isdecimal c = true) cs →
  (length cs ≤ int_max_str_digits)%nat →
  py_int_of_literal (str_of_chars cs) = inr (digits_value 0 cs).
Proof.
  intros Hne Hdec Hlen. unfold py_int_of_literal, str_of_chars, chars_of_str.
  rewrite list_ascii_of_string_of_list_ascii.
  rewrite forallb_of_Forall by exact Hdec.
  destruct cs as [|c cs]; [done|]. cbn [negb orb length Nat.eqb].
  by rewrite (proj2 (Nat.ltb_ge _ _)) by exact Hlen.
Qed.

Lemma next_token_at_end (ln col : Z) :
  next_token (mkLexer [] ln col)
  = Normal (mkToken EOF "" TokNone ln col, mkLexer [] ln col).
Proof.
  unfold next_token. cbn. unfold make_token. cbn. by rewrite Z.sub_0_r.
Qed.

Lemma next_token_digits (c : ascii) (cs : list ascii) (ln col : Z) :
  Forall (λ c, isdecimal c = true) (c :: cs) →
  (length (c :: cs) ≤ int_max_str_digits)%nat →
  next_token (mkLexer (c :: cs) ln col)
  = Normal (mkToken INTEGER (str_of_chars (c :: cs))
                    (TokInt (digits_value 0 (c :: cs))) ln col,
            mkLexer [] ln (col + Z.of_nat (length (c :: cs)))).
Proof.
  intros Hdec Hlen. pose proof Hdec as Hdec'.
  apply Forall_cons in Hdec' as [Hc _].
  destruct (decimal_char c Hc) as (Hdig & Hbl & Hnl & Hhash & Hdq & Hsq & _).
  unfold next_token. remember 1%nat as one. cbn [next_token_fuel].
  rewrite (skip_whitespace_at _ c) by done.
  cbn [current_char remaining]. rewrite Hhash, Hnl, Hdq, Hsq.
  cbn [orb]. rewrite Hdig. unfold read_number.
  cbn [remaining cur_column cur_line].
  rewrite (read_number_loop_digits _ (c :: cs) [] ln col) by (done || lia).
  cbn [app]. rewrite py_int_of_literal_digits by done. reflexivity.
Qed.

Lemma tokenize_digits (cs : list ascii) :
  cs ≠ [] → Forall (λ c, isdecimal c = true) cs →
  (length cs ≤ int_max_str_digits)%nat →
  tokenize (str_of_chars cs)
  = Normal [mkToken INTEGER (str_of_chars cs) (TokInt (digits_value 0 cs))
                    1 1;
            mkToken EOF "" TokNone 1 (1 + Z.of_nat (length cs))].
Proof.
  intros Hne Hdec Hlen. unfold tokenize, new_Lexer.
  rewrite <- length_chars_of_str. unfold chars_of_str, str_of_chars.
  rewrite list_ascii_of_string_of_list_ascii.
  destruct cs as [|c cs]; [done|].
  cbn [length tokenize_loop]. rewrite next_token_digits by done.
  cbn [type]. rewrite next_token_at_end. reflexivity.
Qed.

(** X21: the decimal notation of a natural number [n] is scanned as
    one INTEGER token with that text and the value [n], followed by
    EOF. *)
Theorem integer_literal_round_trip (n : Z) :
  0 ≤ n →
  (String.length (str_of_Z n) ≤ int_max_str_digits)%nat →
  tokenize (str_of_Z n)
  = Normal [mkToken INTEGER (str_of_Z n) (TokInt n) 1 1;
            mkToken EOF "" TokNone 1 (1 + strlen (str_of_Z n))].
Proof.
  intros Hn Hlen. destruct (str_of_Z_decimal n Hn) as [Hdec Hne].
  unfold strlen. rewrite <- length_chars_of_str in *.
  rewrite <- (digits_value_str_of_Z n Hn) at 3.
  rewrite <- (string_of_list_ascii_of_string (str_of_Z n)) at 1 2.
  by apply tokenize_digits.
Qed.

End Literals.

(** ** lexer.py: string literals and names *)

Lemma read_string_loop_chars (n : nat) (q : ascii) (cs res rest : list ascii)
    (sl sc ln col : Z) :
  Forall (λ c, literal_char q c = true) cs → (length cs ≤ n)%nat →
  read_string_loop n q res sl sc (mkLexer (cs ++ rest) ln col)
  = read_string_loop (n - length cs) q (res ++ cs) sl sc
      (mkLexer rest ln (col + Z.of_nat (length cs))).
Proof.
  revert cs res col. induction n as [|n IH]; intros cs res col Hok Hn.
  - destruct cs; [|cbn in Hn; lia]. cbn. by rewrite app_nil_r, Z.add_0_r.
  - destruct cs as [|c cs].
    + cbn [app length Nat.sub]. by rewrite app_nil_r, Z.add_0_r.
    + apply Forall_cons in Hok as [Hc Hok]. cbn in Hn.
      unfold literal_char in Hc.
      apply andb_true_iff in Hc as [Hc Hnl].
      apply andb_true_iff in Hc as [Hq Hbs].
      apply negb_true_iff in Hq, Hbs, Hnl.
      cbn [app read_string_loop current_char remaining].
      rewrite Hq, Hbs, Hnl. rewrite advance_plain by done.
      rewrite IH by (done || lia). cbn [length Nat.sub].
      rewrite <- app_assoc. cbn [app].
      replace (col + 1 + Z.of_nat (length cs))
        with (col + Z.of_nat (S (length cs))) by lia.
      reflexivity.
Qed.

Lemma ascii_eqb_refl (c : ascii) : ascii_eqb c c = true.
Proof. unfold ascii_eqb. by apply Ascii.eqb_eq. Qed.

Lemma quote_char (q : ascii) :
  is_quote q = true →
  is_blank q = false ∧ ascii_eqb q "#" = false
  ∧ ascii_eqb q chr_newline = false.
Proof.
  unfold is_quote. intros Hq. apply orb_true_iff in Hq as [Hq|Hq];
    apply Ascii.eqb_eq in Hq; subst q; repeat split; reflexivity.
Qed.

Lemma name_start_char (c : ascii) :
  name_start c = true →
  is_blank c = false ∧ ascii_eqb c "#" = false
  ∧ ascii_eqb c chr_newline = false ∧ ascii_eqb c chr_dquote = false
  ∧ ascii_eqb c chr_squote = false ∧ isdigit c = false
  ∧ name_char c = true.
Proof.
  destruct c as [[] [] [] [] [] [] [] []]; vm_compute; intros Hd;
    try discriminate Hd; repeat split; reflexivity.
Qed.

Lemma name_char_newline (c : ascii) :
  name_char c = true → ascii_eqb c chr_newline = false.
Proof.
  destruct c as [[] [] [] [] [] [] [] []]; vm_compute; intros Hd;
    try discriminate Hd; reflexivity.
Qed.

Lemma read_identifier_loop_chars (n : nat) (cs res : list ascii)
    (ln col : Z) :
  Forall (λ c, name_char c = true) cs → (length cs ≤ n)%nat →
  read_identifier_loop n res (mkLexer cs ln col)
  = (res ++ cs, mkLexer [] ln (col + Z.of_nat (length cs))).
Proof.
  revert cs res col. induction n as [|n IH]; intros cs res col Hok Hn.
  - destruct cs; [|cbn in Hn; lia]. cbn. by rewrite app_nil_r, Z.add_0_r.
  - destruct cs as [|c cs].
    + cbn. by rewrite app_nil_r, Z.add_0_r.
    + apply Forall_cons in Hok as [Hc Hok]. cbn in Hn.
      cbn [read_identifier_loop current_char remaining].
      unfold name_char in Hc. rewrite Hc.
      rewrite advance_plain by (by apply name_char_newline).
      rewrite IH by (done || lia). rewrite <- app_assoc. cbn [app length].
      replace (col + 1 + Z.of_nat (length cs))
        with (col + Z.of_nat (S (length cs))) by lia.
      reflexivity.
Qed.

Section StringsAndNames.
Context `{PyHost}.

Lemma tokenize_chars (cs : list ascii) :
  tokenize (str_of_chars cs)
  = tokenize_loop (S (length cs)) [] (mkLexer cs 1 1).
Proof.
  unfold tokenize, new_Lexer. rewrite <- length_chars_of_str.
  unfold chars_of_str, str_of_chars.
  by rewrite list_ascii_of_string_of_list_ascii.
Qed.

Lemma next_token_string (q : ascii) (cs rest : list ascii) (ln col : Z) :
  is_quote q = true →
  Forall (λ c, literal_char q c = true) cs →
  next_token (mkLexer (q :: cs ++ q :: rest) ln col)
  = Normal (mkToken STRING (str_of_chars cs) (TokStr (str_of_chars cs))
                    ln col,
            mkLexer rest ln (col + 2 + Z.of_nat (length cs))).
Proof.
  intros Hq Hok. destruct (quote_char q Hq) as (Hbl & Hhash & Hnl).
  unfold is_quote in Hq.
  unfold next_token. remember 1%nat as one. cbn [next_token_fuel].
  rewrite (skip_whitespace_at _ q) by done.
  cbn [current_char remaining]. rewrite Hhash, Hnl, Hq.
  unfold read_string. rewrite advance_plain by done.
  cbn [remaining cur_line cur_column].
  rewrite read_string_loop_chars by (done || rewrite length_app; lia).
  rewrite length_app. cbn [length].
  replace (length cs + S (length rest) - length cs)%nat
    with (S (length rest)) by lia.
  cbn [read_string_loop current_char remaining app].
  rewrite ascii_eqb_refl.
  cbn [char_is current_char remaining of_sum].
  rewrite ascii_eqb_refl.
  rewrite advance_plain by done.
  replace (col + 1 + Z.of_nat (length cs) + 1)
    with (col + 2 + Z.of_nat (length cs)) by lia.
  reflexivity.
Qed.

Lemma next_token_unterminated (q : ascii) (cs : list ascii) (ln col : Z) :
  is_quote q = true →
  Forall (λ c, literal_char q c = true) cs →
  next_token (mkLexer (q :: cs) ln col)
  = Raise (LexerError "Unterminated string literal" ln col).
Proof.
  intros Hq Hok. destruct (quote_char q Hq) as (Hbl & Hhash & Hnl).
  unfold is_quote in Hq.
  unfold next_token. remember 1%nat as one. cbn [next_token_fuel].
  rewrite (skip_whitespace_at _ q) by done.
  cbn [current_char remaining]. rewrite Hhash, Hnl, Hq.
  unfold read_string. rewrite advance_plain by done.
  cbn [remaining cur_line cur_column].
  rewrite <- (app_nil_r cs) at 2.
  rewrite read_string_loop_chars by (done || lia).
  rewrite Nat.sub_diag. reflexivity.
Qed.

Lemma next_token_name (c : ascii) (cs : list ascii) (ln col : Z) :
  name_start c = true →
  Forall (λ c, name_char c = true) cs →
  let s := str_of_chars (c :: cs) in
  next_token (mkLexer (c :: cs) ln col)
  = Normal (mkToken (lookup_identifier s) s
                    (name_value (lookup_identifier s)) ln col,
            mkLexer [] ln (col + Z.of_nat (length (c :: cs)))).
Proof.
  intros Hc Hok s.
  destruct (name_start_char c Hc)
    as (Hbl & Hhash & Hnl & Hdq & Hsq & Hdig & Hnc).
  unfold next_token. remember 1%nat as one. cbn [next_token_fuel].
  rewrite (skip_whitespace_at _ c) by done.
  cbn [current_char remaining]. rewrite Hhash, Hnl, Hdq, Hsq. cbn [orb].
  rewrite Hdig. unfold name_start in Hc. rewrite Hc.
  unfold read_identifier. cbn [remaining cur_column cur_line].
  rewrite (read_identifier_loop_chars _ (c :: cs) [] ln col)
    by (by constructor || (cbn; lia)).
  cbn [app]. fold s. unfold name_value.
  destruct (lookup_identifier s); reflexivity.
Qed.

(** X29.  A string literal: a quote (single or double), characters
    other than that quote, a backslash and a newline, and the same quote
    again.  It is one [STRING] token whose text and value are the
    characters between the quotes, followed by [EOF] at the column after
    the closing quote.  Without the closing quote the lexer raises
    [LexerError] "Unterminated string literal" at the position of the
    opening quote. *)
Theorem string_literal_round_trip (q : ascii) (cs : list ascii) :
  is_quote q = true →
  Forall (λ c, literal_char q c = true) cs →
  tokenize (str_of_chars (q :: cs ++ [q]))
    = Normal [mkToken STRING (str_of_chars cs) (TokStr (str_of_chars cs)) 1 1;
              mkToken EOF "" TokNone 1 (3 + Z.of_nat (length cs))]
  ∧ tokenize (str_of_chars (q :: cs))
    = Raise (LexerError "Unterminated string literal" 1 1).
Proof.
  intros Hq Hok. split.
  - rewrite tokenize_chars. cbn [length tokenize_loop].
    rewrite next_token_string by done. cbn [type].
    rewrite next_token_at_end. reflexivity.
  - rewrite tokenize_chars. cbn [length tokenize_loop].
    by rewrite next_token_unterminated.
Qed.

(** X30.  A name: a letter or an underscore, then letters, digits
    and underscores.  It is one token followed by [EOF]: the token's
    type is the keyword's when [lookup_identifier] knows the name and
    [IDENTIFIER] otherwise, its text is the name, and its value is a
    boolean for [true] and [false] and nothing for every other name. *)
Theorem name_is_one_token (c : ascii) (cs : list ascii) :
  name_start c = true →
  Forall (λ c, name_char c = true) cs →
  let s := str_of_chars (c :: cs) in
  tokenize s
  = Normal [mkToken (lookup_identifier s) s
                    (name_value (lookup_identifier s)) 1 1;
            mkToken EOF "" TokNone 1 (2 + Z.of_nat (length cs))].
Proof.
  intros Hc Hok s.
  destruct (lookup_identifier_proper s) as [Heof Hnewline].
  unfold s at 1. rewrite tokenize_chars. cbn [length tokenize_loop].
  rewrite next_token_name by done. fold s. cbn [type].
  unfold TokenType_eqb.
  rewrite (bool_decide_eq_false_2 _ Hnewline).
  rewrite (bool_decide_eq_false_2 _ Heof). cbn [negb app].
  rewrite next_token_at_end. cbn [type].
  rewrite bool_decide_eq_true_2 by done.
  rewrite bool_decide_eq_false_2 by done. cbn [negb app length].
  replace (1 + Z.of_nat (S (length cs)))
    with (2 + Z.of_nat (length cs)) by lia.
  reflexivity.
Qed.

End StringsAndNames.

(** ** builtins.py: arrays *)

Lemma list_items_insert (h : list Object) (l : nat) (items : list Value) :
  (l < length h)%nat → list_items (<[l := ListObj items]> h) l = items.
Proof. intros Hl. unfold list_items. by rewrite list_lookup_insert_eq. Qed.

Lemma list_items_live (h : list Object) (l : nat) (items : list Value) :
  h !! l = Some (ListObj items) → list_items h l = items.
Proof. intros Hl. unfold list_items. by rewrite Hl. Qed.

(** X22.  [push] appends to the array object itself and returns the
    same reference; every other object is untouched.  [pop] on the
    result returns the pushed value and restores the array, so the heap
    is the one before the push. *)
Theorem push_then_pop (h : list Object) (w : World) (l : nat)
    (items : list Value) (v : Value) :
  h !! l = Some (ListObj items) →
  let h1 := <[l := ListObj (items ++ [v])]> h in
  builtin_push [VList l; v] h w = (Normal (VList l), h1, w)
  ∧ list_items h1 l = items ++ [v]
  ∧ (∀ l', l' ≠ l → h1 !! l' = h !! l')
  ∧ builtin_pop [VList l] h1 w = (Normal v, h, w).
Proof.
  intros Hl h1. pose proof (lookup_lt_Some _ _ _ Hl) as Hlt.
  assert (list_items h1 l = items ++ [v]) as Hitems
    by (by apply list_items_insert).
  split; [|split; [done|split]].
  - cbn. by rewrite (list_items_live _ _ _ Hl).
  - intros l' Hne. subst h1. by rewrite list_lookup_insert_ne.
  - cbn. rewrite Hitems, last_snoc. cbn.
    rewrite length_app. cbn [length]. rewrite Nat.add_1_r. cbn [pred].
    rewrite take_app_length. subst h1.
    rewrite list_insert_insert_eq. by rewrite list_insert_id.
Qed.

(** X23.  The ends of an array.  On an empty array [first], [last]
    and [pop] raise their "... on empty array" error and change nothing,
    while [rest] returns a new empty array.  On a non-empty array
    [first] returns the first item, [last] the last, [rest] a new array
    with all the items but the first (the argument is left as it is) and
    [pop] removes the last item from the array itself. *)
Theorem array_ends (h : list Object) (w : World) (l : nat)
    (items : list Value) :
  h !! l = Some (ListObj items) →
  (items = [] →
     builtin_first [VList l] h w
       = (Raise (KiraRuntimeError "first() on empty array"), h, w)
     ∧ builtin_last [VList l] h w
       = (Raise (KiraRuntimeError "last() on empty array"), h, w)
     ∧ builtin_pop [VList l] h w
       = (Raise (KiraRuntimeError "pop() on empty array"), h, w)
     ∧ builtin_rest [VList l] h w
       = (Normal (VList (length h)), h ++ [ListObj []], w))
  ∧ (∀ x xs, items = x :: xs →
       builtin_first [VList l] h w = (Normal x, h, w)
       ∧ builtin_rest [VList l] h w
         = (Normal (VList (length h)), h ++ [ListObj xs], w))
  ∧ (∀ xs x, items = xs ++ [x] →
       builtin_last [VList l] h w = (Normal x, h, w)
       ∧ builtin_pop [VList l] h w
         = (Normal x, <[l := ListObj xs]> h, w)).
Proof.
  intros Hl. pose proof (list_items_live _ _ _ Hl) as Hitems.
  split; [|split].
  - intros ->. cbn. rewrite Hitems. done.
  - intros x xs ->. cbn. rewrite Hitems. done.
  - intros xs x ->. cbn. rewrite Hitems, last_snoc. split; [done|].
    rewrite length_app. cbn [length]. rewrite Nat.add_1_r. cbn [pred].
    by rewrite take_app_length.
Qed.

(** X24.  [reversed] returns a new array with the items in reverse
    order and leaves its argument as it is; [reversed] of the result is
    another new array that holds the items of the first in their
    order. *)
Theorem reversed_twice (h : list Object) (w : World) (l : nat)
    (items : list Value) :
  h !! l = Some (ListObj items) →
  let r1 := length h in
  let h1 := h ++ [ListObj (reverse items)] in
  builtin_reversed [VList l] h w = (Normal (VList r1), h1, w)
  ∧ builtin_reversed [VList r1] h1 w
    = (Normal (VList (S r1)), h1 ++ [ListObj items], w)
  ∧ list_items (h1 ++ [ListObj items]) l = items.
Proof.
  intros Hl r1 h1. pose proof (lookup_lt_Some _ _ _ Hl) as Hlt.
  split; [|split].
  - cbn. by rewrite (list_items_live _ _ _ Hl).
  - cbn. unfold builtin_new_list.
    assert (list_items h1 r1 = reverse items) as ->.
    { unfold list_items, h1, r1. rewrite lookup_app_r by lia.
      by rewrite Nat.sub_diag. }
    rewrite reverse_involutive. subst h1 r1.
    rewrite length_app. cbn [length]. by rewrite Nat.add_1_r.
  - apply list_items_live. subst h1.
    rewrite !lookup_app_l by (rewrite ?length_app; lia). done.
Qed.

(** ** builtins.py: [range] *)

Lemma range_from_length (n : nat) (start step : Z) :
  length (range_from n start step) = n.
Proof. revert start. induction n; intros; cbn; [done | by rewrite IHn]. Qed.

Lemma range_from_lookup (n : nat) (start step : Z) (i : nat) :
  (i < n)%nat →
  range_from n start step !! i = Some (start + Z.of_nat i * step).
Proof.
  revert start i. induction n as [|n IH]; intros start i Hi; [lia|].
  destruct i as [|i]; cbn.
  - f_equal. lia.
  - rewrite IH by lia. f_equal. lia.
Qed.

Lemma range_length_bounds (start stop step : Z) :
  step ≠ 0 →
  let n := range_length start stop step in
  0 ≤ n
  ∧ (0 < step → (∀ i, 0 ≤ i < n → start ≤ start + i * step < stop)
                ∧ stop ≤ start + n * step ∨ n = 0 ∧ stop ≤ start)
  ∧ (step < 0 → (∀ i, 0 ≤ i < n → stop < start + i * step ≤ start)
                ∧ start + n * step ≤ stop ∨ n = 0 ∧ start ≤ stop).
Proof.
  intros Hstep n. subst n. unfold range_length.
  destruct (0 <? step) eqn:Hpos.
  - apply Z.ltb_lt in Hpos. destruct (start <? stop) eqn:Hlt.
    + apply Z.ltb_lt in Hlt.
      pose proof (Z.div_pos (stop - start - 1) step ltac:(lia) ltac:(lia)).
      pose proof (Z.mul_div_le (stop - start - 1) step ltac:(lia)).
      pose proof (Z.mul_succ_div_gt (stop - start - 1) step ltac:(lia)).
      split; [lia|]. split; [|lia]. intros _. left. split; [|nia].
      intros i Hi. nia.
    + apply Z.ltb_ge in Hlt. split; [lia|]. split; [|lia].
      intros _. right. lia.
  - apply Z.ltb_ge in Hpos. destruct (stop <? start) eqn:Hlt.
    + apply Z.ltb_lt in Hlt.
      pose proof (Z.div_pos (start - stop - 1) (- step) ltac:(lia) ltac:(lia)).
      pose proof (Z.mul_div_le (start - stop - 1) (- step) ltac:(lia)).
      pose proof (Z.mul_succ_div_gt (start - stop - 1) (- step) ltac:(lia)).
      split; [lia|]. split; [lia|]. intros _. left. split; [|nia].
      intros i Hi. nia.
    + apply Z.ltb_ge in Hlt. split; [lia|]. split; [lia|].
      intros _. right. lia.
Qed.

(** X25.  [range(start, stop, step)] with integers and a step other
    than zero returns a new array whose item at position [i] is
    [start + i * step]; every item lies before [stop] in the direction
    of the step, and the next value of the progression would not (the
    array is empty exactly when [start] is already at or past [stop]).
    [range(start, stop)] is the case [step = 1] and [range(stop)] the
    case [start = 0], [step = 1].  The heap of the model is unbounded:
    the host's limits on the size of a list are not part of it. *)
Theorem range_enumerates (h : list Object) (w : World)
    (start stop step : Z) :
  step ≠ 0 →
  ∃ items,
    builtin_range [VInt start; VInt stop; VInt step] h w
      = (Normal (VList (length h)), h ++ [ListObj items], w)
    ∧ (∀ i, (i < length items)%nat →
         items !! i = Some (VInt (start + Z.of_nat i * step))
         ∧ (0 < step → start + Z.of_nat i * step < stop)
         ∧ (step < 0 → stop < start + Z.of_nat i * step))
    ∧ (0 < step → stop ≤ start + Z.of_nat (length items) * step
                  ∨ length items = 0%nat ∧ stop ≤ start)
    ∧ (step < 0 → start + Z.of_nat (length items) * step ≤ stop
                  ∨ length items = 0%nat ∧ start ≤ stop)
    ∧ (step = 1 →
         builtin_range [VInt start; VInt stop] h w
           = (Normal (VList (length h)), h ++ [ListObj items], w)
         ∧ (start = 0 →
              builtin_range [VInt stop] h w
                = (Normal (VList (length h)), h ++ [ListObj items], w))).
Proof.
  intros Hstep. exists (range_items start stop step).
  destruct (range_length_bounds start stop step Hstep) as (Hn & Hup & Hdown).
  assert (length (range_items start stop step)
          = Z.to_nat (range_length start stop step)) as Hlen
    by (unfold range_items; by rewrite length_map, range_from_length).
  split; [|split; [|split; [|split]]].
  - cbn. by rewrite (proj2 (Z.eqb_neq step 0) Hstep).
  - intros i Hi. rewrite Hlen in Hi. split; [|split].
    + unfold range_items. rewrite list_lookup_fmap.
      by rewrite range_from_lookup by lia.
    + intros Hpos. destruct (Hup Hpos) as [[Hin _]|[Hz _]]; [|lia].
      apply Hin. lia.
    + intros Hneg. destruct (Hdown Hneg) as [[Hin _]|[Hz _]]; [|lia].
      apply Hin. lia.
  - intros Hpos. rewrite Hlen, Z2Nat.id by lia.
    destruct (Hup Hpos) as [[_ Hend]|[Hz Hle]]; [by left|].
    right. split; [rewrite Hz; reflexivity | done].
  - intros Hneg. rewrite Hlen, Z2Nat.id by lia.
    destruct (Hdown Hneg) as [[_ Hend]|[Hz Hle]]; [by left|].
    right. split; [rewrite Hz; reflexivity | done].
  - intros ->. split; [reflexivity|]. intros ->. reflexivity.
Qed.

(** X26.  What [range] refuses.  A step of zero raises the host's
    [ValueError] "range() arg 3 must not be zero", once the other two
    arguments are integers.  A first argument that is not an integer (a
    float included) raises the host's [TypeError] "'T' object cannot be
    interpreted as an integer", whatever the arguments after it.  No
    argument, or more than three, raises [KiraRuntimeError]
    "range() takes 1 to 3 arguments".  Nothing is changed in any of
    these cases. *)
Theorem range_refuses (h : list Object) (w : World) (a b c : Value) :
  (as_int c = Some 0 → is_Some (as_int a) → is_Some (as_int b) →
     builtin_range [a; b; c] h w
     = (Raise (PyExc ValueError "range() arg 3 must not be zero"), h, w))
  ∧ (as_int a = None →
     let e := PyExc TypeError ("'" +++ type_name a
                +++ "' object cannot be interpreted as an integer") in
     builtin_range [a] h w = (Raise e, h, w)
     ∧ builtin_range [a; b] h w = (Raise e, h, w)
     ∧ builtin_range [a; b; c] h w = (Raise e, h, w))
  ∧ builtin_range [] h w
    = (Raise (KiraRuntimeError "range() takes 1 to 3 arguments"), h, w)
  ∧ (∀ d rest,
       builtin_range (a :: b :: c :: d :: rest) h w
       = (Raise (KiraRuntimeError "range() takes 1 to 3 arguments"), h, w)).
Proof.
  split; [|split; [|split]].
  - intros Hc [x Hx] [y Hy]. cbn. unfold range_index.
    by rewrite Hx, Hy, Hc.
  - intros Ha e. cbn. unfold range_index. rewrite Ha.
    repeat split; done.
  - done.
  - done.
Qed.

(** ** builtins.py: calls from the evaluator *)

Ltac signature_cases H :=
  unfold builtin_signatures in H;
  repeat (apply elem_of_cons in H as [H|H]; [injection H as -> -> ->|]);
  [.. | by apply elem_of_nil in H].

(** X27.  A builtin with a fixed number of parameters, called from a
    program with another number of arguments, raises
    [KiraRuntimeError] "Error calling NAME: " followed by the host's
    message about the missing or surplus positional arguments of
    [builtin_NAME]; the state is the one after the evaluation of the
    arguments, and the builtin does not run. *)
Theorem builtin_arity_is_checked (budget : nat) (ev : Node → nat → M Value)
    (name fname : string) (params : list string) (args : list Value)
    (σ : State) :
  (name, (fname, params)) ∈ builtin_signatures →
  length args ≠ length params →
  @apply_function (BuiltinsHost.host budget) ev (VBuiltin name) args σ
  = (Raise (KiraRuntimeError
              ("Error calling " +++ name +++ ": "
               +++ arity_message fname params (length args))), σ).
Proof.
  intros Hsig Hlen. destruct σ as [es h w].
  signature_cases Hsig;
    destruct args as [|a [|b [|c rest]]]; cbn in Hlen; try lia;
    reflexivity.
Qed.

(** ** builtins.py: [print] *)

Section Printing.
Context `{PyHost}.

Lemma kira_str_plain_all (budget : nat) (h : list Object)
    (args : list Value) :
  Forall (λ v, is_plain v = true) args →
  all_some (map (kira_str (S budget) h) args) = Some (map plain_str args).
Proof.
  induction 1 as [|v vs Hv _ IH]; [done|].
  cbn [map all_some]. rewrite IH.
  destruct v; try discriminate; reflexivity.
Qed.

Lemma one_line_append (a b : string) :
  one_line (a +++ b) = one_line a && one_line b.
Proof.
  unfold one_line, chars_of_str.
  induction a as [|c a IH]; [done|].
  change (String c a +++ b) with (String c (a +++ b)).
  cbn [list_ascii_of_string forallb]. rewrite IH. by rewrite andb_assoc.
Qed.

Lemma one_line_decimal (s : string) :
  Forall (λ c, isdecimal c = true) (chars_of_str s) → one_line s = true.
Proof.
  unfold one_line. induction 1 as [|c cs Hc _ IH]; [done|].
  cbn [forallb]. rewrite IH.
  destruct (decimal_char c Hc) as (_ & _ & -> & _). done.
Qed.

Lemma one_line_str_of_Z (n : Z) : one_line (str_of_Z n) = true.
Proof.
  destruct n as [|p|p].
  - reflexivity.
  - apply one_line_decimal. by apply str_of_Z_decimal.
  - unfold str_of_Z. cbn [Z.to_int NilZero.string_of_int].
    change (String "-" ?s) with ("-" +++ s).
    rewrite one_line_append. cbn [andb]. apply one_line_decimal.
    unfold NilZero.string_of_uint.
    destruct (Pos.to_uint p); try apply uint_chars_decimal.
    repeat constructor.
Qed.

Lemma one_line_plain (v : Value) :
  no_newline v = true → one_line (plain_str v) = true.
Proof.
  destruct v as [| [] | | | | | | | |]; try done.
  intros _. apply one_line_str_of_Z.
Qed.

Lemma one_line_join (l : list string) :
  Forall (λ s, one_line s = true) l → one_line (str_join " " l) = true.
Proof.
  induction 1 as [|s l Hs Hl IH]; [done|].
  destruct l as [|s' l]; [done|].
  change (str_join " " (s :: s' :: l))
    with (s +++ " " +++ str_join " " (s' :: l)).
  rewrite !one_line_append, Hs, IH. done.
Qed.

(** X28.  [print] of nulls, booleans, strings and integers of at most
    4300 digits (those the host's [str] prints) hands the host's
    [print] one text, the arguments as [kira_str] prints them, joined by
    single spaces; it returns null and changes nothing else.  [println]
    does the same: it adds nothing of its own.  The text holds no
    newline, and so is exactly one line of output, when no string among
    the arguments holds one.  (An entry of [stdout] is the text of one
    call of the host's [print], which ends it with a newline.) *)
Theorem print_writes_one_line (budget : nat) (args : list Value)
    (h : list Object) (w : World) :
  Forall (λ v, is_plain v = true) args →
  let line := str_join " " (map plain_str args) in
  builtin_print (S budget) args h w
    = (Normal VNone, h, mkWorld (stdout w ++ [line]) (stdin w))
  ∧ builtin_println (S budget) args h w
    = (Normal VNone, h, mkWorld (stdout w ++ [line]) (stdin w))
  ∧ (Forall (λ v, no_newline v = true) args → one_line line = true).
Proof.
  intros Hplain line. split; [|split].
  - unfold builtin_print. by rewrite kira_str_plain_all.
  - unfold builtin_println, builtin_print. by rewrite kira_str_plain_all.
  - intros Hnl. apply one_line_join. apply Forall_map.
    eapply Forall_impl; [exact Hnl|]. intros v. apply one_line_plain.
Qed.

End Printing.

(** ** Instances of the further properties *)

Section MoreExamples.
#[local] Existing Instance SampleHost.host.

(** An instance of X1. *)
Lemma set_then_get_witness :
  Environment_set 0 "x" (VInt 1) false start = (Normal (VInt 1), after_set)
  ∧ Environment_get (envs after_set) 0 "x" = Some (VInt 1).
Proof.
  assert (Hset : Environment_set 0 "x" (VInt 1) false start
                 = (Normal (VInt 1), after_set)) by reflexivity.
  split; [exact Hset|].
  exact (proj1 (proj2 (set_then_get start after_set 0 "x" (VInt 1) (VInt 1)
                         false ltac:(cbn; lia) Hset))).
Defined.

(** An instance of X2. *)
Lemma assign_then_get_witness :
  Environment_get
    (envs (Environment_assign 0 "x" (VInt 2) after_set).2) 0 "x"
  = Some (VInt 2).
Proof.
  refine (proj1 (proj2 (assign_then_get after_set _ 0 "x" (VInt 2) (VInt 2)
                          _))).
  reflexivity.
Defined.

(** An instance of X5: a binding made in the scope of a call is not seen
    from the global scope. *)
Lemma inner_scope_is_invisible_witness :
  parents_earlier (envs two_scopes)
  ∧ Environment_get
      (envs (Environment_set 1 "y" (VInt 1) false two_scopes).2) 0 "y"
    = None.
Proof.
  assert (Hwf : parents_earlier (envs two_scopes)).
  { intros ρ e p He Hp. destruct ρ as [|[|ρ]]; cbn in He;
      [injection He as <- | injection He as <- | discriminate];
      cbn in Hp; [discriminate | injection Hp as <-; lia]. }
  split; [exact Hwf|].
  refine (eq_trans
            (proj1 (inner_scope_is_invisible two_scopes _ 1 0 "y" "y"
                      (VInt 1) false (Normal (VInt 1)) Hwf ltac:(lia) _)) _);
    reflexivity.
Defined.

(** An instance of X6. *)
Lemma evaluation_keeps_scopes_witness :
  ∃ e', envs (eval 5 (NStatement (LetStatement "x" (IntegerLiteral 1))) 0
                   start).2 !! 0%nat = Some e'
        ∧ parent e' = None.
Proof.
  destruct (evaluation_keeps_scopes 5
              (NStatement (LetStatement "x" (IntegerLiteral 1))) 0 start
              (eval 5 (NStatement (LetStatement "x" (IntegerLiteral 1))) 0
                    start).2
              (Normal (VInt 1)) 0 (new_Environment None))
    as (e' & He' & Hp & _); [reflexivity | reflexivity |].
  exists e'. split; [exact He' | exact Hp].
Defined.

(** An instance of X7: ['a' / 0], ['%d' % false] and [7 % -2]. *)
Lemma zero_divisor_is_rejected_witness :
  eval 6 (NExpression (BinaryOp "/" (StringLiteral "a") (IntegerLiteral 0)))
       0 start
    = (Raise (KiraRuntimeError "Division by zero"), start)
  ∧ eval 6 (NExpression (BinaryOp "%" (StringLiteral "%d")
                                      (BooleanLiteral false))) 0 start
    = (Raise (KiraRuntimeError "Modulo by zero"), start)
  ∧ eval 6 (NExpression (BinaryOp "%" (IntegerLiteral 7)
                                      (IntegerLiteral (-2)))) 0 start
    = (Normal (VInt (-1)), start).
Proof.
  split; [|split].
  - exact (proj1 (proj1 (zero_divisor_is_rejected 5 (StringLiteral "a")
                           (IntegerLiteral 0) 0 start start start (VStr "a")
                           (VInt 0) eq_refl eq_refl) eq_refl)).
  - exact (proj2 (proj1 (zero_divisor_is_rejected 5 (StringLiteral "%d")
                           (BooleanLiteral false) 0 start start start
                           (VStr "%d") (VBool false) eq_refl eq_refl)
                    eq_refl)).
  - exact (proj2 (zero_divisor_is_rejected 5 (IntegerLiteral 7)
                    (IntegerLiteral (-2)) 0 start start start (VInt 7)
                    (VInt (-2)) eq_refl eq_refl) 7 (-2) eq_refl eq_refl
             ltac:(lia)).
Defined.

(** An instance of X8: [[10, 20][1]] and [[10, 20][-1]]. *)
Lemma array_index_is_checked_witness :
  eval 6 (NExpression (IndexExpression two_items (IntegerLiteral 1))) 0 start
    = (Normal (VInt 20), after_two_items)
  ∧ eval 6 (NExpression (IndexExpression two_items (IntegerLiteral (-1))))
         0 start
    = (Raise (KiraRuntimeError "Array index out of bounds: -1"),
       after_two_items).
Proof.
  split.
  - destruct (proj1 (array_index_is_checked 5 two_items (IntegerLiteral 1) 0
                       start after_two_items after_two_items 0 1
                       eq_refl eq_refl) ltac:(cbn; lia))
      as (v & Hv & He).
    cbn in Hv. injection Hv as <-. exact He.
  - exact (proj2 (array_index_is_checked 5 two_items (IntegerLiteral (-1)) 0
                    start after_two_items after_two_items 0 (-1)
                    eq_refl eq_refl) ltac:(left; lia) eq_refl).
Defined.

(** An instance of X9: ['ab'[1]] and ['ab'[2]]. *)
Lemma string_index_is_checked_witness :
  eval 6 (NExpression (IndexExpression (StringLiteral "ab")
                                       (IntegerLiteral 1))) 0 start
    = (Normal (VStr "b"), start)
  ∧ eval 6 (NExpression (IndexExpression (StringLiteral "ab")
                                         (IntegerLiteral 2))) 0 start
    = (Raise (KiraRuntimeError "String index out of bounds: 2"), start).
Proof.
  split.
  - destruct (proj1 (string_index_is_checked 5 (StringLiteral "ab")
                       (IntegerLiteral 1) 0 start start start "ab" 1
                       eq_refl eq_refl) ltac:(cbn; lia))
      as (c & Hc & He).
    cbn in Hc. injection Hc as <-. exact He.
  - exact (proj2 (string_index_is_checked 5 (StringLiteral "ab")
                    (IntegerLiteral 2) 0 start start start "ab" 2
                    eq_refl eq_refl) ltac:(right; cbn; lia) eq_refl).
Defined.

(** An instance of X10: [[10, 20][0] = 9] and [[10, 20][2] = 9]. *)
Lemma array_store_is_checked_witness :
  (∃ σ', eval 6 (NStatement (IndexAssignStatement two_items
                               (IntegerLiteral 0) (IntegerLiteral 9)))
              0 start = (Normal (VInt 9), σ')
         ∧ list_items (heap σ') 0 = [VInt 9; VInt 20])
  ∧ eval 6 (NStatement (IndexAssignStatement two_items (IntegerLiteral 2)
                                             (IntegerLiteral 9))) 0 start
    = (Raise (KiraRuntimeError "Array index out of bounds: 2"),
       after_two_items).
Proof.
  split.
  - destruct (proj1 (array_store_is_checked 5 two_items (IntegerLiteral 0)
                       (IntegerLiteral 9) 0 start after_two_items
                       after_two_items after_two_items 0 0 (VInt 9)
                       eq_refl eq_refl eq_refl) ltac:(cbn; lia))
      as (σ' & He & Hitems & _).
    exists σ'. split; [exact He | exact Hitems].
  - exact (proj2 (array_store_is_checked 5 two_items (IntegerLiteral 2)
                    (IntegerLiteral 9) 0 start after_two_items
                    after_two_items after_two_items 0 2 (VInt 9)
                    eq_refl eq_refl eq_refl) ltac:(right; cbn; lia)
           eq_refl).
Defined.

(** An instance of X11: [3()] and [(fn(x) { })()]. *)
Lemma call_is_checked_witness :
  eval 6 (NExpression (CallExpression (IntegerLiteral 3) [])) 0 start
    = (Raise (KiraRuntimeError "Cannot call int"), start)
  ∧ eval 6 (NExpression
              (CallExpression (FunctionLiteral ["x"] (BlockStatement []) None)
                              [])) 0 start
    = (Raise (KiraRuntimeError "Expected 1 arguments, got 0"), start).
Proof.
  split.
  - exact (proj1 (call_is_checked 5 (IntegerLiteral 3) [] 0 start start start
                    (VInt 3) [] eq_refl eq_refl) eq_refl).
  - exact (proj2 (call_is_checked 5
                    (FunctionLiteral ["x"] (BlockStatement []) None) [] 0
                    start start start
                    (VFunction ["x"] (BlockStatement []) 0 None) []
                    eq_refl eq_refl)
             ["x"] (BlockStatement []) 0%nat None eq_refl
             ltac:(cbn; discriminate)).
Defined.

(** An instance of X12: [while true { break }] and
    [while true { return }]. *)
Lemma loop_exits_witness :
  eval 6 (NStatement (WhileStatement (BooleanLiteral true)
                        (BlockStatement [BreakStatement]))) 0 start
    = (Normal VNone, start)
  ∧ eval 6 (NStatement (WhileStatement (BooleanLiteral true)
                          (BlockStatement [ReturnStatement None]))) 0 start
    = (Raise (ReturnValue VNone), start).
Proof.
  split.
  - exact (proj1 (loop_exits 5 (BooleanLiteral true)
                    (BlockStatement [BreakStatement]) 0 start start start
                    (VBool true) BreakSignal eq_refl eq_refl eq_refl)
             eq_refl).
  - exact (proj2 (loop_exits 5 (BooleanLiteral true)
                    (BlockStatement [ReturnStatement None]) 0 start start
                    start (VBool true) (ReturnValue VNone) eq_refl eq_refl
                    eq_refl)
             eq_refl).
Defined.

(** An instance of X13: the call [(fn() { break })()] raises the
    [BreakSignal] of its body. *)
Lemma call_passes_exceptions_witness :
  (eval 6 (NExpression (CallExpression breaker [])) 0 start).1
  = Raise BreakSignal.
Proof.
  refine (f_equal fst
            (call_passes_exceptions 5 breaker [] 0 start start start _ []
               (BlockStatement [BreakStatement]) 0 None [] BreakSignal
               eq_refl eq_refl eq_refl _ eq_refl)).
  reflexivity.
Defined.

(** An instance of X14: ['a' + 1] and [null + 'b']. *)
Lemma plus_concatenates_with_strings_witness :
  eval 6 (NExpression (BinaryOp "+" (StringLiteral "a") (IntegerLiteral 1)))
       0 start
    = (Normal (VStr "a1"), start)
  ∧ eval 6 (NExpression (BinaryOp "+" NullLiteral (StringLiteral "b")))
         0 start
    = (Normal (VStr "nullb"), start).
Proof.
  split.
  - exact (plus_concatenates_with_strings 5 (StringLiteral "a")
             (IntegerLiteral 1) 0 start start start (VStr "a") (VInt 1)
             eq_refl eq_refl eq_refl eq_refl eq_refl).
  - exact (plus_concatenates_with_strings 5 NullLiteral (StringLiteral "b")
             0 start start start VNone (VStr "b")
             eq_refl eq_refl eq_refl eq_refl eq_refl).
Defined.

(** An instance of X15: [for x in '' { }] and [for x in 3 { }]. *)
Lemma for_over_nothing_witness :
  eval 6 (NStatement (ForStatement "x" (StringLiteral "")
                                   (BlockStatement []))) 0 start
    = (Normal VNone, start)
  ∧ eval 6 (NStatement (ForStatement "x" (IntegerLiteral 3)
                                     (BlockStatement []))) 0 start
    = (Raise (KiraRuntimeError "Cannot iterate over int"), start).
Proof.
  split.
  - exact (proj1 (for_over_nothing 5 "x" (StringLiteral "")
                    (BlockStatement []) 0 start start (VStr "") eq_refl)
             eq_refl eq_refl).
  - exact (proj2 (for_over_nothing 5 "x" (IntegerLiteral 3)
                    (BlockStatement []) 0 start start (VInt 3) eq_refl)
             eq_refl).
Defined.

(** An instance of X16: [x = 1] with [x] unbound. *)
Lemma undefined_assignment_errors_witness :
  eval 6 (NStatement (AssignStatement "x" "=" (IntegerLiteral 1))) 0 start
    = (Raise (PyExc RuntimeError "Undefined variable: x"), start)
  ∧ eval 6 (NStatement (AssignStatement "x" "+=" (IntegerLiteral 1))) 0 start
    = (Raise (KiraRuntimeError "Undefined variable: x"), start).
Proof.
  destruct (undefined_assignment_errors 5 "x" (IntegerLiteral 1) 0 start
              start (VInt 1) eq_refl eq_refl)
    as (Hassign & _ & Hplus & _).
  split; [exact Hassign | exact Hplus].
Defined.

(** An instance of X17: [a - b - c] and [a ** b ** c]. *)
Lemma two_operators_group_witness :
  parse_program [tok IDENTIFIER "a"; tok MINUS "-"; tok IDENTIFIER "b";
                 tok MINUS "-"; tok IDENTIFIER "c"; tok EOF ""] 20
    = Normal (mkProgram
        [ExpressionStatement
           (BinaryOp "-" (BinaryOp "-" (Identifier "a") (Identifier "b"))
                     (Identifier "c"))])
  ∧ parse_program [tok IDENTIFIER "a"; tok POWER "**"; tok IDENTIFIER "b";
                   tok POWER "**"; tok IDENTIFIER "c"; tok EOF ""] 20
    = Normal (mkProgram
        [ExpressionStatement
           (BinaryOp "**" (Identifier "a")
                     (BinaryOp "**" (Identifier "b") (Identifier "c")))]).
Proof.
  split.
  - exact (two_operators_group (tok IDENTIFIER "a") (tok MINUS "-")
             (tok IDENTIFIER "b") (tok MINUS "-") (tok IDENTIFIER "c")
             (tok EOF "") eq_refl eq_refl eq_refl eq_refl
             ltac:(repeat constructor) ltac:(repeat constructor)).
  - exact (two_operators_group (tok IDENTIFIER "a") (tok POWER "**")
             (tok IDENTIFIER "b") (tok POWER "**") (tok IDENTIFIER "c")
             (tok EOF "") eq_refl eq_refl eq_refl eq_refl
             ltac:(repeat constructor) ltac:(repeat constructor)).
Defined.

(** An instance of X18: [-x ** y]. *)
Lemma prefix_binds_tighter_witness :
  parse_program [tok MINUS "-"; tok IDENTIFIER "x"; tok POWER "**";
                 tok IDENTIFIER "y"; tok EOF ""] 20
  = Normal (mkProgram
      [ExpressionStatement
         (BinaryOp "**" (UnaryOp "-" (Identifier "x")) (Identifier "y"))]).
Proof.
  exact (proj1 (prefix_binds_tighter (tok MINUS "-") (tok IDENTIFIER "x")
                  (tok POWER "**") (tok IDENTIFIER "y") (tok LPAREN "(")
                  (tok RPAREN ")") (tok EOF "")
                  ltac:(repeat constructor) ltac:(repeat constructor)
                  eq_refl eq_refl eq_refl eq_refl eq_refl)).
Defined.

(** An instance of X19: a program that starts with [)]. *)
Lemma unexpected_token_is_reported_witness :
  parse_program [tok RPAREN ")"; tok EOF ""] 3
  = Raise (ParserError "No prefix parser for RPAREN" (tok RPAREN ")")).
Proof.
  refine (unexpected_token_is_reported (tok RPAREN ")") [tok EOF ""] 0
            eq_refl _).
  unfold statement_keywords. cbn [tok type]. rewrite !elem_of_cons.
  intros Hin. repeat (destruct Hin as [Hin|Hin]; [discriminate Hin|]).
  by apply elem_of_nil in Hin.
Defined.

(** An instance of X20: the source [let x = 12]. *)
Lemma plain_source_lexes_witness :
  match tokenize "let x = 12" with
  | Normal tokens => well_ended tokens
  | Raise e => is_LexerError e = true
  | OutOfFuel => False
  end.
Proof.
  refine (plain_source_lexes "let x = 12" _ _).
  - repeat constructor; intros Hd; vm_compute in Hd |- *;
      (reflexivity || discriminate Hd).
  - vm_compute. lia.
Defined.

(** An instance of X21: the source [42]. *)
Lemma integer_literal_round_trip_witness :
  tokenize "42"
  = Normal [mkToken INTEGER "42" (TokInt 42) 1 1;
            mkToken EOF "" TokNone 1 3].
Proof.
  refine (integer_literal_round_trip 42 ltac:(lia) _).
  vm_compute. lia.
Defined.

(** An instance of X22: [push([1, 2], 3)], then [pop]. *)
Lemma push_then_pop_witness :
  builtin_push [VList 0; VInt 3] [ListObj [VInt 1; VInt 2]] empty_world
    = (Normal (VList 0), [ListObj [VInt 1; VInt 2; VInt 3]], empty_world)
  ∧ builtin_pop [VList 0] [ListObj [VInt 1; VInt 2; VInt 3]] empty_world
    = (Normal (VInt 3), [ListObj [VInt 1; VInt 2]], empty_world).
Proof.
  destruct (push_then_pop [ListObj [VInt 1; VInt 2]] empty_world 0
              [VInt 1; VInt 2] (VInt 3) eq_refl)
    as (Hpush & _ & _ & Hpop).
  split; [exact Hpush | exact Hpop].
Defined.

(** An instance of X23: [first([])]. *)
Lemma array_ends_witness :
  builtin_first [VList 0] [ListObj []] empty_world
  = (Raise (KiraRuntimeError "first() on empty array"), [ListObj []],
     empty_world).
Proof.
  exact (proj1 (proj1 (array_ends [ListObj []] empty_world 0 [] eq_refl)
                  eq_refl)).
Defined.

(** An instance of X24: [reversed([1, 2])]. *)
Lemma reversed_twice_witness :
  builtin_reversed [VList 0] [ListObj [VInt 1; VInt 2]] empty_world
  = (Normal (VList 1),
     [ListObj [VInt 1; VInt 2]; ListObj [VInt 2; VInt 1]], empty_world).
Proof.
  exact (proj1 (reversed_twice [ListObj [VInt 1; VInt 2]] empty_world 0
                  [VInt 1; VInt 2] eq_refl)).
Defined.

(** An instance of X25: [range(10, 0, -3)]. *)
Lemma range_enumerates_witness :
  ∃ items,
    builtin_range [VInt 10; VInt 0; VInt (-3)] [] empty_world
    = (Normal (VList 0), [ListObj items], empty_world).
Proof.
  destruct (range_enumerates [] empty_world 10 0 (-3) ltac:(lia))
    as (items & Hrun & _).
  exists items. exact Hrun.
Defined.

(** An instance of X26: [range(1, 5, 0)]. *)
Lemma range_refuses_witness :
  builtin_range [VInt 1; VInt 5; VInt 0] [] empty_world
  = (Raise (PyExc ValueError "range() arg 3 must not be zero"), [],
     empty_world).
Proof.
  exact (proj1 (range_refuses [] empty_world (VInt 1) (VInt 5) (VInt 0))
           eq_refl (ex_intro _ 1 eq_refl) (ex_intro _ 5 eq_refl)).
Defined.

(** An instance of X27: [push(a)] with one argument. *)
Lemma builtin_arity_is_checked_witness :
  @apply_function (BuiltinsHost.host 5) (@eval (BuiltinsHost.host 5) 5)
    (VBuiltin "push") [VInt 1] start
  = (Raise (KiraRuntimeError
       "Error calling push: builtin_push() missing 1 required positional argument: 'value'"),
     start).
Proof.
  refine (builtin_arity_is_checked 5 (@eval (BuiltinsHost.host 5) 5)
            "push" "builtin_push" ["arr"; "value"] [VInt 1] start _ _).
  - unfold builtin_signatures. repeat constructor.
  - cbn. lia.
Defined.

(** An instance of X28: [print('x =', 3)]. *)
Lemma print_writes_one_line_witness :
  builtin_print 1 [VStr "x ="; VInt 3] [] empty_world
    = (Normal VNone, [], mkWorld ["x = 3"] [])
  ∧ one_line "x = 3" = true.
Proof.
  destruct (print_writes_one_line 0 [VStr "x ="; VInt 3] [] empty_world
              ltac:(repeat constructor)) as (Hprint & _ & Hline).
  split; [exact Hprint|]. apply Hline. repeat constructor.
Defined.

(** An instance of X29: the source ['hi'], and the source without the
    closing quote. *)
Lemma string_literal_round_trip_witness :
  tokenize "'hi'"
    = Normal [mkToken STRING "hi" (TokStr "hi") 1 1;
              mkToken EOF "" TokNone 1 5]
  ∧ tokenize "'hi"
    = Raise (LexerError "Unterminated string literal" 1 1).
Proof.
  refine (string_literal_round_trip "'" ["h"; "i"]%char eq_refl _).
  repeat constructor.
Defined.

(** An instance of X30: the keyword [true]. *)
Lemma name_is_one_token_witness :
  tokenize "true"
  = Normal [mkToken TRUE "true" (TokBool true) 1 1;
            mkToken EOF "" TokNone 1 5].
Proof.
  refine (name_is_one_token "t" ["r"; "u"; "e"]%char eq_refl _).
  repeat constructor.
Defined.

End MoreExamples.
